(** * hmi-live: the live-tag distribution engine of DemoHMI/liveDataAPI/index.js

    A shallow embedding of the template resolver, the registry builder, the
    snapshot reader, the diff poller, the liveness detector and the client
    fan-out of [liveDataAPI/index.js], followed by the properties of the
    engine stated in the specification, and by further properties of the
    same code, of the translation of the layout and of the handshake of the
    simulator.

    Conventions of the embedding.
    - A JavaScript string is a [string]; [toLowerCase] and [trim] act on the
      ASCII range.
    - A JavaScript number is a [number]: NaN, the two infinities, or a finite
      value. The engine never computes with tag values, it only compares them,
      and every clock reading is an integer count of milliseconds, so finite
      numbers are integers of [Z]. The conversion of a string to a number is
      a parameter [StringToNumber] of the engine.
    - A tag value is a primitive or a plain object; a JavaScript object is
      the list of its properties in enumeration order, and a new property is
      added last.
    - The functions given to [attach] and the writes to a response are the
      outside world: a [world] holds their answers during one run of a
      handler, a throw being one of the possible answers.
    - A handler of the event loop runs to completion: it is a function from
      the engine state and the world to the next engine state. A thrown
      exception is a result [Throw] of the small state-and-exception monad
      [M]; the state written before the throw is kept, as in JavaScript.

    Plan of the file: the embedding of the source; the notions used to state
    the properties; the properties, component by component; concrete runs. *)

From Stdlib Require Import ZArith Ascii String List Bool Lia.
From stdpp Require Import base gmap strings list pretty.

Local Open Scope Z_scope.

(* ===================================================================== *)
(** * JavaScript values                                                   *)
(* ===================================================================== *)

Module Js.

Inductive number : Type :=
| NaN
| NegInf
| PosInf
| Fin (z : Z).

(** Runtime values held by the data source. An object carries the identity
    [ref] that strict equality compares, and its own properties. *)
#[warnings="-register-all"] Inductive value : Type :=
| VUndef
| VNull
| VBool (b : bool)
| VNum (n : number)
| VStr (s : string)
| VObj (ref : N) (fields : list (string * value)).

(** Values read by [JSON.parse]: the layout and the template table. *)
#[warnings="-register-all"] Inductive json : Type :=
| JNull
| JBool (b : bool)
| JNum (n : Z)
| JStr (s : string)
| JArr (items : list json)
| JObj (fields : list (string * json)).

(** [o[k]] on a property list: the first binding of [k]. *)
Fixpoint obj_get {A} (fields : list (string * A)) (k : string) : option A :=
  match fields with
  | [] => None
  | (k', v) :: rest => if String.eqb k' k then Some v else obj_get rest k
  end.

(** [o[k] = v]: an existing property keeps its place, a new one is added
    last. *)
Fixpoint obj_set {A} (fields : list (string * A)) (k : string) (v : A)
  : list (string * A) :=
  match fields with
  | [] => [(k, v)]
  | (k', v') :: rest =>
      if String.eqb k' k then (k', v) :: rest
      else (k', v') :: obj_set rest k v
  end.

(** [v.k] on a runtime value; a missing property reads [undefined]. *)
Definition prop (v : value) (k : string) : value :=
  match v with
  | VObj _ fields => default VUndef (obj_get fields k)
  | _ => VUndef
  end.

(** ['k' in v] for a plain object. *)
Definition has_prop (v : value) (k : string) : bool :=
  match v with
  | VObj _ fields => bool_decide (is_Some (obj_get fields k))
  | _ => false
  end.

(** [a ?? b] *)
Definition nullish (a b : value) : value :=
  match a with
  | VUndef | VNull => b
  | _ => a
  end.

Definition num_eqb (a b : number) : bool :=
  match a, b with
  | Fin x, Fin y => Z.eqb x y
  | PosInf, PosInf => true
  | NegInf, NegInf => true
  | _, _ => false
  end.

(** [a < b] on numbers; false as soon as one side is NaN. *)
Definition num_ltb (a b : number) : bool :=
  match a, b with
  | NaN, _ | _, NaN => false
  | _, NegInf => false
  | NegInf, _ => true
  | PosInf, _ => false
  | Fin _, PosInf => true
  | Fin x, Fin y => Z.ltb x y
  end.

(** [a >= b] on numbers. *)
Definition num_geb (a b : number) : bool :=
  match a, b with
  | NaN, _ | _, NaN => false
  | _, _ => negb (num_ltb a b)
  end.

(** [Number.isFinite] *)
Definition isFinite (a : number) : bool :=
  match a with
  | Fin _ => true
  | _ => false
  end.

(** [a === b] *)
Definition strict_eq (a b : value) : bool :=
  match a, b with
  | VUndef, VUndef => true
  | VNull, VNull => true
  | VBool x, VBool y => Bool.eqb x y
  | VNum x, VNum y => num_eqb x y
  | VStr x, VStr y => String.eqb x y
  | VObj r1 _, VObj r2 _ => N.eqb r1 r2
  | _, _ => false
  end.

(** [a !== b] *)
Definition strict_neq (a b : value) : bool := negb (strict_eq a b).

(** Truthiness of a parsed JSON value. *)
Definition json_truthy (j : json) : bool :=
  match j with
  | JNull => false
  | JBool b => b
  | JNum n => negb (Z.eqb n 0)
  | JStr s => negb (String.eqb s "")
  | JArr _ | JObj _ => true
  end.

(** [s.toLowerCase()], ASCII letters. *)
Definition lower_ascii (c : ascii) : ascii :=
  let n := nat_of_ascii c in
  if (Nat.leb 65 n && Nat.leb n 90)%bool then ascii_of_nat (n + 32) else c.

Fixpoint toLowerCase (s : string) : string :=
  match s with
  | EmptyString => EmptyString
  | String c rest => String (lower_ascii c) (toLowerCase rest)
  end.

(** [s.startsWith(p)] *)
Definition startsWith (s p : string) : bool := String.prefix p s.

(** [s.includes(p)] *)
Fixpoint includes (s p : string) : bool :=
  String.prefix p s ||
  match s with
  | EmptyString => false
  | String _ rest => includes rest p
  end.

Definition is_digit (c : ascii) : bool :=
  let n := nat_of_ascii c in (Nat.leb 48 n && Nat.leb n 57)%bool.

Fixpoint drop_spaces (s : string) : string :=
  match s with
  | String c rest => if Ascii.is_space c then drop_spaces rest else s
  | EmptyString => EmptyString
  end.

(** [s.trim()], ASCII white space. *)
Definition trim (s : string) : string :=
  String.rev (drop_spaces (String.rev (drop_spaces s))).

Section Coercions.
(** The StringToNumber operation of the language is taken as it is: the
    engine's behaviour is established for every such function. *)
Variable StringToNumber : string -> number.

(** ToPrimitive: a plain object converts to the string
    "[object Object]". *)
Definition toPrimitive (v : value) : value :=
  match v with
  | VObj _ _ => VStr "[object Object]"
  | _ => v
  end.

(** [Number(v)] *)
Definition Number (v : value) : number :=
  match toPrimitive v with
  | VUndef => NaN
  | VNull => Fin 0
  | VBool true => Fin 1
  | VBool false => Fin 0
  | VNum n => n
  | VStr s => StringToNumber s
  | VObj _ _ => NaN
  end.

(** [a < b]: two strings compare as strings, anything else as numbers. *)
Definition js_lt (a b : value) : bool :=
  match toPrimitive a, toPrimitive b with
  | VStr x, VStr y => String.ltb x y
  | pa, pb => num_ltb (Number pa) (Number pb)
  end.

(** [a > b] *)
Definition js_gt (a b : value) : bool := js_lt b a.
End Coercions.

End Js.

Import Js.

(* ===================================================================== *)
(** * Template resolver                                                   *)
(* ===================================================================== *)

(** The pattern that [captureNumbers] compiles: [escReg] makes every
    character but '#' a literal, and each '#' becomes the group
    [([0-9]+)]. *)
Inductive token : Type :=
| Lit (c : ascii)
| Hash.

Fixpoint compile (template : string) : list token :=
  match template with
  | EmptyString => []
  | String c rest =>
      (if Ascii.eqb c "#" then Hash else Lit c) :: compile rest
  end.

(** Length of the longest run of digits at the head of [s]. *)
Fixpoint digit_run (s : string) : nat :=
  match s with
  | String c rest => if is_digit c then S (digit_run rest) else O
  | EmptyString => O
  end.

Fixpoint take_str (n : nat) (s : string) : string :=
  match n, s with
  | S n', String c rest => String c (take_str n' rest)
  | _, _ => EmptyString
  end.

Fixpoint drop_str (n : nat) (s : string) : string :=
  match n, s with
  | S n', String _ rest => drop_str n' rest
  | _, _ => s
  end.

(** A greedy group: the longest run first, then one digit less at a time,
    down to one digit. *)
Fixpoint greedy (k : string -> option (list string)) (s : string) (n : nat)
  : option (list string) :=
  match n with
  | O => None
  | S n' =>
      match k (drop_str n s) with
      | Some caps => Some (take_str n s :: caps)
      | None => greedy k s n'
      end
  end.

(** Anchored match of a compiled pattern, with backtracking; the result is
    the list of captured groups. *)
Fixpoint match_tokens (toks : list token) (s : string)
  : option (list string) :=
  match toks with
  | [] => match s with EmptyString => Some [] | _ => None end
  | Lit c :: rest =>
      match s with
      | String c' s' => if Ascii.eqb c c' then match_tokens rest s' else None
      | EmptyString => None
      end
  | Hash :: rest => greedy (match_tokens rest) s (digit_run s)
  end.

(** [captureNumbers(concrete, templateWithHashes)]: [Some caps] for a match
    ([m.slice(1)]), [None] for [null]. *)
Definition captureNumbers (concrete templateWithHashes : string)
  : option (list string) :=
  match_tokens (compile templateWithHashes) concrete.

(** [String(str).replace(/#/g, () => (caps[i++] ?? ''))] *)
Fixpoint replace_hashes (str : string) (caps : list string) : string :=
  match str with
  | EmptyString => EmptyString
  | String c rest =>
      if Ascii.eqb c "#"
      then String.append (hd EmptyString caps) (replace_hashes rest (tl caps))
      else String c (replace_hashes rest caps)
  end.

(** [applyCaptures(str, caps)] for a string [str] and an array [caps]. *)
Definition applyCaptures (str : string) (caps : list string) : string :=
  if (String.eqb str "" || Nat.eqb (length caps) 0)%bool then str
  else replace_hashes str caps.

Abbreviation obj := (list (string * json)).

(** [applyCaptures] on a property when [typeof meta[k] === 'string']. *)
Definition apply_field (meta : obj) (k : string) (caps : list string) : obj :=
  match obj_get meta k with
  | Some (JStr s) => obj_set meta k (JStr (applyCaptures s caps))
  | _ => meta
  end.

(** [materializeTemplate(tpl, concreteTag)]. [None] is the TypeError of
    [escReg] on a [tpl.tagId] that is not a string. *)
Definition materializeTemplate (tpl : obj) (concreteTag : string)
  : option obj :=
  match obj_get tpl "tagId" with
  | Some (JStr tplId) =>
      let caps := default [] (captureNumbers concreteTag tplId) in
      let meta := obj_set tpl "tagId" (JStr concreteTag) in
      let meta := apply_field meta "label" caps in
      let meta := apply_field meta "description" caps in
      Some meta
  | _ => None
  end.

(* ===================================================================== *)
(** * Layout utilities and registry                                       *)
(* ===================================================================== *)

(** [/^(TOHMI_|FRMHMI_|ALARM_|WARNING_|Feedpoint\d+_|Recipe_Feedpoint\d+_)/] *)
Definition feedpoint_prefix (s : string) : bool :=
  startsWith s "Feedpoint" &&
  let r := drop_str 9 s in
  let n := digit_run r in
  negb (Nat.eqb n 0) && startsWith (drop_str n r) "_".

Definition TAG_REGEX_test (id : string) : bool :=
  startsWith id "TOHMI_" || startsWith id "FRMHMI_" ||
  startsWith id "ALARM_" || startsWith id "WARNING_" ||
  feedpoint_prefix id ||
  (startsWith id "Recipe_" && feedpoint_prefix (drop_str 7 id)).

(** One element of [found]: [{ tagId, override }], [None] for a null
    override. *)
Record entry : Type := Entry {
  e_tagId : string;
  e_override : option json
}.

(** The two locals of [collectConcreteTags]. *)
Record collector : Type := Collector {
  found : list entry;
  seen : gset string
}.

(** The closure [add] for a string [tagId]. *)
Definition add (tagId : string) (override : option json) (a : collector)
  : collector :=
  if String.eqb tagId "" then a
  else
    let id := trim tagId in
    if (String.eqb id "" || negb (TAG_REGEX_test id)
        || bool_decide (id ∈ seen a))%bool
    then a
    else Collector (found a ++ [Entry id override]) ({[ id ]} ∪ seen a).

(** [val.override || null] *)
Definition override_of (fields : obj) : option json :=
  match obj_get fields "override" with
  | Some j => if json_truthy j then Some j else None
  | None => None
  end.

Definition skipped_key (k : string) : bool :=
  String.eqb k "override" || String.eqb k "component" || String.eqb k "key"
  || String.eqb k "title" || String.eqb k "id".

(** The closure [scan]. *)
Fixpoint scan (val : json) (a : collector) : collector :=
  if negb (json_truthy val) then a
  else
    match val with
    | JStr s => if startsWith s "key_" then a else add s None a
    | JArr items => fold_left (fun a v => scan v a) items a
    | JObj fields =>
        let a :=
          match obj_get fields "tagId" with
          | Some (JStr t) => add t (override_of fields) a
          | _ => a
          end in
        fold_left
          (fun a kv => if skipped_key (fst kv) then a else scan (snd kv) a)
          fields a
    | _ => a
    end.

(** [j.k] on a parsed value. The outer [None] is the TypeError of a property
    read on [null]; the inner one is [undefined]. *)
Definition member (j : json) (k : string) : option (option json) :=
  match j with
  | JNull => None
  | JObj fields => Some (obj_get fields k)
  | _ => Some None
  end.

(** [Array.isArray(x) ? x : other] *)
Definition array_or (x : option json) (other : list json) : list json :=
  match x with
  | Some (JArr items) => items
  | _ => other
  end.

(** A [for] loop whose body may throw. *)
Fixpoint for_each {A S} (body : A -> S -> option S) (l : list A) (s : S)
  : option S :=
  match l with
  | [] => Some s
  | x :: rest =>
      match body x s with
      | Some s' => for_each body rest s'
      | None => None
      end
  end.

Definition scan_section (s : json) (a : collector) : option collector :=
  match member s "items", member s "widgets" with
  | Some items, Some widgets =>
      Some (fold_left (fun a it => scan it a)
              (array_or items (array_or widgets [])) a)
  | _, _ => None
  end.

Definition scan_page (p : json) (a : collector) : option collector :=
  match member p "sections" with
  | Some sections => for_each scan_section (array_or sections []) a
  | None => None
  end.

(** [collectConcreteTags(layout)]; [None] when it throws. *)
Definition collectConcreteTags (layout : json) : option (list entry) :=
  match member layout "pages" with
  | Some pages =>
      found <$> for_each scan_page (array_or pages []) (Collector [] ∅)
  | None => None
  end.

Record registry : Type := Registry {
  tags : list string;
  metaByTag : gmap string obj
}.

(** The generic record of a tag that no template matches. *)
Definition fallback (tagId : string) : obj :=
  [("tagId", JStr tagId); ("label", JStr tagId);
   ("widget", JStr "raw"); ("valueType", JStr "string")]%string.

(** The first template of the table, in its iteration order, that matches. *)
Fixpoint choose (widgetsMap : list (string * obj)) (tagId : string)
  : option obj :=
  match widgetsMap with
  | [] => None
  | (tplId, tpl) :: rest =>
      match captureNumbers tagId tplId with
      | Some _ => Some tpl
      | None => choose rest tagId
      end
  end.

Fixpoint chars_from (i : nat) (s : string) : obj :=
  match s with
  | EmptyString => []
  | String c rest =>
      (pretty i, JStr (String c EmptyString)) :: chars_from (S i) rest
  end.

(** The own enumerable properties that [...override] copies. *)
Definition own_props (j : json) : obj :=
  match j with
  | JObj fields => fields
  | JArr items => imap (fun i v => (pretty i, v)) items
  | JStr s => chars_from 0 s
  | _ => []
  end.

(** [{ ...target, ...source }] *)
Definition spread (target : obj) (source : obj) : obj :=
  fold_left (fun o kv => obj_set o (fst kv) (snd kv)) source target.

(** [override ? ({ ...concreteMeta, ...override }) : concreteMeta] *)
Definition merge_override (concreteMeta : obj) (override : option json)
  : obj :=
  match override with
  | Some o => spread concreteMeta (own_props o)
  | None => concreteMeta
  end.

(** One turn of the loop of [buildRegistry]. *)
Definition register_entry (widgetsMap : list (string * obj)) (e : entry)
  (r : registry) : option registry :=
  let tagId := e_tagId e in
  let base := default (fallback tagId) (choose widgetsMap tagId) in
  match materializeTemplate base tagId with
  | Some concreteMeta =>
      let merged := merge_override concreteMeta (e_override e) in
      match metaByTag r !! tagId with
      | None => Some (Registry (tags r ++ [tagId])
                        (<[tagId := merged]> (metaByTag r)))
      | Some _ => Some r
      end
  | None => None
  end.

(** [buildRegistry(layout, widgetsMap)]; [None] when it throws. *)
Definition buildRegistry (layout : json) (widgetsMap : list (string * obj))
  : option registry :=
  match collectConcreteTags layout with
  | Some entries =>
      for_each (register_entry widgetsMap) entries (Registry [] ∅)
  | None => None
  end.

(* ===================================================================== *)
(** * Data access                                                         *)
(* ===================================================================== *)

(** What [getAllData()] returns: a falsy value, an array of rows, or an
    object keyed by tag. *)
Inductive data : Type :=
| DFalsy
| DArray (rows : list value)
| DMap (fields : list (string * value)).

Record reading : Type := Reading {
  r_value : value;
  r_ts : value
}.

Definition is_object (v : value) : bool :=
  match v with
  | VObj _ _ => true
  | _ => false
  end.

(** The array branch of [readOne]. *)
Fixpoint readRows (rows : list value) (tagId : string) : reading :=
  match rows with
  | [] => Reading VNull VNull
  | row :: rest =>
      if negb (is_object row) then readRows rest tagId
      else
        let key := nullish (nullish (nullish (prop row "tagId")
                     (prop row "name")) (prop row "tag")) (prop row "id") in
        if strict_eq key (VStr tagId) then
          Reading
            (nullish (nullish (nullish (prop row "value") (prop row "val"))
                        (prop row "v")) VNull)
            (nullish (nullish (prop row "ts") (prop row "timestamp")) VNull)
        else readRows rest tagId
  end.

(** [readOne(myDataAll, tagId)] *)
Definition readOne (myDataAll : data) (tagId : string) : reading :=
  match myDataAll with
  | DFalsy => Reading VNull VNull
  | DArray rows => readRows rows tagId
  | DMap fields =>
      match obj_get fields tagId with
      | Some v =>
          if (is_object v && (has_prop v "value" || has_prop v "ts"))%bool
          then Reading (nullish (prop v "value") VNull)
                       (nullish (prop v "ts") VNull)
          else Reading v VNull
      | None => Reading VNull VNull
      end
  end.

Record row : Type := Row {
  row_tagId : string;
  row_value : value;
  row_ts : value
}.

(** [buildSnapshot(myDataAll, tagIds)] *)
Definition buildSnapshot (myDataAll : data) (tagIds : list string)
  : list row :=
  map (fun t => let r := readOne myDataAll t in Row t (r_value r) (r_ts r))
      tagIds.

(* ===================================================================== *)
(** * Engine state, outside world, effects                                *)
(* ===================================================================== *)

(** A streaming client: the response object [res] of its request. *)
Abbreviation Client := nat.

(** An entry of the [lastSent] map: [{ value, ts }]. *)
Record sent : Type := Sent {
  s_value : value;
  s_ts : value
}.

(** An element of the [updates] array of a patch. *)
Record update : Type := Update {
  u_tagId : string;
  u_value : value;
  u_ts : value
}.

(** The record returned by [computePlcCommsState]. *)
Record plc : Type := Plc {
  plc_ok : bool;
  plc_ts : Z;
  plc_tag : string;
  plc_value : value;
  plc_timeoutMs : Z
}.

(** The events of the stream, by their [event:] type. *)
Inductive event : Type :=
| EvHello (ts : Z) (opcuaState : string) (pollMs : Z)
| EvPatch (updates : list update)
| EvPlcComms (p : plc)
| EvHeartbeat (ts : Z).

(** What a handler does that the outside can see, or that the liveness
    detector keeps: an [sseWrite] that went through, and the two assignments
    of [computePlcCommsState]. *)
Inductive effect : Type :=
| Wrote (c : Client) (e : event)
| SetLastBeatTs (t : Z)
| SetLastBeatVal (v : value).

(** The module-level variables of index.js. [sseClients] is the Set in
    insertion order; [pollTimer] is [true] once [setInterval] has been
    armed. The last field is not a variable of the program: [history] keeps
    the effects of all the handlers run so far, oldest first, so that what a
    client has received and how often the liveness state was assigned can be
    stated. No handler reads it. *)
Record state : Type := State {
  sseClients : list Client;
  lastSent : gmap string sent;
  pollTimer : bool;
  lastBeatTs : option Z;
  lastBeatVal : value;
  lastCommsOk : option bool;
  history : list effect
}.

Definition initial_state : state :=
  State [] ∅ false None VUndef None [].

(** The result of calling a function supplied to [attach]. *)
Inductive outcome (A : Type) : Type :=
| Returns (a : A)
| Raises.
Arguments Returns {A} a.
Arguments Raises {A}.

(** The answers of the outside world during one run of a handler.
    [allData] is the handler's own call of [getAllData()], [plcData] the call
    made inside [computePlcCommsState]; [allSettings] is the [HEARTBEAT]
    property of [getAllSettings()], [None] when the function or the property
    is missing; [opcuaState] likewise. The [now_] fields are the readings of
    [Date.now()] at each place that reads the clock, and [write_fails c]
    tells that [res.write] throws on client [c]. *)
Record world : Type := World {
  opcuaState : outcome (option string);
  allData : outcome data;
  plcData : outcome data;
  allSettings : outcome (option string);
  now_hello : Z;
  now_tag : string -> Z;
  now_plc : Z;
  now_keepalive : Client -> Z;
  write_fails : Client -> bool
}.

(** Process environment and the registry built by [attach]: the variables
    [SSE_POLL_MS] and [HEARTBEAT_TIMEOUT_MS] ([None] when unset or empty) and
    [registry.tags]. *)
Record config : Type := Config {
  env_SSE_POLL_MS : option Z;
  env_HEARTBEAT_TIMEOUT_MS : option Z;
  registry_tags : list string
}.

(** [Number(process.env.SSE_POLL_MS || 250)] *)
Definition POLL_MS (cfg : config) : Z := default 250 (env_SSE_POLL_MS cfg).

(** [Number(process.env.HEARTBEAT_TIMEOUT_MS || (POLL_MS * 6))] *)
Definition HEARTBEAT_TIMEOUT_MS (cfg : config) : Z :=
  default (POLL_MS cfg * 6) (env_HEARTBEAT_TIMEOUT_MS cfg).

(** ** The monad of handlers: state, and exceptions that keep the state *)

Inductive result (A : Type) : Type :=
| Ok (a : A)
| Throw.
Arguments Ok {A} a.
Arguments Throw {A}.

Definition M (A : Type) : Type := state -> result A * state.

Definition ret {A} (a : A) : M A := fun st => (Ok a, st).

Definition bind {A B} (m : M A) (f : A -> M B) : M B :=
  fun st =>
    match m st with
    | (Ok a, st') => f a st'
    | (Throw, st') => (Throw, st')
    end.

Notation "x <- m ;; k" := (bind m (fun x => k))
  (at level 200, m at level 99, k at level 200, only parsing).
Notation "m ;;; k" := (bind m (fun _ => k))
  (at level 200, k at level 200, only parsing).

Definition get : M state := fun st => (Ok st, st).
Definition modify (f : state -> state) : M unit := fun st => (Ok tt, f st).

(** [try { m } catch {}] *)
Definition try_catch (m : M unit) : M unit :=
  fun st => (Ok tt, snd (m st)).

(** Calling a supplied function. *)
Definition call {A} (o : outcome A) : M A :=
  match o with
  | Returns a => ret a
  | Raises => fun st => (Throw, st)
  end.

Definition when (b : bool) (m : M unit) : M unit := if b then m else ret tt.

(** [for (const x of l) body(x)] *)
Fixpoint forM {A} (l : list A) (body : A -> M unit) : M unit :=
  match l with
  | [] => ret tt
  | x :: rest => body x ;;; forM rest body
  end.

Definition record (e : effect) (st : state) : state :=
  State (sseClients st) (lastSent st) (pollTimer st) (lastBeatTs st)
        (lastBeatVal st) (lastCommsOk st) (history st ++ [e]).

Definition set_lastSent (ls : gmap string sent) (st : state) : state :=
  State (sseClients st) ls (pollTimer st) (lastBeatTs st)
        (lastBeatVal st) (lastCommsOk st) (history st).

Definition set_lastBeatTs (t : Z) (st : state) : state :=
  record (SetLastBeatTs t)
    (State (sseClients st) (lastSent st) (pollTimer st) (Some t)
           (lastBeatVal st) (lastCommsOk st) (history st)).

Definition set_lastBeatVal (v : value) (st : state) : state :=
  record (SetLastBeatVal v)
    (State (sseClients st) (lastSent st) (pollTimer st) (lastBeatTs st)
           v (lastCommsOk st) (history st)).

Definition set_lastCommsOk (b : bool) (st : state) : state :=
  State (sseClients st) (lastSent st) (pollTimer st) (lastBeatTs st)
        (lastBeatVal st) (Some b) (history st).

Definition set_sseClients (cs : list Client) (st : state) : state :=
  State cs (lastSent st) (pollTimer st) (lastBeatTs st)
        (lastBeatVal st) (lastCommsOk st) (history st).

Definition set_pollTimer (st : state) : state :=
  State (sseClients st) (lastSent st) true (lastBeatTs st)
        (lastBeatVal st) (lastCommsOk st) (history st).

(** [sseWrite(res, type, data)]: the event reaches the client, or the write
    throws. *)
Definition sseWrite (w : world) (c : Client) (e : event) : M unit :=
  fun st =>
    if write_fails w c then (Throw, st) else (Ok tt, record (Wrote c e) st).

(** The events that reached client [c], oldest first. *)
Fixpoint received (c : Client) (h : list effect) : list event :=
  match h with
  | [] => []
  | Wrote c' e :: rest =>
      if Nat.eqb c' c then e :: received c rest else received c rest
  | _ :: rest => received c rest
  end.

(** How many times [lastBeatVal] was assigned. *)
Fixpoint advances (h : list effect) : nat :=
  match h with
  | [] => O
  | SetLastBeatVal _ :: rest => S (advances rest)
  | _ :: rest => advances rest
  end.

(* ===================================================================== *)
(** * Liveness detector, diff poller, streaming endpoint                  *)
(* ===================================================================== *)

Section Engine.

Variable StringToNumber : string -> number.
Variable cfg : config.

(** The local [beatDetected] of [computePlcCommsState], from the tag name,
    the stored raw value and the value just read. *)
Definition beatDetected (hbTag : string) (lastVal hbVal : value) : bool :=
  let tagNameLc := toLowerCase hbTag in
  let isHeartbeat := includes tagNameLc "heartbeat" in
  let isHandshakeLike := includes tagNameLc "handshake" in
  if isHeartbeat then
    strict_neq lastVal VUndef && strict_neq hbVal lastVal
  else if isHandshakeLike then
    let num := Number StringToNumber hbVal in
    isFinite num && num_geb num (Fin 0) &&
    (strict_eq lastVal VUndef
     || negb (num_eqb num (Number StringToNumber lastVal)))
  else
    strict_neq lastVal VUndef && strict_neq hbVal lastVal.

(** [settings.HEARTBEAT || 'TOHMI_CRC_Handshake'] *)
Definition heartbeat_tag (setting : option string) : string :=
  match setting with
  | Some s => if String.eqb s "" then "TOHMI_CRC_Handshake" else s
  | None => "TOHMI_CRC_Handshake"
  end.

(** [lastBeatTs != null && (now - lastBeatTs) <= HEARTBEAT_TIMEOUT_MS] *)
Definition commsOk (beatTs : option Z) (now : Z) : bool :=
  match beatTs with
  | Some t => Z.leb (now - t) (HEARTBEAT_TIMEOUT_MS cfg)
  | None => false
  end.

(** [computePlcCommsState(getAllData, getAllSettings, { advanceState })] *)
Definition computePlcCommsState (w : world) (advanceState : bool) : M plc :=
  data <- call (plcData w) ;;
  setting <- call (allSettings w) ;;
  let hbTag := heartbeat_tag setting in
  let hbVal := r_value (readOne data hbTag) in
  let now := now_plc w in
  st <- get ;;
  let beat := beatDetected hbTag (lastBeatVal st) hbVal in
  when (advanceState && beat) (modify (set_lastBeatTs now)) ;;;
  when advanceState (modify (set_lastBeatVal hbVal)) ;;;
  st <- get ;;
  ret (Plc (commsOk (lastBeatTs st) now) now hbTag (nullish hbVal VNull)
           (HEARTBEAT_TIMEOUT_MS cfg)).

(** [!prev || prev.value !== cur.value] *)
Definition valueChanged (prev : option sent) (cur : reading) : bool :=
  match prev with
  | None => true
  | Some p => strict_neq (s_value p) (r_value cur)
  end.

(** [cur.ts != null] *)
Definition not_null (v : value) : bool :=
  match v with
  | VUndef | VNull => false
  | _ => true
  end.

(** One turn of the loop over [tags] in the poll callback, on the map
    [lastSent] and the local array [updates]. *)
Definition diff_tag (w : world) (d : data) (t : string)
  (acc : gmap string sent * list update) : gmap string sent * list update :=
  let '(ls, updates) := acc in
  let cur := readOne d t in
  let prev := ls !! t in
  if valueChanged prev cur then
    let ts := nullish (r_ts cur) (VNum (Fin (now_tag w t))) in
    (<[t := Sent (r_value cur) ts]> ls,
     updates ++ [Update t (r_value cur) ts])
  else
    match prev with
    | Some p =>
        if (not_null (r_ts cur)
            && js_gt StringToNumber (r_ts cur) (s_ts p))%bool
        then (<[t := Sent (s_value p) (r_ts cur)]> ls, updates)
        else (ls, updates)
    | None => (ls, updates)
    end.

Definition diff (w : world) (d : data) (tagIds : list string)
  (ls : gmap string sent) : gmap string sent * list update :=
  fold_left (fun acc t => diff_tag w d t acc) tagIds (ls, []).

Definition nonempty {A} (l : list A) : bool :=
  match l with
  | [] => false
  | _ => true
  end.

(** [lastCommsOk === null || plc.ok !== lastCommsOk] *)
Definition comms_changed (last : option bool) (ok : bool) : bool :=
  match last with
  | None => true
  | Some b => negb (Bool.eqb ok b)
  end.

(** The body of the [try] of the poll callback. *)
Definition poll_body (w : world) : M unit :=
  d <- call (allData w) ;;
  st <- get ;;
  let '(ls, updates) := diff w d (registry_tags cfg) (lastSent st) in
  modify (set_lastSent ls) ;;;
  when (nonempty updates && nonempty (sseClients st))
    (forM (sseClients st) (fun c => sseWrite w c (EvPatch updates))) ;;;
  p <- computePlcCommsState w true ;;
  st <- get ;;
  when (comms_changed (lastCommsOk st) (plc_ok p))
    (modify (set_lastCommsOk (plc_ok p)) ;;;
     when (nonempty (sseClients st))
       (forM (sseClients st) (fun c => sseWrite w c (EvPlcComms p)))).

(** One firing of the timer armed by [startPolling]. *)
Definition poll_tick (w : world) (st : state) : state :=
  if pollTimer st then snd (try_catch (poll_body w) st) else st.

(** [getOpcuaState() || 'unknown'] *)
Definition or_unknown (s : option string) : string :=
  match s with
  | Some x => if String.eqb x "" then "unknown" else x
  | None => "unknown"
  end.

(** The array [initial] of the streaming handler. *)
Definition initial_updates (w : world) (d : data) : list update :=
  map (fun r => Update (row_tagId r) (row_value r)
                  (nullish (row_ts r) (VNum (Fin (now_tag w (row_tagId r))))))
      (buildSnapshot d (registry_tags cfg)).

(** [sseClients.add(res)] *)
Definition add_client (c : Client) (cs : list Client) : list Client :=
  if bool_decide (c ∈ cs) then cs else cs ++ [c].

(** The handler of [GET /hmi-data] for the response object [c]. *)
Definition hmi_data_body (c : Client) (w : world) : M unit :=
  s <- call (opcuaState w) ;;
  sseWrite w c (EvHello (now_hello w) (or_unknown s) (POLL_MS cfg)) ;;;
  try_catch
    (d <- call (allData w) ;;
     let initial := initial_updates w d in
     when (nonempty initial) (sseWrite w c (EvPatch initial)) ;;;
     try_catch
       (p <- computePlcCommsState w true ;;
        sseWrite w c (EvPlcComms p))) ;;;
  st <- get ;;
  modify (set_sseClients (add_client c (sseClients st))) ;;;
  modify set_pollTimer.

Definition hmi_data (c : Client) (w : world) (st : state) : state :=
  snd (hmi_data_body c w st).

(** The ['close'] listener of a request: [sseClients.delete(res)]. *)
Definition on_close (c : Client) (st : state) : state :=
  set_sseClients (filter (fun c' => c' ≠ c) (sseClients st)) st.

(** The keepalive timer of [attach]. *)
Definition keepalive (w : world) (st : state) : state :=
  snd (forM (sseClients st)
         (fun c => try_catch (sseWrite w c (EvHeartbeat (now_keepalive w c))))
         st).

(** The operations that the event loop runs, one at a time. *)
Inductive op : Type :=
| Tick (w : world)
| Connect (c : Client) (w : world)
| Close (c : Client)
| Keepalive (w : world).

Definition step (st : state) (o : op) : state :=
  match o with
  | Tick w => poll_tick w st
  | Connect c w => hmi_data c w st
  | Close c => on_close c st
  | Keepalive w => keepalive w st
  end.

Definition run (ops : list op) (st : state) : state := fold_left step ops st.

End Engine.

(* ===================================================================== *)
(** * The specification's reading of Materialize                          *)
(* ===================================================================== *)

(** Replace placeholders from the head of [caps]; returns the new string and
    the captures that are left. *)
Fixpoint consume (str : string) (caps : list string) : string * list string :=
  match str with
  | EmptyString => (EmptyString, caps)
  | String c rest =>
      if Ascii.eqb c "#" then
        let '(out, more) := consume rest (tl caps) in
        (String.append (hd EmptyString caps) out, more)
      else
        let '(out, more) := consume rest caps in
        (String c out, more)
  end.

(** Materialize as the specification words it: one sequence of captures,
    consumed more to right through [label] and then [description]; a
    capture used in [label] is not used again in [description], and an
    occurrence past the last capture becomes the empty string. *)
Definition Materialize_spec (tpl : obj) (concreteTag : string)
  (capturedDigits : list string) : obj :=
  let meta := obj_set tpl "tagId" (JStr concreteTag) in
  let '(meta, more) :=
    match obj_get meta "label" with
    | Some (JStr l) =>
        let '(l', more) := consume l capturedDigits in
        (obj_set meta "label" (JStr l'), more)
    | _ => (meta, capturedDigits)
    end in
  match obj_get meta "description" with
  | Some (JStr d) => obj_set meta "description" (JStr (fst (consume d more)))
  | _ => meta
  end.

(** A string cut at its placeholders: [join_hash [s0; s1; s2]] is
    [s0 # s1 # s2]. *)
Fixpoint join_hash (segs : list string) : string :=
  match segs with
  | [] => EmptyString
  | [s] => s
  | s :: rest => String.append s (String "#" (join_hash rest))
  end.

(** The segments with the [k]-th, [k+1]-th, ... captures between them; a
    capture that does not exist is the empty string. *)
Fixpoint fill (k : nat) (segs : list string) (caps : list string) : string :=
  match segs with
  | [] => EmptyString
  | [s] => s
  | s :: rest =>
      String.append s (String.append (nth k caps EmptyString)
                                     (fill (S k) rest caps))
  end.

Definition no_hash (s : string) : Prop := includes s "#" = false.

(* ===================================================================== *)
(** * Notions used to state the properties                                *)
(* ===================================================================== *)

(** The layout of the specification's example: one page, one section, one
    item that is the tag name. *)
Definition example_layout : json :=
  JObj [("pages",
         JArr [JObj [("sections",
           JArr [JObj [("items",
             JArr [JStr "TOHMI_Feedpoint2_currentJob"])]])]])].

Definition example_templates : list (string * obj) :=
  [("Recipe_Feedpoint#_projectName",
    [("tagId", JStr "Recipe_Feedpoint#_projectName");
     ("label", JStr "Feedpoint # project")])]%string.

(** The same reference, written as an object with an override. *)
Definition override_layout : json :=
  JObj [("pages",
         JArr [JObj [("sections",
           JArr [JObj [("items",
             JArr [JObj [("tagId", JStr "TOHMI_Feedpoint2_currentJob");
                         ("override", JObj [("label", JStr "Job")])]])]])]])].

(** The world feeds value [v] for the beat tag [hbTag] to one evaluation:
    both queries return, the settings name [hbTag], and the data read at
    [hbTag] is [v]. *)
Definition feeds (hbTag : string) (v : value) (w : world) : Prop :=
  exists d, plcData w = Returns d /\ allSettings w = Returns (Some hbTag) /\
            r_value (readOne d hbTag) = v.

(** The state left by one evaluation of [computePlcCommsState] whose queries
    returned data [d] and setting [s]. *)
Definition evaluated (advanceState : bool) (hbTag : string) (hbVal : value)
  (now : Z) (beat : bool) (st : state) : state :=
  let st1 := if (advanceState && beat)%bool then set_lastBeatTs now st else st in
  if advanceState then set_lastBeatVal hbVal st1 else st1.

(** The state with the effects [es] appended to its history. *)
Definition emit (es : list effect) (st : state) : state :=
  State (sseClients st) (lastSent st) (pollTimer st) (lastBeatTs st)
        (lastBeatVal st) (lastCommsOk st) (history st ++ es).

(** The clients reached by a loop of writes without [try]: those before the
    first one whose write throws. *)
Fixpoint healthy_prefix (w : world) (cs : list Client) : list Client :=
  match cs with
  | [] => []
  | c :: rest => if write_fails w c then [] else c :: healthy_prefix w rest
  end.

Definition all_healthy (w : world) (cs : list Client) : bool :=
  forallb (fun c => negb (write_fails w c)) cs.

(** The effects appended to the history between [st] and a later [st']. *)
Definition emitted (st st' : state) : list effect :=
  drop (length (history st)) (history st').

(** How many times [lastBeatTs] was assigned. *)
Fixpoint stamps (h : list effect) : nat :=
  match h with
  | [] => O
  | SetLastBeatTs _ :: rest => S (stamps rest)
  | _ :: rest => stamps rest
  end.

(** The effects of the liveness half of a tick or of a connection: the two
    assignments and the writes of a comms event. *)
Definition is_liveness_effect (e : effect) : Prop :=
  match e with
  | Wrote _ (EvPlcComms _) | SetLastBeatTs _ | SetLastBeatVal _ => True
  | _ => False
  end.

Definition is_patch_write (e : effect) : Prop :=
  match e with
  | Wrote _ (EvPatch _) => True
  | _ => False
  end.

Definition is_write (e : effect) : Prop :=
  match e with
  | Wrote _ _ => True
  | _ => False
  end.

(** The number of effects that one operation may add to each of the two
    counters of the liveness state. *)
Definition may_advance (o : op) : nat :=
  match o with
  | Tick _ | Connect _ _ => 1
  | Close _ | Keepalive _ => 0
  end.

Fixpoint advance_budget (ops : list op) : nat :=
  match ops with
  | [] => O
  | o :: rest => (may_advance o + advance_budget rest)%nat
  end.

Definition patch_writes (w : world) (cs : list Client) (ups : list update)
  : list effect :=
  if nonempty ups
  then map (fun c => Wrote c (EvPatch ups)) (healthy_prefix w cs)
  else [].

Definition comms_writes (w : world) (cs : list Client) (p : plc)
  : list effect :=
  map (fun c => Wrote c (EvPlcComms p)) (healthy_prefix w cs).

Definition registered (c : Client) (st : state) : state :=
  set_pollTimer (set_sseClients (add_client c (sseClients st)) st).

Section Derived.

Variable StringToNumber : string -> number.
Variable cfg : config.

(** One state-advancing evaluation, as the poll tick and the streaming
    handler make it. *)
Definition evaluate (w : world) (st : state) : state :=
  snd (computePlcCommsState StringToNumber cfg w true st).

(** The liveness half of a tick, run on the state [st2] left by the patch
    half. *)
Definition tick_liveness (w : world) (st2 : state) : state :=
  match computePlcCommsState StringToNumber cfg w true st2 with
  | (Ok p, st3) =>
      if comms_changed (lastCommsOk st3) (plc_ok p)
      then emit (comms_writes w (sseClients st3) p)
                (set_lastCommsOk (plc_ok p) st3)
      else st3
  | (Throw, st3) => st3
  end.

(** A tick whose snapshot read returned, from the result of its diff. *)
Definition tick_after_diff (w : world) (st : state)
  (r : gmap string sent * list update) : state :=
  let st2 := emit (patch_writes w (sseClients st) r.2) (set_lastSent r.1 st) in
  if negb (nonempty r.2) || all_healthy w (sseClients st)
  then tick_liveness w st2
  else st2.

Definition hello_of (w : world) (s : option string) : event :=
  EvHello (now_hello w) (or_unknown s) (POLL_MS cfg).

(** The initial patch, when there is one: [if (initial.length)]. *)
Definition initial_patch (w : world) (d : data) : list event :=
  if nonempty (initial_updates cfg w d)
  then [EvPatch (initial_updates cfg w d)] else [].

(** The state after the two nested [try] blocks, entered in state [st1] with
    the data [d]. *)
Definition greet_data (c : Client) (w : world) (d : data) (st1 : state)
  : state :=
  let st2 := emit (map (Wrote c) (initial_patch w d)) st1 in
  match computePlcCommsState StringToNumber cfg w true st2 with
  | (Ok p, st3) => record (Wrote c (EvPlcComms p)) st3
  | (Throw, st3) => st3
  end.

Definition greeted (c : Client) (w : world) (s : option string) (st : state)
  : state :=
  let st1 := record (Wrote c (hello_of w s)) st in
  match allData w with
  | Returns d => greet_data c w d st1
  | Raises => st1
  end.

End Derived.

Section Settled.

Variable StringToNumber : string -> number.
Variable w : world.
Variable d : data.
Variable ls0 : gmap string sent.

(** The timestamp that a changed tag is sent with: [cur.ts ?? Date.now()]. *)
Definition sent_ts (t : string) : value :=
  nullish (r_ts (readOne d t)) (VNum (Fin (now_tag w t))).

(** [prev && cur.ts != null && cur.ts > prev.ts] *)
Definition newer (prev : option sent) (cur : reading) : bool :=
  match prev with
  | Some p => not_null (r_ts cur) && js_gt StringToNumber (r_ts cur) (s_ts p)
  | None => false
  end.

(** The entry of [lastSent] for a tag of the list, once the loop is over. *)
Definition settled (t : string) : option sent :=
  let cur := readOne d t in
  if valueChanged (ls0 !! t) cur then Some (Sent (r_value cur) (sent_ts t))
  else if newer (ls0 !! t) cur
       then (fun p => Sent (s_value p) (r_ts cur)) <$> ls0 !! t
       else ls0 !! t.

End Settled.

(* ===================================================================== *)
(** * Concrete configurations, worlds and states                          *)
(* ===================================================================== *)

Fixpoint digits_value (s : string) (acc : Z) : option Z :=
  match s with
  | EmptyString => Some acc
  | String c rest =>
      if is_digit c
      then digits_value rest (10 * acc + Z.of_nat (nat_of_ascii c - 48))
      else None
  end.

(** A StringToNumber for the runs below: the empty string is 0, a string of
    decimal digits is its value, any other string is NaN. *)
Definition decimal (s : string) : number :=
  match digits_value s 0 with
  | Some z => Fin z
  | None => NaN
  end.

(** One tag in the registry, no environment variable set. *)
Definition demo_cfg : config := Config None None ["TOHMI_PE1"%string].

Definition empty_cfg : config := Config None None [].

(** A world in which every query returns, no write throws and the clock
    reads [now]; the data is [d] and the settings name the tag [hb]. *)
Definition calm (d : data) (hb : option string) (now : Z) : world :=
  World (Returns (Some "connected"%string)) (Returns d) (Returns d)
        (Returns hb) now (fun _ => now) now (fun _ => now) (fun _ => false).

(** The tag of the registry with value [v], as an object keyed by tag. *)
Definition pe1 (v : value) : data := DMap [("TOHMI_PE1"%string, v)].

(** The same world, except that the data query of the liveness evaluation
    throws. *)
Definition plc_down (d : data) (now : Z) : world :=
  World (Returns None) (Returns d) Raises (Returns None)
        now (fun _ => now) now (fun _ => now) (fun _ => false).

(** The same world, except that every data query throws. *)
Definition data_down (now : Z) : world :=
  World (Returns None) Raises Raises (Returns None)
        now (fun _ => now) now (fun _ => now) (fun _ => false).

(** The same world, except that the writes to client [bad] throw. *)
Definition broken (bad : Client) (d : data) (now : Z) : world :=
  World (Returns None) (Returns d) (Returns d) (Returns None)
        now (fun _ => now) now (fun _ => now) (fun c => Nat.eqb c bad).

(** A state whose last beat was recorded at time 1000. *)
Definition beaten : state :=
  State [] ∅ true (Some 1000) (VNum (Fin 4)) (Some true) [].

Definition handshake (v : value) : data :=
  DMap [("TOHMI_CRC_Handshake"%string, v)].

(* ===================================================================== *)
(** * Further notions: patterns                                           *)
(* ===================================================================== *)

(** The number of placeholders of a template. *)
Fixpoint count_hash (template : string) : nat :=
  match template with
  | EmptyString => O
  | String c rest =>
      if Ascii.eqb c "#" then S (count_hash rest) else count_hash rest
  end.

(** A string of decimal digits; the empty string is one. *)
Fixpoint all_digits (s : string) : bool :=
  match s with
  | EmptyString => true
  | String c rest => is_digit c && all_digits rest
  end.

(** What a group [([0-9]+)] can capture: one digit or more. *)
Definition is_capture (s : string) : Prop :=
  s <> EmptyString /\ all_digits s = true.

(* ===================================================================== *)
(** * Further notions: layouts and registries                             *)
(* ===================================================================== *)

(** Induction on parsed JSON values, through arrays and objects. *)
Section JsonInduction.

Variable P : json -> Prop.
Hypothesis Hnull : P JNull.
Hypothesis Hbool : forall b, P (JBool b).
Hypothesis Hnum : forall n, P (JNum n).
Hypothesis Hstr : forall s, P (JStr s).
Hypothesis Harr : forall items, Forall P items -> P (JArr items).
Hypothesis Hobj : forall fields, Forall (fun kv => P (snd kv)) fields ->
                                 P (JObj fields).

Fixpoint json_induction (j : json) : P j :=
  match j with
  | JNull => Hnull
  | JBool b => Hbool b
  | JNum n => Hnum n
  | JStr s => Hstr s
  | JArr items =>
      Harr items
        ((fix go (l : list json) : Forall P l :=
            match l with
            | [] => @List.Forall_nil _ P
            | x :: rest =>
                @List.Forall_cons _ P x rest (json_induction x) (go rest)
            end) items)
  | JObj fields =>
      Hobj fields
        ((fix go (l : list (string * json))
            : Forall (fun kv => P (snd kv)) l :=
            match l with
            | [] => @List.Forall_nil _ _
            | kv :: rest =>
                @List.Forall_cons _ _ kv rest (json_induction (snd kv)) (go rest)
            end) fields)
  end.

End JsonInduction.

(** What [add] lets into [found]: a non-empty name of the recognized
    shape. *)
Definition collectable (id : string) : Prop :=
  id <> EmptyString /\ TAG_REGEX_test id = true.

(** The invariant of the two locals of [collectConcreteTags]: [seen] holds
    the names of [found], which are collectable and pairwise distinct. *)
Definition collector_ok (a : collector) : Prop :=
  NoDup (map e_tagId (found a)) /\
  (forall id, id ∈ seen a <-> id ∈ map e_tagId (found a)) /\
  Forall (fun e => collectable (e_tagId e)) (found a).

(** A layout on which [collectConcreteTags] reads no property of [null]:
    it is not null itself, and neither is any of its pages nor any section
    of a page. *)
Definition sections_of (p : json) : list json :=
  match member p "sections" with
  | Some sections => array_or sections []
  | None => []
  end.

Definition pages_of (layout : json) : list json :=
  match member layout "pages" with
  | Some pages => array_or pages []
  | None => []
  end.

Definition layout_walkable (layout : json) : Prop :=
  layout <> JNull /\
  Forall (fun p => p <> JNull /\ Forall (fun s => s <> JNull) (sections_of p))
         (pages_of layout).

(** A template table as [loadWidgetsNDJSON] fills it from lines whose
    [tagId] is a string. *)
Definition templates_ok (wm : list (string * obj)) : Prop :=
  Forall (fun kt => exists s, obj_get (snd kt) "tagId" = Some (JStr s)) wm.

(* ===================================================================== *)
(** * Further notions: data sources and reachable states                  *)
(* ===================================================================== *)

(** One tag of a data source: its name, its value, its timestamp. *)
Record sample : Type := Sample {
  sm_tag : string;
  sm_value : value;
  sm_ts : value
}.

(** The names under which [readOne] finds the tag, the value and the
    timestamp of a row. *)
Definition key_alias (k : string) : Prop :=
  k = "tagId"%string \/ k = "name"%string \/ k = "tag"%string \/
  k = "id"%string.

Definition value_alias (k : string) : Prop :=
  k = "value"%string \/ k = "val"%string \/ k = "v"%string.

Definition ts_alias (k : string) : Prop :=
  k = "ts"%string \/ k = "timestamp"%string.

(** A source in its array shape: one row per sample, with the three
    properties under the given names. *)
Definition as_rows (ka va ta : string) (ref : N) (l : list sample) : data :=
  DArray (map (fun s => VObj ref [(ka, VStr (sm_tag s)); (va, sm_value s);
                                  (ta, sm_ts s)]) l).

(** The same source in its object shape: one [{ value, ts }] record per
    tag. *)
Definition as_map (ref : N) (l : list sample) : data :=
  DMap (map (fun s => (sm_tag s,
                       VObj ref [("value"%string, sm_value s);
                                 ("ts"%string, sm_ts s)])) l).

(** The first sample of the list with the given name. *)
Fixpoint first_sample (t : string) (l : list sample) : option sample :=
  match l with
  | [] => None
  | s :: rest => if String.eqb (sm_tag s) t then Some s else first_sample t rest
  end.

(** The adjacent pairs of a list of numbers that differ. *)
Fixpoint changes (prev : Z) (vs : list Z) : nat :=
  match vs with
  | [] => O
  | v :: rest => ((if Z.eqb v prev then 0 else 1) + changes v rest)%nat
  end.

Section Reachable.

Variable StringToNumber : string -> number.
Variable cfg : config.

(** The advancing evaluations of a sequence of worlds, one after the
    other. *)
Definition evaluations (ws : list world) (st : state) : state :=
  fold_left (fun st w => evaluate StringToNumber cfg w st) ws st.

(** What holds of the engine state all along: the set of clients has no
    duplicate; the poll timer is armed as long as a client is registered;
    [lastSent] has entries for tags of the registry only, and no entry has
    a null timestamp. *)
Definition engine_inv (st : state) : Prop :=
  NoDup (sseClients st) /\
  (sseClients st <> [] -> pollTimer st = true) /\
  (forall t p, lastSent st !! t = Some p ->
               t ∈ registry_tags cfg /\ not_null (s_ts p) = true).

End Reachable.

(** The operation is not a connection of client [c]. *)
Definition not_connect (c : Client) (o : op) : Prop :=
  match o with
  | Connect c' _ => c' <> c
  | _ => True
  end.

(** The assignments of one advancing evaluation that read [hbVal] at time
    [now]. *)
Definition beat_effects (beat : bool) (now : Z) (hbVal : value)
  : list effect :=
  (if beat then [SetLastBeatTs now] else []) ++ [SetLastBeatVal hbVal].

(* ===================================================================== *)
(** * Translation of the layout (languages/languageController)            *)
(* ===================================================================== *)

(** A dictionary is the object read from a translation file. A property
    that a dictionary inherits is not a string, and its name has no digit,
    so that a lookup which finds it returns the raw key, as a lookup which
    finds nothing does: lookups read the own properties. The result of a
    translation is the object as [res.json] serializes it, that is, its own
    properties. *)

(** [key.match(/\d+/g) || []]: the maximal runs of digits, from left to
    right; [skip] characters are passed over first. *)
Fixpoint numbers_from (skip : nat) (s : string) : list string :=
  match s with
  | EmptyString => []
  | String c rest =>
      match skip with
      | S n => numbers_from n rest
      | O =>
          if is_digit c
          then take_str (digit_run s) s :: numbers_from (digit_run rest) rest
          else numbers_from O rest
      end
  end.

(** [key.replace(/\d+/g, '#')] *)
Fixpoint generic_from (skip : nat) (s : string) : string :=
  match s with
  | EmptyString => EmptyString
  | String c rest =>
      match skip with
      | S n => generic_from n rest
      | O =>
          if is_digit c
          then String "#" (generic_from (digit_run rest) rest)
          else String c (generic_from O rest)
      end
  end.

(** [s.replace(new RegExp(pat, 'g'), by)] for a pattern [pat] without
    special character, which is not empty, and a replacement without '$':
    the occurrences of [pat] from left to right, none overlapping the one
    before. *)
Fixpoint replace_from (pat by_ : string) (skip : nat) (s : string) : string :=
  match s with
  | EmptyString => EmptyString
  | String c rest =>
      match skip with
      | S n => replace_from pat by_ n rest
      | O =>
          if String.prefix pat s
          then String.append by_
                 (replace_from pat by_ (String.length pat - 1) rest)
          else String c (replace_from pat by_ O rest)
      end
  end.

Definition replace_all (pat by_ s : string) : string :=
  replace_from pat by_ O s.

(** [numbers.forEach((n, i) => { out = out.replace(new RegExp(`#${i + 1}`,
    'g'), n); })], from index [i] on. *)
Fixpoint fill_numbers (i : nat) (numbers : list string) (out : string)
  : string :=
  match numbers with
  | [] => out
  | n :: rest =>
      fill_numbers (S i) rest
        (replace_all (String "#" (pretty (S i))) n out)
  end.

(** [dict[key] ?? dict[generic]] *)
Definition lookup_nullish (dict : obj) (key generic : string) : option json :=
  match obj_get dict key with
  | None | Some JNull => obj_get dict generic
  | found => found
  end.

Definition translateKey (rawKey : json) (dict : obj) : json :=
  match rawKey with
  | JStr raw =>
      if startsWith raw "key_" then
        let key := toLowerCase (drop_str 4 raw) in
        let numbers := numbers_from O key in
        let generic := generic_from O key in
        match lookup_nullish dict key generic with
        | Some (JStr str) => JStr (fill_numbers O numbers str)
        | _ => rawKey
        end
      else rawKey
  | _ => rawKey
  end.

(** [out[k] = v] on an object literal: the name [__proto__] reaches the
    setter of the prototype, and adds no property. *)
Definition assign (out : obj) (k : string) (v : json) : obj :=
  if String.eqb k "__proto__" then out else obj_set out k v.

Fixpoint translateDeep (value : json) (dict : obj) {struct value} : json :=
  match value with
  | JNull => value
  | JStr _ => translateKey value dict
  | JArr items => JArr (map (fun v => translateDeep v dict) items)
  | JObj fields =>
      JObj (fold_left
              (fun out kv => assign out (fst kv) (translateDeep (snd kv) dict))
              fields [])
  | _ => value
  end.

Definition translateLayout (layout : json) (dict : obj) : json :=
  translateDeep layout dict.

(** [translateMeta(metaObj, dict)], for the object [metaObj || {}]. *)
Definition translateMeta (metaObj : obj) (dict : obj) : obj :=
  fold_left (fun out kv => assign out (fst kv) (translateDeep (snd kv) dict))
            metaObj [].

(** A parsed object as the translation meets it: no property name occurs
    twice in an object, and none is [__proto__]. *)
Fixpoint plain (j : json) : Prop :=
  match j with
  | JArr items =>
      (fix all (l : list json) : Prop :=
         match l with
         | [] => True
         | x :: rest => plain x /\ all rest
         end) items
  | JObj fields =>
      NoDup (map fst fields) /\ ("__proto__"%string ∉ map fst fields) /\
      (fix all (l : list (string * json)) : Prop :=
         match l with
         | [] => True
         | kv :: rest => plain (snd kv) /\ all rest
         end) fields
  | _ => True
  end.

(** [b] is [a] where some strings that start with [key_] have been replaced
    by other strings, and nothing else has changed. *)
#[warnings="-register-all"] Inductive translation_of : json -> json -> Prop :=
| tr_same (j : json) : translation_of j j
| tr_key (s t : string) :
    startsWith s "key_" = true -> translation_of (JStr s) (JStr t)
| tr_arr (xs ys : list json) :
    Forall2 translation_of xs ys -> translation_of (JArr xs) (JArr ys)
| tr_obj (fs gs : list (string * json)) :
    Forall2 (fun f g => fst f = fst g /\ translation_of (snd f) (snd g))
            fs gs ->
    translation_of (JObj fs) (JObj gs).

(** The text of a dictionary entry, cut at its placeholders: a stretch
    without '#', or the placeholder of a number of the key. *)
Inductive piece : Type :=
| Text (s : string)
| Slot (i : nat).

Definition written (p : piece) : string :=
  match p with
  | Text s => s
  | Slot i => String "#" (pretty i)
  end.

(** A placeholder is one of [#1] to [#9]. *)
Definition piece_ok (p : piece) : Prop :=
  match p with
  | Text s => count_hash s = O
  | Slot i => (1 <= i <= 9)%nat
  end.

(** What a piece reads as once the numbers from index [i] on are filled
    in: the placeholder [#k] is the [k]-th number of the key, and stays
    when the key has fewer numbers. *)
Definition filled_from (i : nat) (numbers : list string) (p : piece)
  : string :=
  match p with
  | Text s => s
  | Slot k => default (written p) (numbers !! (k - 1 - i)%nat)
  end.

Definition filled (numbers : list string) (p : piece) : string :=
  filled_from O numbers p.

(** The piece once the placeholder [#j] has been replaced by [n]. *)
Definition replaced (j : nat) (n : string) (p : piece) : piece :=
  match p with
  | Slot k => if Nat.eqb k j then Text n else p
  | Text _ => p
  end.

Fixpoint join (ss : list string) : string :=
  match ss with
  | [] => EmptyString
  | s :: rest => String.append s (join rest)
  end.

(* ===================================================================== *)
(** * The handshake generator of the simulator (demo-hmi.js)              *)
(* ===================================================================== *)

(** The locals [hb] and [active] of [startHandshake], the number of
    restarts scheduled with [setTimeout] and not yet run, and the value of
    the handshake tag in the data that [getAllData] returns. *)
Record generator : Type := Generator {
  gen_hb : Z;
  gen_active : bool;
  gen_scheduled : nat;
  gen_value : Z
}.

(** [startHandshake()] up to its first timer. *)
Definition startHandshake : generator := Generator 1 true O 1.

(** The callback of [setInterval]. *)
Definition on_interval (g : generator) : generator :=
  if negb (gen_active g) then g
  else
    let hb := gen_hb g + 1 in
    if Z.gtb hb 300
    then Generator hb false (S (gen_scheduled g)) 300
    else Generator hb true (gen_scheduled g) hb.

(** The callback of [setTimeout]. *)
Definition on_restart (g : generator) : generator :=
  Generator 1 true (Nat.pred (gen_scheduled g)) (gen_value g).

Inductive timer : Type :=
| Interval
| Restart.

(** One timer runs; a restart runs only if one is scheduled. *)
Definition fire (t : timer) (g : generator) : option generator :=
  match t with
  | Interval => Some (on_interval g)
  | Restart =>
      if Nat.eqb (gen_scheduled g) O then None else Some (on_restart g)
  end.

Fixpoint fires (ts : list timer) (g : generator) : option generator :=
  match ts with
  | [] => Some g
  | t :: rest =>
      match fire t g with
      | Some g' => fires rest g'
      | None => None
      end
  end.

(** What holds of the generator between two timers. *)
Definition generator_inv (g : generator) : Prop :=
  if gen_active g
  then 1 <= gen_hb g <= 300 /\ gen_scheduled g = O /\
       (gen_value g = gen_hb g \/ gen_hb g = 1 /\ gen_value g = 300)
  else gen_hb g = 301 /\ gen_scheduled g = 1%nat /\ gen_value g = 300.

(* ===================================================================== *)
(** * Properties of the template resolver                                 *)
(* ===================================================================== *)

Lemma obj_get_set_eq {A} (o : list (string * A)) k v :
  obj_get (obj_set o k v) k = Some v.
Proof.
  induction o as [|[k' v'] o IH]; simpl.
  - by rewrite String.eqb_refl.
  - destruct (String.eqb k' k) eqn:E; simpl; rewrite E; auto.
Qed.

Lemma obj_get_set_ne {A} (o : list (string * A)) k k' v :
  k ≠ k' -> obj_get (obj_set o k v) k' = obj_get o k'.
Proof.
  intros Hne. induction o as [|[k0 v0] o IH]; simpl.
  - destruct (String.eqb k k') eqn:E; [|done].
    apply String.eqb_eq in E. congruence.
  - destruct (String.eqb k0 k) eqn:E; simpl.
    + apply String.eqb_eq in E. subst k0.
      destruct (String.eqb k k') eqn:E'; [|done].
      apply String.eqb_eq in E'. congruence.
    + by rewrite IH.
Qed.

Lemma apply_field_other meta k k' caps :
  k ≠ k' -> obj_get (apply_field meta k caps) k' = obj_get meta k'.
Proof.
  intros Hne. unfold apply_field.
  destruct (obj_get meta k) as [[]|]; auto using obj_get_set_ne.
Qed.

Lemma apply_field_string meta k s caps :
  obj_get meta k = Some (JStr s) ->
  obj_get (apply_field meta k caps) k = Some (JStr (applyCaptures s caps)).
Proof.
  intros H. unfold apply_field. rewrite H. apply obj_get_set_eq.
Qed.

Lemma applyCaptures_nil s : applyCaptures s [] = s.
Proof. unfold applyCaptures. simpl. by rewrite orb_true_r. Qed.

Lemma prefix_hash_cons c s :
  String.prefix "#" (String c s) = Ascii.eqb c "#".
Proof.
  cbn [String.prefix]. destruct (ascii_dec "#" c) as [<-|Hne].
  - by destruct s.
  - symmetry. apply Ascii.eqb_neq. congruence.
Qed.

Lemma replace_hashes_no_hash s caps :
  no_hash s -> replace_hashes s caps = s.
Proof.
  unfold no_hash. induction s as [|c s IH]; [done|].
  cbn [includes]. rewrite prefix_hash_cons.
  intros [Hc Hs]%orb_false_elim. simpl. rewrite Hc. by rewrite IH.
Qed.

Lemma applyCaptures_no_hash s caps : no_hash s -> applyCaptures s caps = s.
Proof.
  intros H. unfold applyCaptures.
  destruct (_ || _)%bool; [done|]. by apply replace_hashes_no_hash.
Qed.

Lemma replace_hashes_app_no_hash s t caps :
  no_hash s ->
  replace_hashes (String.append s t) caps
  = String.append s (replace_hashes t caps).
Proof.
  unfold no_hash. induction s as [|c s IH]; [done|].
  cbn [includes]. rewrite prefix_hash_cons.
  intros [Hc Hs]%orb_false_elim. simpl. rewrite Hc. by rewrite IH.
Qed.

Lemma hd_drop_nth {A} (d : A) k (l : list A) : hd d (drop k l) = nth k l d.
Proof. revert l. induction k; intros [|x l]; simpl; auto. Qed.

Lemma tl_drop {A} k (l : list A) : tl (drop k l) = drop (S k) l.
Proof. revert l. induction k; intros [|x l]; simpl; auto. Qed.

Lemma replace_hashes_fill segs caps k :
  Forall no_hash segs ->
  replace_hashes (join_hash segs) (drop k caps) = fill k segs caps.
Proof.
  intros H. revert k. induction H as [|s segs Hs Hsegs IH]; intros k; [done|].
  destruct segs as [|s' segs].
  - simpl. by apply replace_hashes_no_hash.
  - cbn [join_hash fill]. rewrite replace_hashes_app_no_hash by done.
    cbn [replace_hashes]. rewrite Ascii.eqb_refl.
    by rewrite hd_drop_nth, tl_drop, IH.
Qed.

Lemma applyCaptures_fill segs caps :
  caps ≠ [] -> Forall no_hash segs ->
  applyCaptures (join_hash segs) caps = fill 0 segs caps.
Proof.
  intros Hcaps Hsegs. unfold applyCaptures.
  destruct caps as [|c caps]; [done|].
  destruct (String.eqb (join_hash segs) "") eqn:E; simpl.
  - apply String.eqb_eq in E. rewrite E.
    destruct segs as [|s [|s' segs]]; simpl in *; try done.
    destruct s; discriminate.
  - apply (replace_hashes_fill segs (c :: caps) 0 Hsegs).
Qed.

(** C4, as the code has it: every template with a string [tagId]
    materializes; [tagId] becomes the concrete tag; [label] and [description]
    are each rewritten by [applyCaptures] with the same list of captures, so
    each field starts again at the first capture; a field without
    placeholder is unchanged; with no capture at all every field is left as
    it is, placeholders included; with at least one capture, the [k]-th
    placeholder of a field receives the [k]-th capture and the placeholders
    past the last capture receive the empty string. *)
Theorem materialize_per_field (tpl : obj) (tplId concreteTag : string) :
  obj_get tpl "tagId" = Some (JStr tplId) ->
  let caps := default [] (captureNumbers concreteTag tplId) in
  exists meta,
    materializeTemplate tpl concreteTag = Some meta /\
    obj_get meta "tagId" = Some (JStr concreteTag) /\
    (forall l, obj_get tpl "label" = Some (JStr l) ->
       obj_get meta "label" = Some (JStr (applyCaptures l caps))) /\
    (forall d, obj_get tpl "description" = Some (JStr d) ->
       obj_get meta "description" = Some (JStr (applyCaptures d caps))) /\
    (forall s, no_hash s -> applyCaptures s caps = s) /\
    (caps = [] -> forall s, applyCaptures s caps = s) /\
    (caps ≠ [] -> forall segs, Forall no_hash segs ->
       applyCaptures (join_hash segs) caps = fill 0 segs caps).
Proof.
  intros Htag caps. unfold materializeTemplate. rewrite Htag.
  fold caps. eexists. split; [reflexivity|].
  repeat split.
  - rewrite !apply_field_other by done. apply obj_get_set_eq.
  - intros l Hl. rewrite apply_field_other by done.
    apply apply_field_string. by rewrite obj_get_set_ne.
  - intros d Hd. apply apply_field_string.
    rewrite apply_field_other by done. by rewrite obj_get_set_ne.
  - intros s Hs. by apply applyCaptures_no_hash.
  - intros -> s. apply applyCaptures_nil.
  - intros Hcaps segs Hsegs. by apply applyCaptures_fill.
Qed.

Lemma materialize_per_field_witness :
  exists meta,
    materializeTemplate
      [("tagId", JStr "Feedpoint#_job#"); ("label", JStr "FP # job # of #");
       ("description", JStr "Job # at feedpoint")]
      "Feedpoint2_job7" = Some meta /\
    obj_get meta "label" = Some (JStr "FP 2 job 7 of ") /\
    obj_get meta "description" = Some (JStr "Job 2 at feedpoint").
Proof.
  destruct (materialize_per_field
              [("tagId", JStr "Feedpoint#_job#");
               ("label", JStr "FP # job # of #");
               ("description", JStr "Job # at feedpoint")]
              "Feedpoint#_job#" "Feedpoint2_job7" eq_refl)
    as (meta & Hm & _ & Hl & Hd & _).
  exists meta. split; [exact Hm|]. split.
  - exact (Hl _ eq_refl).
  - exact (Hd _ eq_refl).
Defined.

(** C4 as the specification states it fails on the code: a capture used in
    [label] is used again in [description], and with no capture the
    placeholders stay. *)
Lemma materialize_shared_sequence_fails :
  (captureNumbers "F3_x" "F#_x" = Some ["3"%string] /\
   materializeTemplate
     [("tagId", JStr "F#_x"); ("label", JStr "L #");
      ("description", JStr "D #")] "F3_x"
   <> Some (Materialize_spec
              [("tagId", JStr "F#_x"); ("label", JStr "L #");
               ("description", JStr "D #")] "F3_x" ["3"%string]))
  /\
  (captureNumbers "T_x" "T_x" = Some [] /\
   materializeTemplate [("tagId", JStr "T_x"); ("label", JStr "a#b")] "T_x"
   <> Some (Materialize_spec
              [("tagId", JStr "T_x"); ("label", JStr "a#b")] "T_x" [])).
Proof. repeat split; vm_compute; discriminate. Qed.

Example shared_sequence_values_example :
  materializeTemplate
    [("tagId", JStr "F#_x"); ("label", JStr "L #");
     ("description", JStr "D #")] "F3_x"
  = Some [("tagId", JStr "F3_x"); ("label", JStr "L 3");
          ("description", JStr "D 3")]
  /\ Materialize_spec
       [("tagId", JStr "F#_x"); ("label", JStr "L #");
        ("description", JStr "D #")] "F3_x" ["3"%string]
     = [("tagId", JStr "F3_x"); ("label", JStr "L 3");
        ("description", JStr "D ")]
  /\ materializeTemplate
       [("tagId", JStr "T_x"); ("label", JStr "a#b")] "T_x"
     = Some [("tagId", JStr "T_x"); ("label", JStr "a#b")]
  /\ Materialize_spec [("tagId", JStr "T_x"); ("label", JStr "a#b")] "T_x" []
     = [("tagId", JStr "T_x"); ("label", JStr "ab")].
Proof. repeat split. Qed.

(* ===================================================================== *)
(** * Properties of the registry builder                                  *)
(* ===================================================================== *)

Lemma match_self_no_capture t caps :
  match_tokens (compile t) t = Some caps -> caps = [].
Proof.
  induction t as [|c t IH]; simpl.
  - by intros [= <-].
  - destruct (Ascii.eqb c "#") eqn:E.
    + apply Ascii.eqb_eq in E. subst c. simpl. discriminate.
    + simpl. rewrite Ascii.eqb_refl. exact IH.
Qed.

Lemma materialize_fallback t :
  materializeTemplate (fallback t) t = Some (fallback t).
Proof.
  unfold materializeTemplate, fallback. cbn [obj_get String.eqb Ascii.eqb Bool.eqb].
  assert (default [] (captureNumbers t t) = []) as ->.
  { unfold captureNumbers.
    destruct (match_tokens (compile t) t) eqn:E; [|done].
    simpl. by apply match_self_no_capture in E. }
  unfold apply_field. simpl. by rewrite applyCaptures_nil.
Qed.

Lemma choose_none wm t :
  (forall tplId tpl, (tplId, tpl) ∈ wm -> captureNumbers t tplId = None) ->
  choose wm t = None.
Proof.
  induction wm as [|[tplId tpl] wm IH]; intros H; [done|].
  simpl. rewrite (H tplId tpl) by constructor.
  apply IH. intros id' tpl' Hin. apply (H id' tpl'). by constructor.
Qed.

Lemma register_entry_keeps wm e r r' t m :
  register_entry wm e r = Some r' ->
  metaByTag r !! t = Some m -> metaByTag r' !! t = Some m.
Proof.
  unfold register_entry.
  destruct (materializeTemplate _ _); [|done].
  destruct (metaByTag r !! e_tagId e) eqn:E; intros [= <-] Ht; [done|].
  simpl. rewrite lookup_insert_ne; [done|]. congruence.
Qed.

Lemma register_entry_other wm e r r' t :
  register_entry wm e r = Some r' ->
  e_tagId e ≠ t -> metaByTag r' !! t = metaByTag r !! t.
Proof.
  unfold register_entry.
  destruct (materializeTemplate _ _); [|done].
  destruct (metaByTag r !! e_tagId e) eqn:E; intros [= <-] Ht; [done|].
  simpl. by rewrite lookup_insert_ne.
Qed.

Lemma registry_loop_keeps wm entries r r' t m :
  for_each (register_entry wm) entries r = Some r' ->
  metaByTag r !! t = Some m -> metaByTag r' !! t = Some m.
Proof.
  revert r. induction entries as [|e entries IH]; intros r; simpl.
  - by intros [= <-].
  - destruct (register_entry wm e r) as [r1|] eqn:E; [|done].
    intros Hrest Ht. apply (IH r1 Hrest).
    by eapply register_entry_keeps.
Qed.

Lemma registry_loop_first wm pre e post r r' :
  for_each (register_entry wm) (pre ++ e :: post) r = Some r' ->
  e_tagId e ∉ map e_tagId pre ->
  metaByTag r !! e_tagId e = None ->
  choose wm (e_tagId e) = None ->
  metaByTag r' !! e_tagId e
  = Some (merge_override (fallback (e_tagId e)) (e_override e)).
Proof.
  revert r. induction pre as [|a pre IH]; intros r; simpl.
  - intros Hloop _ Hnew Hchoose.
    destruct (register_entry wm e r) as [r1|] eqn:E; [|done].
    apply (registry_loop_keeps _ _ _ _ _ _ Hloop).
    revert E. unfold register_entry. cbv zeta. rewrite Hchoose.
    change (default (fallback (e_tagId e)) None) with (fallback (e_tagId e)).
    rewrite materialize_fallback, Hnew. intros [= <-]. cbn [metaByTag].
    apply lookup_insert_eq.
  - intros Hloop Hnotin Hnew Hchoose.
    destruct (register_entry wm a r) as [r1|] eqn:E; [|done].
    apply not_elem_of_cons in Hnotin as [Hne Hnotin].
    apply (IH r1 Hloop Hnotin); [|done].
    rewrite (register_entry_other _ _ _ _ _ E); [done|]. congruence.
Qed.

(** C9, as the code has it: a collected tag that no template matches is
    bound to the generic record, with its own name as label, merged with the
    override of the first reference to the tag; without override it is the
    generic record exactly, as for the layout of the example. *)
Theorem registry_fallback_meta (layout : json) (wm : list (string * obj))
  (pre post : list entry) (e : entry) (reg : registry) :
  collectConcreteTags layout = Some (pre ++ e :: post) ->
  e_tagId e ∉ map e_tagId pre ->
  (forall tplId tpl, (tplId, tpl) ∈ wm ->
     captureNumbers (e_tagId e) tplId = None) ->
  buildRegistry layout wm = Some reg ->
  metaByTag reg !! e_tagId e
    = Some (merge_override (fallback (e_tagId e)) (e_override e))
  /\ (e_override e = None ->
      metaByTag reg !! e_tagId e
      = Some [("tagId", JStr (e_tagId e)); ("label", JStr (e_tagId e));
              ("widget", JStr "raw"); ("valueType", JStr "string")])
  /\ (exists reg0,
        buildRegistry example_layout example_templates = Some reg0 /\
        tags reg0 = ["TOHMI_Feedpoint2_currentJob"%string] /\
        metaByTag reg0 !! "TOHMI_Feedpoint2_currentJob"%string
        = Some [("tagId", JStr "TOHMI_Feedpoint2_currentJob");
                ("label", JStr "TOHMI_Feedpoint2_currentJob");
                ("widget", JStr "raw"); ("valueType", JStr "string")]).
Proof.
  intros Hcollect Hfirst Hnomatch Hbuild.
  unfold buildRegistry in Hbuild. rewrite Hcollect in Hbuild.
  assert (metaByTag reg !! e_tagId e
          = Some (merge_override (fallback (e_tagId e)) (e_override e)))
    as Hmeta.
  { apply (registry_loop_first wm pre e post _ _ Hbuild Hfirst).
    - apply lookup_empty.
    - by apply choose_none. }
  split; [exact Hmeta|]. split.
  - intros Hov. rewrite Hmeta, Hov. reflexivity.
  - eexists. split; [vm_compute; reflexivity|]. split; vm_compute; reflexivity.
Qed.

Lemma registry_fallback_meta_witness :
  exists reg,
    buildRegistry example_layout example_templates = Some reg /\
    metaByTag reg !! "TOHMI_Feedpoint2_currentJob"%string
    = Some (fallback "TOHMI_Feedpoint2_currentJob").
Proof.
  destruct (buildRegistry example_layout example_templates) as [reg|] eqn:E;
    [|vm_compute in E; discriminate].
  exists reg. split; [reflexivity|].
  refine (proj1 (registry_fallback_meta example_layout example_templates
            [] [] (Entry "TOHMI_Feedpoint2_currentJob" None) reg
            _ _ _ E)).
  - vm_compute. reflexivity.
  - simpl. apply not_elem_of_nil.
  - intros tplId tpl Hin. apply list_elem_of_singleton in Hin.
    injection Hin as -> ->. vm_compute. reflexivity.
Defined.

(** C9 as the specification states it fails on the code: the tag has no
    matching template, and its metadata is not the generic record. *)
Lemma registry_fallback_override_fails :
  exists reg,
    buildRegistry override_layout [] = Some reg /\
    tags reg = ["TOHMI_Feedpoint2_currentJob"%string] /\
    metaByTag reg !! "TOHMI_Feedpoint2_currentJob"%string
    = Some [("tagId", JStr "TOHMI_Feedpoint2_currentJob");
            ("label", JStr "Job");
            ("widget", JStr "raw"); ("valueType", JStr "string")] /\
    metaByTag reg !! "TOHMI_Feedpoint2_currentJob"%string
    <> Some [("tagId", JStr "TOHMI_Feedpoint2_currentJob");
             ("label", JStr "TOHMI_Feedpoint2_currentJob");
             ("widget", JStr "raw"); ("valueType", JStr "string")].
Proof.
  eexists. split; [vm_compute; reflexivity|].
  split; [vm_compute; reflexivity|].
  split; [vm_compute; reflexivity|].
  vm_compute. discriminate.
Qed.

(* ===================================================================== *)
(** * Properties of the liveness detector                                 *)
(* ===================================================================== *)

Section Liveness.

Variable StringToNumber : string -> number.
Variable cfg : config.

Lemma compute_returns w adv st d s :
  plcData w = Returns d -> allSettings w = Returns s ->
  let hbTag := heartbeat_tag s in
  let hbVal := r_value (readOne d hbTag) in
  let beat := beatDetected StringToNumber hbTag (lastBeatVal st) hbVal in
  let st' := evaluated adv hbTag hbVal (now_plc w) beat st in
  computePlcCommsState StringToNumber cfg w adv st
  = (Ok (Plc (commsOk cfg (lastBeatTs st') (now_plc w)) (now_plc w) hbTag
             (nullish hbVal VNull) (HEARTBEAT_TIMEOUT_MS cfg)), st').
Proof.
  intros Hd Hs. unfold computePlcCommsState, evaluated, bind. rewrite Hd, Hs.
  cbn [call ret get]. destruct adv; [|reflexivity].
  destruct (beatDetected _ _ _ _); reflexivity.
Qed.

Lemma compute_raises w adv st :
  plcData w = Raises \/ (exists d, plcData w = Returns d /\ allSettings w = Raises) ->
  computePlcCommsState StringToNumber cfg w adv st = (Throw, st).
Proof.
  unfold computePlcCommsState, bind.
  intros [-> | (d & -> & ->)]; reflexivity.
Qed.

Lemma includes_nonempty p : includes "" p = true -> p = ""%string.
Proof. simpl. rewrite orb_false_r. by destruct p. Qed.

Lemma heartbeat_tag_named tag p :
  p ≠ ""%string -> includes (toLowerCase tag) p = true ->
  heartbeat_tag (Some tag) = tag.
Proof.
  intros Hp H. unfold heartbeat_tag.
  destruct (String.eqb tag "") eqn:E; [|done].
  apply String.eqb_eq in E. subst tag. by apply includes_nonempty in H.
Qed.

Lemma commsOk_spec beatTs now :
  commsOk cfg beatTs now = true <->
  exists t, beatTs = Some t /\ now - t <= HEARTBEAT_TIMEOUT_MS cfg.
Proof.
  unfold commsOk. destruct beatTs as [t|].
  - rewrite Z.leb_le. split; [eauto|]. by intros (t' & [= <-] & H).
  - split; [done|]. by intros (t' & [=] & _).
Qed.

(** C5: an evaluation whose queries return reports [ok = true] exactly when
    a beat time is recorded and [now - lastBeatTs <= HEARTBEAT_TIMEOUT_MS];
    the window is six poll intervals unless the environment sets it; and
    when the evaluation records no beat, it reports [true] one millisecond
    before the window has elapsed since the last beat, and [false] one
    millisecond after. *)
Theorem liveness_window (w : world) (adv : bool) (st : state) (d : data)
  (s : option string) :
  plcData w = Returns d -> allSettings w = Returns s ->
  exists p st',
    computePlcCommsState StringToNumber cfg w adv st = (Ok p, st') /\
    (plc_ok p = true <->
     exists t, lastBeatTs st' = Some t /\
               now_plc w - t <= HEARTBEAT_TIMEOUT_MS cfg) /\
    (env_HEARTBEAT_TIMEOUT_MS cfg = None ->
     HEARTBEAT_TIMEOUT_MS cfg = 6 * POLL_MS cfg) /\
    (env_HEARTBEAT_TIMEOUT_MS cfg = None -> env_SSE_POLL_MS cfg = None ->
     HEARTBEAT_TIMEOUT_MS cfg = 1500) /\
    (forall t0,
       lastBeatTs st = Some t0 ->
       (adv && beatDetected StringToNumber (heartbeat_tag s) (lastBeatVal st)
                 (r_value (readOne d (heartbeat_tag s))))%bool = false ->
       (now_plc w = t0 + HEARTBEAT_TIMEOUT_MS cfg - 1 -> plc_ok p = true) /\
       (now_plc w = t0 + HEARTBEAT_TIMEOUT_MS cfg -> plc_ok p = true) /\
       (now_plc w = t0 + HEARTBEAT_TIMEOUT_MS cfg + 1 -> plc_ok p = false)).
Proof.
  intros Hd Hs. do 2 eexists. split; [by apply compute_returns|].
  cbn [plc_ok]. split; [apply commsOk_spec|]. split; [|split].
  - unfold HEARTBEAT_TIMEOUT_MS. intros ->. simpl. lia.
  - unfold HEARTBEAT_TIMEOUT_MS, POLL_MS. by intros -> ->.
  - intros t0 Ht0 Hbeat.
    assert (lastBeatTs
              (evaluated adv (heartbeat_tag s)
                 (r_value (readOne d (heartbeat_tag s))) (now_plc w)
                 (beatDetected StringToNumber (heartbeat_tag s)
                    (lastBeatVal st) (r_value (readOne d (heartbeat_tag s))))
                 st) = Some t0) as ->.
    { unfold evaluated. rewrite Hbeat. by destruct adv. }
    unfold commsOk. repeat split; intros ->.
    + apply Z.leb_le. lia.
    + apply Z.leb_le. lia.
    + apply Z.leb_gt. lia.
Qed.

Lemma evaluate_feeds hbTag v w st p :
  p ≠ ""%string -> includes (toLowerCase hbTag) p = true ->
  feeds hbTag v w ->
  evaluate StringToNumber cfg w st
  = evaluated true hbTag v (now_plc w)
      (beatDetected StringToNumber hbTag (lastBeatVal st) v) st.
Proof.
  intros Hp Hinc (d & Hd & Hs & Hv). unfold evaluate.
  rewrite (compute_returns _ _ _ _ _ Hd Hs). cbn [snd].
  rewrite (heartbeat_tag_named _ _ Hp Hinc). by rewrite Hv.
Qed.

Lemma prefix_lower p s :
  String.prefix p s = true ->
  String.prefix (toLowerCase p) (toLowerCase s) = true.
Proof.
  revert s. induction p as [|a p IH]; intros [|b s]; simpl; try done.
  destruct (ascii_dec a b) as [->|]; [|done]. intros H.
  destruct (ascii_dec (lower_ascii b) (lower_ascii b)); [auto|done].
Qed.

Lemma includes_lower s p :
  includes s p = true -> includes (toLowerCase s) (toLowerCase p) = true.
Proof.
  induction s as [|c s IH]; cbn [includes toLowerCase].
  - rewrite !orb_false_r. apply (prefix_lower p "").
  - intros [H|H]%orb_true_iff; apply orb_true_iff.
    + left. apply (prefix_lower p (String c s) H).
    + right. by apply IH.
Qed.

(** A name that contains "heartbeat", or "handshake", as it is written is
    classified as such: the classification lowers the name first. *)
Lemma named_heartbeat tag :
  includes tag "heartbeat" = true ->
  includes (toLowerCase tag) "heartbeat" = true.
Proof. apply (includes_lower tag "heartbeat"). Qed.

Lemma named_handshake tag :
  includes tag "handshake" = true ->
  includes (toLowerCase tag) "handshake" = true.
Proof. apply (includes_lower tag "handshake"). Qed.

Lemma heartbeat_beat hbTag lastVal v :
  includes (toLowerCase hbTag) "heartbeat" = true ->
  beatDetected StringToNumber hbTag lastVal v
  = strict_neq lastVal VUndef && strict_neq v lastVal.
Proof. intros H. unfold beatDetected. by rewrite H. Qed.

(** C6: for a beat tag whose name contains "heartbeat", five advancing
    evaluations fed 0, 0, 1, 1, 0 from a state without previous raw value
    detect a beat at the third and at the fifth evaluation and at no other:
    these two, and only these, assign [lastBeatTs]. *)
Theorem heartbeat_toggle (hbTag : string) (st : state)
  (w1 w2 w3 w4 w5 : world) :
  includes (toLowerCase hbTag) "heartbeat" = true ->
  lastBeatVal st = VUndef ->
  feeds hbTag (VNum (Fin 0)) w1 ->
  feeds hbTag (VNum (Fin 0)) w2 ->
  feeds hbTag (VNum (Fin 1)) w3 ->
  feeds hbTag (VNum (Fin 1)) w4 ->
  feeds hbTag (VNum (Fin 0)) w5 ->
  [ beatDetected StringToNumber hbTag VUndef (VNum (Fin 0));
    beatDetected StringToNumber hbTag (VNum (Fin 0)) (VNum (Fin 0));
    beatDetected StringToNumber hbTag (VNum (Fin 0)) (VNum (Fin 1));
    beatDetected StringToNumber hbTag (VNum (Fin 1)) (VNum (Fin 1));
    beatDetected StringToNumber hbTag (VNum (Fin 1)) (VNum (Fin 0)) ]
  = [false; false; true; false; true]
  /\ history (evaluate StringToNumber cfg w5 (evaluate StringToNumber cfg w4 (evaluate StringToNumber cfg w3
                (evaluate StringToNumber cfg w2 (evaluate StringToNumber cfg w1 st)))))
     = history st ++
       [ SetLastBeatVal (VNum (Fin 0));
         SetLastBeatVal (VNum (Fin 0));
         SetLastBeatTs (now_plc w3); SetLastBeatVal (VNum (Fin 1));
         SetLastBeatVal (VNum (Fin 1));
         SetLastBeatTs (now_plc w5); SetLastBeatVal (VNum (Fin 0)) ]
  /\ lastBeatTs (evaluate StringToNumber cfg w2 (evaluate StringToNumber cfg w1 st)) = lastBeatTs st
  /\ lastBeatTs (evaluate StringToNumber cfg w4 (evaluate StringToNumber cfg w3 (evaluate StringToNumber cfg w2 (evaluate StringToNumber cfg w1 st))))
     = Some (now_plc w3)
  /\ lastBeatTs (evaluate StringToNumber cfg w5 (evaluate StringToNumber cfg w4 (evaluate StringToNumber cfg w3
                   (evaluate StringToNumber cfg w2 (evaluate StringToNumber cfg w1 st)))))
     = Some (now_plc w5).
Proof.
  intros Hhb Hst F1 F2 F3 F4 F5.
  assert ("heartbeat"%string ≠ ""%string) as Hne by done.
  split.
  { by rewrite !(heartbeat_beat _ _ _ Hhb). }
  rewrite (evaluate_feeds _ _ _ _ _ Hne Hhb F5),
          (evaluate_feeds _ _ _ _ _ Hne Hhb F4),
          (evaluate_feeds _ _ _ _ _ Hne Hhb F3),
          (evaluate_feeds _ _ _ _ _ Hne Hhb F2),
          (evaluate_feeds _ _ _ _ _ Hne Hhb F1).
  rewrite !(heartbeat_beat _ _ _ Hhb), Hst.
  cbn. rewrite <- !app_assoc. done.
Qed.


End Liveness.

(* ===================================================================== *)
(** * Broadcasts                                                          *)
(* ===================================================================== *)

Lemma emit_nil st : emit [] st = st.
Proof. destruct st. unfold emit. simpl. by rewrite app_nil_r. Qed.

Lemma emit_emit es1 es2 st : emit es2 (emit es1 st) = emit (es1 ++ es2) st.
Proof. unfold emit. simpl. by rewrite app_assoc. Qed.

Lemma emitted_emit es st : emitted st (emit es st) = es.
Proof. unfold emitted, emit. simpl. by rewrite drop_app_length. Qed.

Lemma healthy_prefix_all w cs :
  all_healthy w cs = true -> healthy_prefix w cs = cs.
Proof.
  induction cs as [|c cs IH]; [done|]. simpl.
  destruct (write_fails w c); [done|]. simpl. intros H. by rewrite IH.
Qed.

Lemma all_healthy_spec w cs :
  all_healthy w cs = true <-> forall c, c ∈ cs -> write_fails w c = false.
Proof.
  unfold all_healthy. rewrite forallb_forall. split.
  - intros H c Hc. apply negb_true_iff, H. by apply list_elem_of_In.
  - intros H c Hc. apply negb_true_iff, H. by apply list_elem_of_In.
Qed.

Lemma healthy_prefix_elem w cs c :
  c ∈ healthy_prefix w cs -> c ∈ cs /\ write_fails w c = false.
Proof.
  induction cs as [|c' cs IH]; simpl; [by intros ?%not_elem_of_nil|].
  destruct (write_fails w c') eqn:E; [by intros ?%not_elem_of_nil|].
  intros [->|H]%elem_of_cons.
  - split; [by left|done].
  - destruct (IH H). split; [by right|done].
Qed.

(** A loop of writes without [try]: it stops at the first write that
    throws. *)
Lemma broadcast_run w e cs st :
  forM cs (fun c => sseWrite w c e) st
  = (if all_healthy w cs then Ok tt else Throw,
     emit (map (fun c => Wrote c e) (healthy_prefix w cs)) st).
Proof.
  revert st. induction cs as [|c cs IH]; intros st; simpl.
  - unfold ret. by rewrite emit_nil.
  - unfold bind, sseWrite at 1. destruct (write_fails w c); simpl.
    + by rewrite emit_nil.
    + rewrite IH. unfold record, emit. simpl. by rewrite <- app_assoc.
Qed.

(** The guarded loop [if (size) for (...) sseWrite(...)]. *)
Lemma guarded_broadcast_run w e (b : bool) cs st :
  when (b && nonempty cs) (forM cs (fun c => sseWrite w c e)) st
  = (if negb b || all_healthy w cs then Ok tt else Throw,
     emit (if b then map (fun c => Wrote c e) (healthy_prefix w cs) else [])
          st).
Proof.
  destruct b; simpl.
  - destruct cs as [|c cs]; [by rewrite emit_nil|].
    cbn [nonempty when]. apply broadcast_run.
  - by rewrite emit_nil.
Qed.

(** The keepalive loop: every write is inside its own [try]. *)
Lemma keepalive_run w cs st :
  forM cs (fun c => try_catch (sseWrite w c (EvHeartbeat (now_keepalive w c))))
       st
  = (Ok tt,
     emit (map (fun c => Wrote c (EvHeartbeat (now_keepalive w c)))
               (filter (fun c => write_fails w c = false) cs)) st).
Proof.
  revert st. induction cs as [|c cs IH]; intros st.
  - simpl. unfold ret. by rewrite emit_nil.
  - cbn [forM]. unfold bind, try_catch at 1. rewrite IH.
    unfold sseWrite. destruct (write_fails w c) eqn:E; cbn [snd].
    + rewrite filter_cons_False; [done | by rewrite E].
    + rewrite filter_cons_True by done.
      unfold record, emit. simpl. by rewrite <- app_assoc.
Qed.

(* ===================================================================== *)
(** * The poll tick and the streaming handler in closed form              *)
(* ===================================================================== *)

Section Closed.

Variable StringToNumber : string -> number.
Variable cfg : config.

Lemma poll_tick_closed w st d :
  pollTimer st = true -> allData w = Returns d ->
  poll_tick StringToNumber cfg w st
  = tick_after_diff StringToNumber cfg w st
      (diff StringToNumber w d (registry_tags cfg) (lastSent st)).
Proof.
  intros Ht Hd. unfold poll_tick, try_catch, poll_body. rewrite Ht.
  unfold bind at 1. rewrite Hd. cbn [call ret].
  unfold bind at 1. cbn [get].
  destruct (diff _ _ _ _ _) as [ls ups]. unfold tick_after_diff. cbn [fst snd].
  unfold bind at 1. cbn [modify].
  unfold bind at 1.
  replace (sseClients st) with (sseClients (set_lastSent ls st)) by done.
  rewrite guarded_broadcast_run. fold (patch_writes w (sseClients (set_lastSent ls st)) ups).
  cbn [sseClients set_lastSent].
  destruct (negb (nonempty ups) || all_healthy w (sseClients st)); [|done].
  unfold tick_liveness, bind at 1.
  destruct (computePlcCommsState _ _ _ _ _) as [[p|] st3]; [|done].
  unfold bind at 1. cbn [get].
  destruct (comms_changed _ _); [|done].
  cbn [when]. unfold bind at 1. cbn [modify].
  change (nonempty (sseClients st3))
    with (true && nonempty (sseClients (set_lastCommsOk (plc_ok p) st3))).
  change (sseClients st3) with (sseClients (set_lastCommsOk (plc_ok p) st3)) at 2.
  rewrite guarded_broadcast_run. done.
Qed.

Lemma poll_tick_off w st :
  pollTimer st = false -> poll_tick StringToNumber cfg w st = st.
Proof. intros H. unfold poll_tick. by rewrite H. Qed.

Lemma poll_tick_raises w st :
  allData w = Raises -> poll_tick StringToNumber cfg w st = st.
Proof.
  intros H. unfold poll_tick, try_catch, poll_body, bind. rewrite H.
  by destruct (pollTimer st).
Qed.

End Closed.

(* ===================================================================== *)
(** * Properties of the diff                                              *)
(* ===================================================================== *)

Section Diff.

Variable StringToNumber : string -> number.
Variable w : world.
Variable d : data.
Variable ls0 : gmap string sent.

Lemma num_ltb_irrefl n : num_ltb n n = false.
Proof. destruct n; simpl; auto using Z.ltb_irrefl. Qed.

Lemma string_ltb_irrefl s : String.ltb s s = false.
Proof.
  unfold String.ltb. pose proof (String.compare_antisym s s) as H.
  by destruct (String.compare s s).
Qed.

Lemma js_gt_irrefl v : js_gt StringToNumber v v = false.
Proof.
  unfold js_gt, js_lt.
  destruct (toPrimitive v); auto using num_ltb_irrefl, string_ltb_irrefl.
Qed.

Lemma diff_snoc l t ls :
  diff StringToNumber w d (l ++ [t]) ls
  = diff_tag StringToNumber w d t (diff StringToNumber w d l ls).
Proof. unfold diff. by rewrite fold_left_app. Qed.

(** One turn of the loop on a tag that is seen for the first time, or
    again. *)
Lemma diff_tag_settles t ls ups :
  ls !! t = ls0 !! t \/ ls !! t = settled StringToNumber w d ls0 t ->
  (diff_tag StringToNumber w d t (ls, ups)).1 !! t = settled StringToNumber w d ls0 t.
Proof.
  unfold diff_tag, settled, newer, sent_ts. intros [Hls | Hls]; rewrite Hls.
  - destruct (valueChanged (ls0 !! t) (readOne d t)) eqn:Hch.
    + cbn [fst]. apply lookup_insert_eq.
    + destruct (ls0 !! t) as [p|] eqn:Hp; [|done]. simpl.
      destruct (not_null _ && js_gt _ _ _); cbn [fst].
      * apply lookup_insert_eq.
      * done.
  - destruct (valueChanged (ls0 !! t) (readOne d t)) eqn:Hch.
    + cbn [valueChanged s_value].
      destruct (strict_neq _ _); cbn [fst].
      * apply lookup_insert_eq.
      * cbn [s_ts].
        destruct (r_ts (readOne d t)) eqn:Hts;
          cbn [nullish not_null andb]; rewrite ?js_gt_irrefl; cbn [fst];
          done.
    + destruct (ls0 !! t) as [p|] eqn:Hp; [|done].
      cbn [valueChanged] in Hch.
      destruct (not_null _ && js_gt _ _ _) eqn:Hnew;
        cbn [fmap option_fmap option_map] in *.
      * cbn [valueChanged s_value s_ts].
        rewrite Hch, js_gt_irrefl, andb_false_r. done.
      * cbn [valueChanged]. rewrite Hch, Hnew. done.
Qed.

Lemma diff_tag_other t t' ls ups :
  t ≠ t' -> (diff_tag StringToNumber w d t (ls, ups)).1 !! t' = ls !! t'.
Proof.
  intros Hne. unfold diff_tag.
  destruct (valueChanged _ _); cbn [fst].
  - by rewrite lookup_insert_ne.
  - destruct (ls !! t) as [p|]; [|done].
    destruct (_ && _); cbn [fst]; [by rewrite lookup_insert_ne|done].
Qed.

(** What one turn of the loop adds to [updates]. *)
Lemma diff_tag_updates t ls ups :
  (diff_tag StringToNumber w d t (ls, ups)).2
  = ups ++ (if valueChanged (ls !! t) (readOne d t)
            then [Update t (r_value (readOne d t)) (sent_ts w d t)] else []).
Proof.
  unfold diff_tag. destruct (valueChanged _ _); [done|].
  rewrite app_nil_r. destruct (ls !! t); [|done]. by destruct (_ && _).
Qed.

(** A tag already settled by the loop is pushed again only if it was pushed
    the first time. *)
Lemma settled_again t :
  valueChanged (settled StringToNumber w d ls0 t) (readOne d t) = true ->
  valueChanged (ls0 !! t) (readOne d t) = true.
Proof.
  unfold settled.
  destruct (valueChanged (ls0 !! t) (readOne d t)) eqn:Hch; [done|].
  destruct (ls0 !! t) as [p|] eqn:Hp; [|done].
  destruct (newer _ _); simpl; simpl in Hch; by rewrite ?Hp, ?Hch.
Qed.

(** The invariant of the loop over its list of tags. *)
Lemma diff_invariant l :
  let r := diff StringToNumber w d l ls0 in
  forall t,
    (t ∈ l -> r.1 !! t = settled StringToNumber w d ls0 t /\
              (t ∈ map u_tagId r.2 <->
               valueChanged (ls0 !! t) (readOne d t) = true)) /\
    (t ∉ l -> r.1 !! t = ls0 !! t /\ t ∉ map u_tagId r.2).
Proof.
  induction l as [|x l IH] using rev_ind; intros r t.
  - split; [by intros ?%not_elem_of_nil|]. intros _. split; [done|].
    apply not_elem_of_nil.
  - subst r. rewrite diff_snoc.
    destruct (diff StringToNumber w d l ls0) as [ls ups] eqn:Hr.
    cbn [fst snd] in IH.
    rewrite diff_tag_updates, map_app, !elem_of_app.
    destruct (decide (x = t)) as [->|Hne].
    + split; [intros _|intros Hn; exfalso; apply Hn; right; constructor].
      destruct (IH t) as [Hin Hout].
      destruct (decide (t ∈ l)) as [Hl|Hl].
      * destruct (Hin Hl) as [Hls Hups]. split.
        { apply diff_tag_settles. by right. }
        rewrite Hls. split.
        -- intros [H|H]; [by apply Hups|].
           destruct (valueChanged (settled StringToNumber w d ls0 t) _) eqn:E;
             [by apply settled_again|by apply not_elem_of_nil in H].
        -- intros H. left. by apply Hups.
      * destruct (Hout Hl) as [Hls Hups]. split.
        { apply diff_tag_settles. by left. }
        rewrite Hls. split.
        -- intros [H|H]; [done|].
           destruct (valueChanged (ls0 !! t) _); [done|].
           by apply not_elem_of_nil in H.
        -- intros ->. right. simpl. by left.
    + rewrite diff_tag_other by done.
      assert (t ∉ map u_tagId
                (if valueChanged (ls !! x) (readOne d x)
                 then [Update x (r_value (readOne d x)) (sent_ts w d x)] else []))
        as Hnot.
      { destruct (valueChanged _ _); simpl.
        - intros Hx%list_elem_of_singleton. congruence.
        - apply not_elem_of_nil. }
      destruct (IH t) as [Hin Hout]. split.
      * intros [Hl|Hx]; [|apply list_elem_of_singleton in Hx; congruence].
        destruct (Hin Hl) as [Hls Hups]. split; [done|]. tauto.
      * intros Hl. assert (t ∉ l) as Hl' by tauto.
        destruct (Hout Hl') as [Hls Hups]. split; [done|]. tauto.
Qed.

(** Every element of [updates] is a tag of the list with the value just
    read. *)
Lemma diff_updates_shape l :
  Forall (fun u => u_tagId u ∈ l /\
                   u = Update (u_tagId u) (r_value (readOne d (u_tagId u)))
                              (sent_ts w d (u_tagId u)))
         (diff StringToNumber w d l ls0).2.
Proof.
  induction l as [|x l IH] using rev_ind; [by constructor|].
  rewrite diff_snoc.
  destruct (diff StringToNumber w d l ls0) as [ls ups].
  rewrite diff_tag_updates. cbn [snd] in IH. apply Forall_app. split.
  - eapply Forall_impl; [exact IH|]. intros u [Hin Hu]. split; [|done].
    apply elem_of_app. by left.
  - destruct (valueChanged _ _); constructor; [|constructor].
    split; [|done]. simpl. apply elem_of_app. right. by left.
Qed.

End Diff.

(* ===================================================================== *)
(** * Properties of the poll tick                                         *)
(* ===================================================================== *)

Lemma advances_app h1 h2 : advances (h1 ++ h2) = (advances h1 + advances h2)%nat.
Proof. induction h1 as [|[] h1 IH]; simpl; auto. Qed.

Lemma stamps_app h1 h2 : stamps (h1 ++ h2) = (stamps h1 + stamps h2)%nat.
Proof. induction h1 as [|[] h1 IH]; simpl; auto. Qed.

Lemma received_app c h1 h2 :
  received c (h1 ++ h2) = received c h1 ++ received c h2.
Proof.
  induction h1 as [|[c' e| |] h1 IH]; simpl; auto.
  destruct (Nat.eqb c' c); simpl; by rewrite IH.
Qed.

Lemma advances_writes {A} (f : A -> Client * event) (l : list A) :
  advances (map (fun x => Wrote (f x).1 (f x).2) l) = O.
Proof. by induction l. Qed.

Lemma stamps_writes {A} (f : A -> Client * event) (l : list A) :
  stamps (map (fun x => Wrote (f x).1 (f x).2) l) = O.
Proof. by induction l. Qed.

Lemma evaluated_history adv hbTag hbVal now beat st :
  history (evaluated adv hbTag hbVal now beat st)
  = history st ++
    (if adv then (if beat then [SetLastBeatTs now] else [])
                 ++ [SetLastBeatVal hbVal]
     else []).
Proof.
  unfold evaluated. destruct adv, beat; simpl;
    rewrite <- ?app_assoc, ?app_nil_r; done.
Qed.

Lemma evaluated_frame adv hbTag hbVal now beat st :
  let st' := evaluated adv hbTag hbVal now beat st in
  sseClients st' = sseClients st /\ lastSent st' = lastSent st /\
  pollTimer st' = pollTimer st /\ lastCommsOk st' = lastCommsOk st.
Proof. unfold evaluated. by destruct adv, beat. Qed.

Section Tick.

Variable StringToNumber : string -> number.
Variable cfg : config.

(** An evaluation either throws and leaves the state as it is, or returns
    and leaves the state [evaluated]. *)
Lemma compute_cases w adv st :
  computePlcCommsState StringToNumber cfg w adv st = (Throw, st)
  \/ exists p hbTag hbVal beat,
       computePlcCommsState StringToNumber cfg w adv st
       = (Ok p, evaluated adv hbTag hbVal (now_plc w) beat st) /\
       plc_ok p
       = commsOk cfg
           (lastBeatTs (evaluated adv hbTag hbVal (now_plc w) beat st))
           (now_plc w).
Proof.
  destruct (plcData w) as [d|] eqn:Hd;
    [|left; apply compute_raises; by left].
  destruct (allSettings w) as [s|] eqn:Hs;
    [|left; apply compute_raises; right; eauto].
  right. do 4 eexists. split; [by apply compute_returns|]. done.
Qed.

Lemma tick_liveness_frame w st2 :
  let st' := tick_liveness StringToNumber cfg w st2 in
  sseClients st' = sseClients st2 /\ lastSent st' = lastSent st2 /\
  pollTimer st' = pollTimer st2 /\
  exists es, history st' = history st2 ++ es /\
             Forall is_liveness_effect es /\
             (advances es <= 1)%nat /\ (stamps es <= 1)%nat.
Proof.
  unfold tick_liveness.
  destruct (compute_cases w true st2) as [-> | (p & hbTag & hbVal & beat & -> & Hok)].
  { repeat split. exists []. rewrite app_nil_r. repeat split; auto. }
  set (st3 := evaluated true hbTag hbVal (now_plc w) beat st2).
  destruct (evaluated_frame true hbTag hbVal (now_plc w) beat st2)
    as (Hc & Hl & Ht & _).
  pose proof (evaluated_history true hbTag hbVal (now_plc w) beat st2) as Hh.
  fold st3 in Hc, Hl, Ht, Hh.
  destruct (comms_changed _ _); cbn [sseClients lastSent pollTimer history
                                     emit set_lastCommsOk];
    (split; [done|]; split; [done|]; split; [done|]); rewrite Hh.
  - eexists. rewrite <- app_assoc. split; [reflexivity|]. split; [|split].
    + apply Forall_app. split.
      * destruct beat; repeat constructor.
      * unfold comms_writes. apply Forall_map, Forall_true. done.
    + rewrite advances_app. unfold comms_writes.
      rewrite (advances_writes (fun c => (c, EvPlcComms p))).
      destruct beat; simpl; lia.
    + rewrite stamps_app. unfold comms_writes.
      rewrite (stamps_writes (fun c => (c, EvPlcComms p))).
      destruct beat; simpl; lia.
  - eexists. split; [reflexivity|].
    destruct beat; simpl; repeat split; repeat constructor.
Qed.

Lemma tick_after_diff_frame w st r :
  let st' := tick_after_diff StringToNumber cfg w st r in
  sseClients st' = sseClients st /\ lastSent st' = r.1 /\
  pollTimer st' = pollTimer st /\
  exists es, history st'
             = history st ++ patch_writes w (sseClients st) r.2 ++ es /\
             Forall is_liveness_effect es /\
             (advances es <= 1)%nat /\ (stamps es <= 1)%nat.
Proof.
  unfold tick_after_diff.
  destruct (negb (nonempty r.2) || all_healthy w (sseClients st)).
  - destruct (tick_liveness_frame w
                (emit (patch_writes w (sseClients st) r.2)
                      (set_lastSent r.1 st)))
      as (Hc & Hl & Ht & es & Hh & Hes).
    repeat split; [done..|]. exists es. split; [|done].
    rewrite Hh. simpl. by rewrite app_assoc.
  - repeat split. exists []. rewrite app_nil_r. repeat split; auto.
Qed.

End Tick.

Section PollDiff.

Variable StringToNumber : string -> number.
Variable cfg : config.

Lemma valueChanged_iff prev cur :
  valueChanged prev cur = true <->
  prev = None \/
  exists p, prev = Some p /\ strict_neq (s_value p) (r_value cur) = true.
Proof.
  destruct prev as [p|]; simpl.
  - split; [eauto|]. by intros [?|(p' & [= <-] & ?)].
  - split; [by left|done].
Qed.

Lemma patch_write_in w cs ups c us :
  Wrote c (EvPatch us) ∈ patch_writes w cs ups ->
  us = ups /\ ups ≠ [] /\ c ∈ cs /\ write_fails w c = false.
Proof.
  unfold patch_writes. destruct ups as [|u ups]; simpl.
  - by intros ?%not_elem_of_nil.
  - intros (c' & [= -> ->] & Hc)%list_elem_of_fmap.
    apply healthy_prefix_elem in Hc as [? ?]. done.
Qed.

Lemma liveness_effect_not_patch es c us :
  Forall is_liveness_effect es -> Wrote c (EvPatch us) ∉ es.
Proof.
  intros Hes Hin. rewrite Forall_forall in Hes. by apply Hes in Hin.
Qed.

Lemma tick_emitted w st d :
  pollTimer st = true -> allData w = Returns d ->
  exists es,
    emitted st (poll_tick StringToNumber cfg w st)
    = patch_writes w (sseClients st)
        (diff StringToNumber w d (registry_tags cfg) (lastSent st)).2 ++ es /\
    Forall is_liveness_effect es /\
    (advances es <= 1)%nat /\ (stamps es <= 1)%nat.
Proof.
  intros Ht Hd. rewrite (poll_tick_closed _ _ _ _ _ Ht Hd).
  destruct (tick_after_diff_frame StringToNumber cfg w st
              (diff StringToNumber w d (registry_tags cfg) (lastSent st)))
    as (_ & _ & _ & es & Hh & Hes).
  exists es. split; [|done]. unfold emitted. rewrite Hh.
  by rewrite drop_app_length.
Qed.

Lemma tick_lastSent w st d :
  pollTimer st = true -> allData w = Returns d ->
  lastSent (poll_tick StringToNumber cfg w st)
  = (diff StringToNumber w d (registry_tags cfg) (lastSent st)).1.
Proof.
  intros Ht Hd. rewrite (poll_tick_closed _ _ _ _ _ Ht Hd).
  apply tick_after_diff_frame.
Qed.

(** The poll timer is never disarmed, and a tick never touches the set of
    clients. *)
Lemma tick_keeps_timer_and_clients w st :
  pollTimer (poll_tick StringToNumber cfg w st) = pollTimer st /\
  sseClients (poll_tick StringToNumber cfg w st) = sseClients st.
Proof.
  destruct (pollTimer st) eqn:Ht; [|by rewrite poll_tick_off].
  destruct (allData w) as [d|] eqn:Hd; [|by rewrite poll_tick_raises].
  rewrite (poll_tick_closed _ _ _ _ _ Ht Hd).
  destruct (tick_after_diff_frame StringToNumber cfg w st
              (diff StringToNumber w d (registry_tags cfg) (lastSent st)))
    as (Hc & _ & Hp & _).
  split; [by rewrite Hp|done].
Qed.

(** C1, as the code has it. In a tick whose snapshot read returns [d]:
    a tag of the registry is in the batch [updates] exactly when its value
    differs ([!==]) from the stored one, a tag without stored entry
    counting as changed; every patch event written by the tick carries that
    batch, and every client receives it when the batch is not empty and no
    write throws; a changed tag is stored with its new value; a tag whose
    value is unchanged and whose source timestamp is strictly newer gets
    the new timestamp stored, keeps its value and is not in the batch; and
    when every value read is strictly equal to itself (no NaN), a second
    tick on the same snapshot has an empty batch and writes no patch. *)
Theorem poll_diff_correct (w : world) (st : state) (d : data) :
  pollTimer st = true -> allData w = Returns d ->
  let tagIds := registry_tags cfg in
  let updates := (diff StringToNumber w d tagIds (lastSent st)).2 in
  let st' := poll_tick StringToNumber cfg w st in
  (forall t, t ∈ tagIds ->
     (t ∈ map u_tagId updates <->
      lastSent st !! t = None \/
      exists p, lastSent st !! t = Some p /\
                strict_neq (s_value p) (r_value (readOne d t)) = true)) /\
  (forall u, u ∈ updates ->
     u_tagId u ∈ tagIds /\ u_value u = r_value (readOne d (u_tagId u))) /\
  (forall c us, Wrote c (EvPatch us) ∈ emitted st st' ->
     us = updates /\ updates ≠ [] /\ c ∈ sseClients st) /\
  ((forall c, c ∈ sseClients st -> write_fails w c = false) ->
   updates ≠ [] ->
   forall c, c ∈ sseClients st -> Wrote c (EvPatch updates) ∈ emitted st st') /\
  (forall t, t ∈ tagIds ->
     valueChanged (lastSent st !! t) (readOne d t) = true ->
     lastSent st' !! t
     = Some (Sent (r_value (readOne d t)) (sent_ts w d t))) /\
  (forall t p, t ∈ tagIds ->
     lastSent st !! t = Some p ->
     strict_neq (s_value p) (r_value (readOne d t)) = false ->
     not_null (r_ts (readOne d t)) = true ->
     js_gt StringToNumber (r_ts (readOne d t)) (s_ts p) = true ->
     lastSent st' !! t = Some (Sent (s_value p) (r_ts (readOne d t))) /\
     t ∉ map u_tagId updates) /\
  (forall w2, allData w2 = Returns d ->
     (forall t, t ∈ tagIds ->
        strict_eq (r_value (readOne d t)) (r_value (readOne d t)) = true) ->
     (diff StringToNumber w2 d tagIds (lastSent st')).2 = [] /\
     forall c us,
       Wrote c (EvPatch us)
       ∉ emitted st' (poll_tick StringToNumber cfg w2 st')).
Proof.
  intros Ht Hd tagIds updates st'.
  pose proof (diff_invariant StringToNumber w d (lastSent st) tagIds) as Hinv.
  cbv zeta in Hinv. fold updates in Hinv.
  pose proof (diff_updates_shape StringToNumber w d (lastSent st) tagIds)
    as Hshape. fold updates in Hshape.
  destruct (tick_emitted w st d Ht Hd) as (es & Hem & Hes & _).
  fold tagIds updates st' in Hem.
  pose proof (tick_lastSent w st d Ht Hd) as Hls. fold tagIds st' in Hls.
  assert (forall t, t ∈ tagIds ->
            lastSent st' !! t = settled StringToNumber w d (lastSent st) t)
    as Hsettled.
  { intros t Hin. rewrite Hls. by apply Hinv. }
  split; [|split; [|split; [|split; [|split; [|split]]]]].
  - intros t Hin. rewrite <- valueChanged_iff. by apply Hinv.
  - intros u Hu. rewrite Forall_forall in Hshape.
    destruct (Hshape u Hu) as [Hin Heq]. split; [done|]. by rewrite Heq at 1.
  - intros c us Hin. rewrite Hem in Hin. apply elem_of_app in Hin as [Hin|Hin].
    + apply patch_write_in in Hin. tauto.
    + by apply liveness_effect_not_patch in Hin.
  - intros Hok Hne c Hc. rewrite Hem. apply elem_of_app. left.
    unfold patch_writes. destruct updates; [done|]. cbn [nonempty].
    rewrite healthy_prefix_all by by apply all_healthy_spec.
    apply list_elem_of_fmap. eauto.
  - intros t Hin Hch. rewrite (Hsettled t Hin). unfold settled.
    by rewrite Hch.
  - intros t p Hin Hp Hsame Hnn Hgt. split.
    + rewrite (Hsettled t Hin). unfold settled, newer. rewrite Hp.
      cbn [valueChanged]. by rewrite Hsame, Hnn, Hgt.
    + intros Hup. destruct (Hinv t) as [Hi _].
      destruct (Hi Hin) as [_ Hiff]. apply Hiff in Hup. rewrite Hp in Hup.
      cbn [valueChanged] in Hup. congruence.
  - intros w2 Hd2 Hself.
    assert (pollTimer st' = true) as Ht'.
    { subst st'. by rewrite (proj1 (tick_keeps_timer_and_clients w st)). }
    assert ((diff StringToNumber w2 d tagIds (lastSent st')).2 = []) as Hempty.
    { pose proof (diff_invariant StringToNumber w2 d (lastSent st') tagIds)
        as Hinv2.
      pose proof (diff_updates_shape StringToNumber w2 d (lastSent st') tagIds)
        as Hshape2.
      cbv zeta in Hinv2.
      destruct (diff StringToNumber w2 d tagIds (lastSent st')).2
        as [|u ups] eqn:E; [done|].
      exfalso. apply Forall_cons in Hshape2 as [[Hin _] _].
      assert (u_tagId u ∈ map u_tagId (u :: ups)) as Hmem by (simpl; by left).
      destruct (Hinv2 (u_tagId u)) as [Hi _].
      destruct (Hi Hin) as [_ Hiff]. apply Hiff in Hmem.
      rewrite (Hsettled _ Hin) in Hmem. revert Hmem.
      unfold settled, newer.
      destruct (valueChanged (lastSent st !! u_tagId u) _) eqn:Hch.
      - cbn [valueChanged s_value]. unfold strict_neq.
        by rewrite (Hself _ Hin).
      - destruct (lastSent st !! u_tagId u) as [p|] eqn:Hp; [|done].
        cbn [valueChanged] in Hch.
        destruct (_ && _); simpl; congruence. }
    split; [done|].
    intros c us Hin.
    destruct (tick_emitted w2 st' d Ht' Hd2) as (es2 & Hem2 & Hes2 & _).
    fold tagIds in Hem2. rewrite Hempty in Hem2.
    rewrite Hem2 in Hin. cbn in Hin.
    by apply liveness_effect_not_patch in Hin.
Qed.

End PollDiff.

(* ===================================================================== *)
(** * The streaming handler in closed form                                *)
(* ===================================================================== *)

Section Subscribe.

Variable StringToNumber : string -> number.
Variable cfg : config.

Lemma hmi_data_closed c w st s :
  opcuaState w = Returns s -> write_fails w c = false ->
  hmi_data StringToNumber cfg c w st = registered c (greeted StringToNumber cfg c w s st).
Proof.
  intros Hs Hw. unfold hmi_data, hmi_data_body.
  unfold bind at 1. rewrite Hs. cbn [call ret].
  unfold bind at 1. unfold sseWrite at 1. rewrite Hw.
  unfold bind at 1. unfold try_catch at 1. unfold greeted, hello_of.
  set (st1 := record _ st).
  assert (forall stx, (st0 <- get ;;
     modify (set_sseClients (add_client c (sseClients st0))) ;;;
     modify set_pollTimer) stx = (Ok tt, registered c stx)) as Hreg by done.
  rewrite Hreg. cbn [snd]. f_equal.
  unfold bind at 1. destruct (allData w) as [d|]; [|done].
  cbn [call ret]. unfold greet_data, initial_patch.
  unfold bind at 1.
  assert (forall es, when (nonempty es) (sseWrite w c (EvPatch es)) st1
          = (Ok tt, emit (map (Wrote c) (if nonempty es then [EvPatch es] else [])) st1))
    as Hpatch.
  { intros [|e es]; simpl; [by rewrite emit_nil|].
    unfold sseWrite. by rewrite Hw. }
  rewrite Hpatch. unfold try_catch, bind.
  destruct (computePlcCommsState _ _ _ _ _) as [[p|] st3]; [|done].
  unfold sseWrite. by rewrite Hw.
Qed.

Lemma hmi_data_aborts c w st :
  opcuaState w = Raises \/ write_fails w c = true ->
  hmi_data StringToNumber cfg c w st = st.
Proof.
  unfold hmi_data, hmi_data_body. intros [H|H].
  - unfold bind at 1. by rewrite H.
  - destruct (opcuaState w); [|done].
    unfold bind at 1. cbn [call ret]. unfold bind at 1, sseWrite at 1.
    by rewrite H.
Qed.

(** The effects of the greeting: the hello, the patch if any, the liveness
    effects, the comms event if the evaluation returned. *)
Lemma greeted_history c w s st :
  exists es,
    history (greeted StringToNumber cfg c w s st)
    = history st ++ [Wrote c (hello_of cfg w s)] ++
      map (Wrote c) (match allData w with
                     | Returns d => initial_patch cfg w d
                     | Raises => []
                     end) ++ es /\
    Forall is_liveness_effect es /\
    (advances es <= 1)%nat /\ (stamps es <= 1)%nat /\
    sseClients (greeted StringToNumber cfg c w s st) = sseClients st /\
    lastSent (greeted StringToNumber cfg c w s st) = lastSent st /\
    pollTimer (greeted StringToNumber cfg c w s st) = pollTimer st.
Proof.
  unfold greeted. destruct (allData w) as [d|].
  2:{ exists []. simpl. repeat split; auto. }
  unfold greet_data.
  set (st2 := emit _ (record _ st)).
  assert (history st2 = history st ++ [Wrote c (hello_of cfg w s)]
                        ++ map (Wrote c) (initial_patch cfg w d)) as Hh2.
  { subst st2. simpl. by rewrite <- app_assoc. }
  destruct (compute_cases StringToNumber cfg w true st2)
    as [-> | (p & hbTag & hbVal & beat & -> & Hok)].
  { exists []. rewrite Hh2, !app_nil_r. repeat split; auto. }
  destruct (evaluated_frame true hbTag hbVal (now_plc w) beat st2)
    as (Hc & Hl & Ht & _).
  eexists. cbn [history record sseClients lastSent pollTimer].
  rewrite evaluated_history, Hh2, Hc, Hl, Ht.
  rewrite <- !app_assoc. split; [reflexivity|].
  destruct beat; simpl; repeat split; repeat constructor.
Qed.

End Subscribe.

(* ===================================================================== *)
(** * Histories of the event loop                                         *)
(* ===================================================================== *)

Lemma writes_no_advance es :
  Forall is_write es -> advances es = O /\ stamps es = O.
Proof. induction 1 as [|[] es He Hes IH]; simpl; try done. Qed.

Lemma patch_writes_are_writes w cs ups : Forall is_write (patch_writes w cs ups).
Proof.
  unfold patch_writes. destruct (nonempty ups); [|constructor].
  apply Forall_map, Forall_true. done.
Qed.

Lemma map_Wrote_are_writes c (l : list event) : Forall is_write (map (Wrote c) l).
Proof. apply Forall_map, Forall_true. done. Qed.

Lemma received_map_Wrote c (l : list event) : received c (map (Wrote c) l) = l.
Proof.
  induction l as [|e l IH]; simpl; [done|]. by rewrite Nat.eqb_refl, IH.
Qed.

Section Loop.

Variable StringToNumber : string -> number.
Variable cfg : config.

Lemma step_history st o :
  exists es,
    history (step StringToNumber cfg st o) = history st ++ es /\
    (advances es <= may_advance o)%nat /\ (stamps es <= may_advance o)%nat.
Proof.
  destruct o as [w|c w|c|w]; cbn [step may_advance].
  - destruct (pollTimer st) eqn:Ht.
    2:{ rewrite poll_tick_off by done. exists []. rewrite app_nil_r.
        simpl. auto. }
    destruct (allData w) as [d|] eqn:Hd.
    2:{ rewrite poll_tick_raises by done. exists []. rewrite app_nil_r.
        simpl. auto. }
    rewrite (poll_tick_closed _ _ _ _ _ Ht Hd).
    destruct (tick_after_diff_frame StringToNumber cfg w st
                (diff StringToNumber w d (registry_tags cfg) (lastSent st)))
      as (_ & _ & _ & es & Hh & _ & Ha & Hs).
    eexists. split; [exact Hh|].
    rewrite advances_app, stamps_app.
    destruct (writes_no_advance _ (patch_writes_are_writes w (sseClients st)
               (diff StringToNumber w d (registry_tags cfg) (lastSent st)).2))
      as [-> ->].
    simpl. auto.
  - destruct (opcuaState w) as [s|] eqn:Hs.
    2:{ rewrite hmi_data_aborts by auto. exists []. rewrite app_nil_r.
        simpl. auto. }
    destruct (write_fails w c) eqn:Hw.
    { rewrite hmi_data_aborts by auto. exists []. rewrite app_nil_r.
      simpl. auto. }
    rewrite (hmi_data_closed _ _ _ _ _ _ Hs Hw).
    destruct (greeted_history StringToNumber cfg c w s st)
      as (es & Hh & _ & Ha & Hst & _).
    eexists. cbn [history registered set_pollTimer set_sseClients].
    split; [exact Hh|].
    rewrite !advances_app, !stamps_app.
    destruct (writes_no_advance _ (map_Wrote_are_writes c
               (match allData w with
                | Returns d => initial_patch cfg w d
                | Raises => []
                end))) as [-> ->].
    simpl. auto.
  - exists []. rewrite app_nil_r. simpl. auto.
  - unfold keepalive. rewrite keepalive_run. cbn [snd emit history].
    eexists. split; [reflexivity|].
    assert (Forall is_write
              (map (fun c => Wrote c (EvHeartbeat (now_keepalive w c)))
                   (filter (fun c => write_fails w c = false) (sseClients st))))
      as Hw by (apply Forall_map, Forall_true; done).
    destruct (writes_no_advance _ Hw) as [-> ->]. auto.
Qed.

Lemma run_history ops st :
  exists es,
    history (run StringToNumber cfg ops st) = history st ++ es /\
    (advances es <= advance_budget ops)%nat /\
    (stamps es <= advance_budget ops)%nat.
Proof.
  revert st. induction ops as [|o ops IH]; intros st.
  - exists []. rewrite app_nil_r. simpl. auto.
  - change (run StringToNumber cfg (o :: ops) st)
      with (run StringToNumber cfg ops (step StringToNumber cfg st o)).
    destruct (step_history st o) as (es1 & H1 & Ha1 & Hs1).
    destruct (IH (step StringToNumber cfg st o)) as (es2 & H2 & Ha2 & Hs2).
    exists (es1 ++ es2). rewrite H2, H1, <- app_assoc.
    split; [done|]. rewrite advances_app, stamps_app.
    cbn [advance_budget]. lia.
Qed.

(** C3, as the code has it: every operation of the event loop assigns
    [lastBeatVal] at most once and [lastBeatTs] at most once, and only poll
    ticks and connections to the streaming endpoint assign them; so over any
    sequence of operations the number of assignments is at most the number
    of ticks plus the number of connections, and between two ticks it is at
    most the number of connections made in between. *)
Theorem liveness_advances_bounded (st : state) (ops : list op) :
  (advances (history (run StringToNumber cfg ops st))
   <= advances (history st) + advance_budget ops)%nat /\
  (stamps (history (run StringToNumber cfg ops st))
   <= stamps (history st) + advance_budget ops)%nat /\
  (forall o,
     (advances (history (step StringToNumber cfg st o))
      <= advances (history st) + may_advance o)%nat /\
     (stamps (history (step StringToNumber cfg st o))
      <= stamps (history st) + may_advance o)%nat) /\
  (forall c w,
     step StringToNumber cfg st (Close c) = on_close c st /\
     advances (history (step StringToNumber cfg st (Close c)))
     = advances (history st) /\
     advances (history (step StringToNumber cfg st (Keepalive w)))
     = advances (history st)).
Proof.
  destruct (run_history ops st) as (es & Hh & Ha & Hs).
  rewrite Hh, advances_app, stamps_app.
  split; [lia|]. split; [lia|]. split.
  - intros o. destruct (step_history st o) as (es1 & H1 & Ha1 & Hs1).
    rewrite H1, advances_app, stamps_app. lia.
  - intros c w. split; [done|]. split; [done|].
    destruct (step_history st (Keepalive w)) as (es1 & H1 & Ha1 & _).
    rewrite H1, advances_app. cbn [may_advance] in Ha1. lia.
Qed.

End Loop.

(* ===================================================================== *)
(** * Failures: a throwing query, a throwing write                        *)
(* ===================================================================== *)

Section Failures.

Variable StringToNumber : string -> number.
Variable cfg : config.

Lemma compute_raises_either w adv st :
  plcData w = Raises \/ allSettings w = Raises ->
  computePlcCommsState StringToNumber cfg w adv st = (Throw, st).
Proof.
  intros H. apply compute_raises.
  destruct (plcData w) as [d|]; [|by left].
  right. exists d. by destruct H.
Qed.

(** C8, as the code has it. No tick disarms the poll timer, whatever
    throws; a tick whose snapshot read throws leaves the whole state as it
    was and writes nothing; a tick whose liveness evaluation throws (its own
    data query, or the settings query) leaves the liveness state as it was
    and writes no comms event, the effects of that tick being the patch
    writes made before. *)
Theorem tick_failure (w : world) (st : state) :
  pollTimer (poll_tick StringToNumber cfg w st) = pollTimer st /\
  (allData w = Raises ->
   poll_tick StringToNumber cfg w st = st /\
   emitted st (poll_tick StringToNumber cfg w st) = []) /\
  (plcData w = Raises \/ allSettings w = Raises ->
   lastBeatTs (poll_tick StringToNumber cfg w st) = lastBeatTs st /\
   lastBeatVal (poll_tick StringToNumber cfg w st) = lastBeatVal st /\
   lastCommsOk (poll_tick StringToNumber cfg w st) = lastCommsOk st /\
   Forall is_patch_write (emitted st (poll_tick StringToNumber cfg w st))).
Proof.
  split; [apply tick_keeps_timer_and_clients|]. split.
  - intros H. rewrite poll_tick_raises by done. split; [done|].
    unfold emitted. apply drop_all.
  - intros H.
    assert (Forall is_patch_write (emitted st st)) as Hnone.
    { unfold emitted. rewrite drop_all. constructor. }
    destruct (pollTimer st) eqn:Ht; [|by rewrite poll_tick_off].
    destruct (allData w) as [d|] eqn:Hd; [|by rewrite poll_tick_raises].
    rewrite (poll_tick_closed _ _ _ _ _ Ht Hd). unfold tick_after_diff.
    set (r := diff StringToNumber w d (registry_tags cfg) (lastSent st)).
    assert (tick_liveness StringToNumber cfg w
              (emit (patch_writes w (sseClients st) r.2) (set_lastSent r.1 st))
            = emit (patch_writes w (sseClients st) r.2) (set_lastSent r.1 st))
      as ->.
    { unfold tick_liveness. by rewrite compute_raises_either. }
    assert (emitted st (emit (patch_writes w (sseClients st) r.2)
                             (set_lastSent r.1 st))
            = patch_writes w (sseClients st) r.2) as Hem.
    { unfold emitted. simpl. by rewrite drop_app_length. }
    destruct (_ || _); rewrite Hem; (repeat split; [done..|]);
      unfold patch_writes; destruct (nonempty r.2); try constructor;
      apply Forall_map, Forall_true; done.
Qed.

(** C2, as the code has it. In a keepalive broadcast every registered
    client whose own write does not throw is written the event, whichever
    other writes throw, and nobody else is written anything; no broadcast
    takes a client out of the set of clients: the keepalive and the poll
    tick leave the set as it is, and a client leaves it by the close of its
    connection. *)
Theorem keepalive_isolation (w : world) (st : state) :
  (forall c, c ∈ sseClients st -> write_fails w c = false ->
     Wrote c (EvHeartbeat (now_keepalive w c))
     ∈ emitted st (keepalive w st)) /\
  (forall c e, Wrote c e ∈ emitted st (keepalive w st) ->
     c ∈ sseClients st /\ write_fails w c = false /\
     e = EvHeartbeat (now_keepalive w c)) /\
  sseClients (keepalive w st) = sseClients st /\
  sseClients (poll_tick StringToNumber cfg w st) = sseClients st /\
  (forall c c', c' ∈ sseClients (on_close c st) <->
                c' ∈ sseClients st /\ c' ≠ c).
Proof.
  unfold keepalive. rewrite keepalive_run. cbn [snd]. rewrite emitted_emit.
  split; [|split; [|split; [|split]]].
  - intros c Hc Hw. apply list_elem_of_fmap. exists c. split; [done|].
    by apply list_elem_of_filter.
  - intros c e (c' & [= -> ->] & Hin)%list_elem_of_fmap.
    apply list_elem_of_filter in Hin as [Hw Hin]. done.
  - done.
  - apply tick_keeps_timer_and_clients.
  - intros c c'. unfold on_close. cbn [sseClients set_sseClients].
    rewrite list_elem_of_filter. tauto.
Qed.

End Failures.

(* ===================================================================== *)
(** * Order of the events of a new client                                 *)
(* ===================================================================== *)

Section Greeting.

Variable StringToNumber : string -> number.
Variable cfg : config.

Lemma received_liveness c hbVal now (beat : bool) :
  received c ((if beat then [SetLastBeatTs now] else [])
              ++ [SetLastBeatVal hbVal]) = [].
Proof. by destruct beat. Qed.

Lemma initial_updates_tags w d :
  map u_tagId (initial_updates cfg w d) = registry_tags cfg.
Proof.
  unfold initial_updates, buildSnapshot. rewrite !map_map. simpl.
  apply map_id.
Qed.

Lemma initial_updates_values w d u :
  u ∈ initial_updates cfg w d ->
  u_tagId u ∈ registry_tags cfg /\
  u_value u = r_value (readOne d (u_tagId u)).
Proof.
  unfold initial_updates, buildSnapshot. rewrite map_map.
  intros (t & -> & Hin)%list_elem_of_fmap. done.
Qed.

Lemma initial_patch_tags w d :
  initial_patch cfg w d
  = if nonempty (registry_tags cfg)
    then [EvPatch (initial_updates cfg w d)] else [].
Proof.
  unfold initial_patch. rewrite <- (initial_updates_tags w d).
  by destruct (initial_updates cfg w d).
Qed.

(** What the new client has received when the greeting is over. *)
Lemma greeted_received c w s st :
  received c (history (greeted StringToNumber cfg c w s st))
  = received c (history st) ++ [hello_of cfg w s] ++
    match allData w with
    | Raises => []
    | Returns d =>
        initial_patch cfg w d ++
        match plcData w, allSettings w with
        | Returns pd, Returns ps =>
            [EvPlcComms
               (Plc (commsOk cfg
                       (lastBeatTs (greeted StringToNumber cfg c w s st))
                       (now_plc w))
                    (now_plc w) (heartbeat_tag ps)
                    (nullish (r_value (readOne pd (heartbeat_tag ps))) VNull)
                    (HEARTBEAT_TIMEOUT_MS cfg))]
        | _, _ => []
        end
    end.
Proof.
  unfold greeted. destruct (allData w) as [d|].
  2:{ cbn [history record]. rewrite received_app. simpl.
      by rewrite Nat.eqb_refl. }
  unfold greet_data.
  set (st2 := emit _ (record _ st)).
  assert (received c (history st2)
          = received c (history st) ++ [hello_of cfg w s]
            ++ initial_patch cfg w d) as Hh2.
  { subst st2. cbn [history emit record].
    rewrite !received_app, received_map_Wrote. simpl.
    by rewrite Nat.eqb_refl, <- app_assoc. }
  destruct (plcData w) as [pd|] eqn:Hpd.
  2:{ rewrite compute_raises_either by auto. by rewrite Hh2, app_nil_r. }
  destruct (allSettings w) as [ps|] eqn:Hps.
  2:{ rewrite compute_raises_either by auto. by rewrite Hh2, app_nil_r. }
  rewrite (compute_returns _ _ _ _ _ _ _ Hpd Hps).
  cbn [history record lastBeatTs].
  rewrite received_app, evaluated_history, received_app, received_liveness, Hh2.
  simpl. rewrite Nat.eqb_refl, app_nil_r, <- !app_assoc. done.
Qed.

(** C7, as the code has it. When the status query returns and the writes to
    the new client go through, the client is registered, the poll timer is
    armed, and what the client has received at that point is, after what its
    response object had received before: the hello event; then, if the data
    query returned and the registry is not empty, one patch with one entry
    per tag of the registry, in the order of the registry, each with the
    value read for its tag; then, if the liveness evaluation returned, one
    comms event whose [ok] is the liveness of the state just left. If the
    data query throws there is no patch and no comms event; if the registry
    is empty there is no patch. Whatever a later operation writes to the
    client comes after these events. *)
Theorem subscription_order (c : Client) (w : world) (st : state)
  (s : option string) (ops : list op) :
  opcuaState w = Returns s -> write_fails w c = false ->
  let st1 := hmi_data StringToNumber cfg c w st in
  c ∈ sseClients st1 /\ pollTimer st1 = true /\
  exists patch comms later,
    received c (history st1)
    = received c (history st) ++ [hello_of cfg w s] ++ patch ++ comms /\
    received c (history (run StringToNumber cfg ops st1))
    = received c (history st1) ++ later /\
    (allData w = Raises -> patch = [] /\ comms = []) /\
    (forall d, allData w = Returns d ->
       patch = (if nonempty (registry_tags cfg)
                then [EvPatch (initial_updates cfg w d)] else []) /\
       map u_tagId (initial_updates cfg w d) = registry_tags cfg /\
       (forall u, u ∈ initial_updates cfg w d ->
          u_value u = r_value (readOne d (u_tagId u))) /\
       (plcData w = Raises \/ allSettings w = Raises -> comms = []) /\
       (forall pd ps, plcData w = Returns pd -> allSettings w = Returns ps ->
          exists p, comms = [EvPlcComms p] /\
                    plc_ts p = now_plc w /\
                    plc_ok p = commsOk cfg (lastBeatTs st1) (now_plc w))).
Proof.
  intros Hs Hw st1. subst st1. rewrite (hmi_data_closed _ _ _ _ _ _ Hs Hw).
  destruct (run_history StringToNumber cfg ops
              (registered c (greeted StringToNumber cfg c w s st)))
    as (later & Hlater & _).
  split; [|split].
  - unfold registered, add_client. cbn [sseClients set_pollTimer set_sseClients].
    case_bool_decide; [done|]. apply elem_of_app. right. constructor.
  - done.
  - rewrite Hlater, received_app.
    cbn [history registered set_pollTimer set_sseClients lastBeatTs].
    rewrite greeted_received.
    destruct (allData w) as [d|] eqn:Hd.
    + exists (initial_patch cfg w d). eexists. exists (received c later).
      split; [reflexivity|]. split; [done|]. split; [done|].
      intros d' [= <-]. split; [apply initial_patch_tags|].
      split; [apply initial_updates_tags|]. split.
      { intros u Hu. by apply initial_updates_values in Hu as [_ ?]. }
      split.
      * intros [-> | Hr]; [done|]. destruct (plcData w); [|done].
        by rewrite Hr.
      * intros pd ps -> ->. eexists. split; [reflexivity|]. done.
    + exists [], [], (received c later). rewrite app_nil_r.
      split; [done|]. split; [done|]. split; [done|]. done.
Qed.

End Greeting.

(* ===================================================================== *)
(** * Concrete runs                                                       *)
(* ===================================================================== *)

(** C1 as the specification states it fails on the code: a tag whose value
    is NaN is in the batch of every tick, so the second of two ticks on the
    same snapshot writes a patch that is not empty. *)
Lemma repeated_snapshot_nan_fails :
  let w := calm (pe1 (VNum NaN)) None 1000 in
  let st1 := run decimal demo_cfg [Connect 1 w; Tick w] initial_state in
  lastSent st1 !! "TOHMI_PE1"%string
    = Some (Sent (VNum NaN) (VNum (Fin 1000))) /\
  (diff decimal w (pe1 (VNum NaN)) (registry_tags demo_cfg) (lastSent st1)).2
    = [Update "TOHMI_PE1" (VNum NaN) (VNum (Fin 1000))] /\
  Wrote 1%nat (EvPatch [Update "TOHMI_PE1" (VNum NaN) (VNum (Fin 1000))])
    ∈ emitted st1 (poll_tick decimal demo_cfg w st1).
Proof.
  cbv zeta. split; [vm_compute; reflexivity|].
  split; [vm_compute; reflexivity|].
  assert (emitted
            (run decimal demo_cfg
               [Connect 1%nat (calm (pe1 (VNum NaN)) None 1000);
                Tick (calm (pe1 (VNum NaN)) None 1000)] initial_state)
            (poll_tick decimal demo_cfg (calm (pe1 (VNum NaN)) None 1000)
               (run decimal demo_cfg
                  [Connect 1%nat (calm (pe1 (VNum NaN)) None 1000);
                   Tick (calm (pe1 (VNum NaN)) None 1000)] initial_state))
          = [Wrote 1%nat
               (EvPatch [Update "TOHMI_PE1" (VNum NaN) (VNum (Fin 1000))]);
             SetLastBeatVal VNull]) as ->
    by (vm_compute; reflexivity).
  constructor.
Qed.

Lemma poll_diff_correct_witness :
  let w := calm (pe1 (VNum (Fin 7))) None 1000 in
  let st := hmi_data decimal demo_cfg 1%nat w initial_state in
  pollTimer st = true /\
  ("TOHMI_PE1"%string
     ∈ map u_tagId
         (diff decimal w (pe1 (VNum (Fin 7))) (registry_tags demo_cfg)
               (lastSent st)).2 <->
   lastSent st !! "TOHMI_PE1"%string = None \/
   exists p, lastSent st !! "TOHMI_PE1"%string = Some p /\
             strict_neq (s_value p)
               (r_value (readOne (pe1 (VNum (Fin 7))) "TOHMI_PE1")) = true).
Proof.
  cbv zeta. split; [reflexivity|].
  refine (proj1 (poll_diff_correct decimal demo_cfg
            (calm (pe1 (VNum (Fin 7))) None 1000)
            (hmi_data decimal demo_cfg 1%nat
               (calm (pe1 (VNum (Fin 7))) None 1000) initial_state)
            (pe1 (VNum (Fin 7))) eq_refl eq_refl) "TOHMI_PE1"%string _).
  simpl. constructor.
Defined.

Lemma liveness_window_witness :
  exists p st',
    computePlcCommsState decimal demo_cfg
      (calm (handshake (VNum (Fin 4))) None 2499) true beaten = (Ok p, st') /\
    plc_ok p = true /\
    HEARTBEAT_TIMEOUT_MS demo_cfg = 6 * POLL_MS demo_cfg.
Proof.
  destruct (liveness_window decimal demo_cfg
              (calm (handshake (VNum (Fin 4))) None 2499) true beaten
              (handshake (VNum (Fin 4))) None eq_refl eq_refl)
    as (p & st' & Hrun & _ & Hdefault & _ & Hedge).
  exists p, st'. split; [exact Hrun|]. split.
  - exact (proj1 (Hedge 1000 eq_refl eq_refl) eq_refl).
  - exact (Hdefault eq_refl).
Defined.

Example window_edges_example :
  map (fun now =>
         match (computePlcCommsState decimal demo_cfg
                  (calm (handshake (VNum (Fin 4))) None now) true beaten).1
         with
         | Ok p => Some (plc_ok p)
         | Throw => None
         end)
      [2499; 2500; 2501]
  = [Some true; Some true; Some false].
Proof. reflexivity. Qed.

Lemma heartbeat_toggle_witness :
  let feed v now := calm (DMap [("PLC_Heartbeat"%string, VNum (Fin v))])
                         (Some "PLC_Heartbeat"%string) now in
  history (evaluate decimal demo_cfg (feed 0 50)
            (evaluate decimal demo_cfg (feed 1 40)
              (evaluate decimal demo_cfg (feed 1 30)
                (evaluate decimal demo_cfg (feed 0 20)
                  (evaluate decimal demo_cfg (feed 0 10) initial_state)))))
  = [ SetLastBeatVal (VNum (Fin 0)); SetLastBeatVal (VNum (Fin 0));
      SetLastBeatTs 30; SetLastBeatVal (VNum (Fin 1));
      SetLastBeatVal (VNum (Fin 1));
      SetLastBeatTs 50; SetLastBeatVal (VNum (Fin 0)) ].
Proof.
  cbv zeta.
  refine (proj1 (proj2 (heartbeat_toggle decimal demo_cfg "PLC_Heartbeat"
            initial_state _ _ _ _ _ eq_refl eq_refl _ _ _ _ _)));
    eexists; repeat split; reflexivity.
Defined.



Lemma tick_failure_witness :
  poll_tick decimal demo_cfg (data_down 2000)
    (hmi_data decimal demo_cfg 1%nat (calm (pe1 (VNum (Fin 7))) None 1000)
       initial_state)
  = hmi_data decimal demo_cfg 1%nat (calm (pe1 (VNum (Fin 7))) None 1000)
      initial_state
  /\ lastCommsOk
       (poll_tick decimal demo_cfg (plc_down (pe1 (VNum (Fin 8))) 2000)
          (hmi_data decimal demo_cfg 1%nat
             (calm (pe1 (VNum (Fin 7))) None 1000) initial_state))
     = None.
Proof.
  split.
  - exact (proj1 (proj1 (proj2 (tick_failure decimal demo_cfg (data_down 2000)
             (hmi_data decimal demo_cfg 1%nat
                (calm (pe1 (VNum (Fin 7))) None 1000) initial_state)))
             eq_refl)).
  - exact (proj1 (proj2 (proj2 (proj2 (proj2 (tick_failure decimal demo_cfg
             (plc_down (pe1 (VNum (Fin 8))) 2000)
             (hmi_data decimal demo_cfg 1%nat
                (calm (pe1 (VNum (Fin 7))) None 1000) initial_state)))
             (or_introl eq_refl))))).
Defined.

(** C8 as the specification states it fails on the code: the data query
    throws during the tick, in the liveness evaluation, and the tick has
    stored the new value and written a patch to the client. *)
Lemma tick_not_atomic :
  let st := hmi_data decimal demo_cfg 1%nat
              (calm (pe1 (VNum (Fin 7))) None 1000) initial_state in
  let w := plc_down (pe1 (VNum (Fin 8))) 2000 in
  plcData w = Raises /\
  lastSent st !! "TOHMI_PE1"%string = None /\
  lastSent (poll_tick decimal demo_cfg w st) !! "TOHMI_PE1"%string
    = Some (Sent (VNum (Fin 8)) (VNum (Fin 2000))) /\
  emitted st (poll_tick decimal demo_cfg w st)
    = [Wrote 1%nat
         (EvPatch [Update "TOHMI_PE1" (VNum (Fin 8)) (VNum (Fin 2000))])].
Proof. cbv zeta. repeat split; vm_compute; reflexivity. Qed.

Lemma keepalive_isolation_witness :
  let st := run decimal demo_cfg
              [Connect 1 (calm (pe1 (VNum (Fin 7))) None 1000);
               Connect 2 (calm (pe1 (VNum (Fin 7))) None 1100)]
              initial_state in
  Wrote 2%nat (EvHeartbeat 3000)
    ∈ emitted st (keepalive (broken 1 (pe1 (VNum (Fin 7))) 3000) st).
Proof.
  cbv zeta.
  refine (proj1 (keepalive_isolation decimal demo_cfg
            (broken 1 (pe1 (VNum (Fin 7))) 3000) _) 2%nat _ eq_refl).
  vm_compute. right. left.
Defined.

(** C2 as the specification states it fails on the code: in a poll tick the
    write to the first client throws; the second client, whose write would
    go through, is written nothing although the batch is not empty, and the
    first client is still registered. *)
Lemma patch_broadcast_not_isolated :
  let st := run decimal demo_cfg
              [Connect 1 (calm (pe1 (VNum (Fin 7))) None 1000);
               Connect 2 (calm (pe1 (VNum (Fin 7))) None 1100)]
              initial_state in
  let w := broken 1 (pe1 (VNum (Fin 8))) 2000 in
  sseClients st = [1; 2]%nat /\
  write_fails w 2%nat = false /\
  (diff decimal w (pe1 (VNum (Fin 8))) (registry_tags demo_cfg)
        (lastSent st)).2
    = [Update "TOHMI_PE1" (VNum (Fin 8)) (VNum (Fin 2000))] /\
  emitted st (poll_tick decimal demo_cfg w st) = [] /\
  sseClients (poll_tick decimal demo_cfg w st) = [1; 2]%nat /\
  sseClients (keepalive w (poll_tick decimal demo_cfg w st)) = [1; 2]%nat.
Proof. cbv zeta. repeat split; vm_compute; reflexivity. Qed.

(** C3 as the specification states it fails on the code: two clients
    connect between two ticks, and each connection assigns [lastBeatVal]. *)
Lemma two_connections_between_ticks :
  let st := run decimal demo_cfg
              [Connect 1 (calm (handshake (VNum (Fin 1))) None 1000);
               Tick (calm (handshake (VNum (Fin 1))) None 1250)]
              initial_state in
  let between := [Connect 2 (calm (handshake (VNum (Fin 2))) None 1300);
                  Connect 3 (calm (handshake (VNum (Fin 3))) None 1400)] in
  emitted st (run decimal demo_cfg between st)
  = [ Wrote 2%nat (EvHello 1300 "connected" 250);
      Wrote 2%nat (EvPatch [Update "TOHMI_PE1" VNull (VNum (Fin 1300))]);
      SetLastBeatTs 1300; SetLastBeatVal (VNum (Fin 2));
      Wrote 2%nat (EvPlcComms (Plc true 1300 "TOHMI_CRC_Handshake"
                                   (VNum (Fin 2)) 1500));
      Wrote 3%nat (EvHello 1400 "connected" 250);
      Wrote 3%nat (EvPatch [Update "TOHMI_PE1" VNull (VNum (Fin 1400))]);
      SetLastBeatTs 1400; SetLastBeatVal (VNum (Fin 3));
      Wrote 3%nat (EvPlcComms (Plc true 1400 "TOHMI_CRC_Handshake"
                                   (VNum (Fin 3)) 1500)) ] /\
  advances (history (run decimal demo_cfg between st))
  = (advances (history st) + 2)%nat.
Proof. cbv zeta. split; vm_compute; reflexivity. Qed.

Lemma subscription_order_witness :
  exists patch comms,
    received 1%nat
      (history (hmi_data decimal demo_cfg 1%nat
                  (calm (pe1 (VNum (Fin 7))) None 1000) initial_state))
    = [EvHello 1000 "connected" 250] ++ patch ++ comms /\
    patch = [EvPatch [Update "TOHMI_PE1" (VNum (Fin 7)) (VNum (Fin 1000))]] /\
    exists p, comms = [EvPlcComms p] /\ plc_ok p = true.
Proof.
  destruct (subscription_order decimal demo_cfg 1%nat
              (calm (pe1 (VNum (Fin 7))) None 1000) initial_state
              (Some "connected"%string) [] eq_refl eq_refl)
    as (_ & _ & patch & comms & later & Hrecv & _ & _ & Hdata).
  destruct (Hdata (pe1 (VNum (Fin 7))) eq_refl)
    as (Hpatch & _ & _ & _ & Hcomms).
  destruct (Hcomms (pe1 (VNum (Fin 7))) None eq_refl eq_refl)
    as (p & Hp & _ & Hok).
  exists patch, comms. split; [exact Hrecv|]. split; [exact Hpatch|].
  exists p. split; [exact Hp|]. rewrite Hok. reflexivity.
Defined.

Example greeting_events_example :
  received 1%nat
    (history (hmi_data decimal demo_cfg 1%nat
                (calm (pe1 (VNum (Fin 7))) None 1000) initial_state))
  = [ EvHello 1000 "connected" 250;
      EvPatch [Update "TOHMI_PE1" (VNum (Fin 7)) (VNum (Fin 1000))];
      EvPlcComms (Plc true 1000 "TOHMI_CRC_Handshake" VNull 1500) ].
Proof. reflexivity. Qed.

(** C7 as the specification states it fails on the code: with an empty
    registry the client receives no patch, and when the data query throws it
    receives neither patch nor comms event. *)
Lemma greeting_without_patch :
  received 1%nat
    (history (hmi_data decimal empty_cfg 1%nat
                (calm (pe1 (VNum (Fin 7))) None 1000) initial_state))
  = [ EvHello 1000 "connected" 250;
      EvPlcComms (Plc true 1000 "TOHMI_CRC_Handshake" VNull 1500) ] /\
  received 1%nat
    (history (hmi_data decimal demo_cfg 1%nat (data_down 1000) initial_state))
  = [ EvHello 1000 "unknown" 250 ].
Proof. split; vm_compute; reflexivity. Qed.
(* ===================================================================== *)
(** * More on the template resolver                                       *)
(* ===================================================================== *)

Lemma take_drop_str n s : String.append (take_str n s) (drop_str n s) = s.
Proof.
  revert s. induction n as [|n IH]; intros [|c s]; try reflexivity.
  cbn [take_str drop_str]. change (String.append (String c (take_str n s)) (drop_str n s))
    with (String c (String.append (take_str n s) (drop_str n s))).
  by rewrite IH.
Qed.

Lemma take_str_digits n s :
  (n <= digit_run s)%nat -> all_digits (take_str n s) = true.
Proof.
  revert s. induction n as [|n IH]; intros [|c s];
    cbn [take_str digit_run all_digits]; try done.
  destruct (is_digit c) eqn:E; [|lia]. intros H. cbn [andb].
  apply IH. lia.
Qed.

Lemma take_str_nonempty n s :
  (1 <= n <= digit_run s)%nat -> take_str n s <> EmptyString.
Proof. destruct n, s; cbn [take_str digit_run]; try lia; done. Qed.

Lemma greedy_inv k s n caps :
  greedy k s n = Some caps ->
  exists m rest, (1 <= m <= n)%nat /\ k (drop_str m s) = Some rest /\
                 caps = take_str m s :: rest.
Proof.
  induction n as [|n IH]; [done|]. cbn [greedy].
  destruct (k (drop_str (S n) s)) as [rest|] eqn:E.
  - intros [= <-]. exists (S n), rest. split; [lia|done].
  - intros H. destruct (IH H) as (m & rest & Hm & Hk & ->).
    exists m, rest. split; [lia|done].
Qed.

Lemma greedy_some k s n m :
  (1 <= m <= n)%nat -> is_Some (k (drop_str m s)) -> is_Some (greedy k s n).
Proof.
  induction n as [|n IH]; [lia|]. intros Hm Hk. cbn [greedy].
  destruct (k (drop_str (S n) s)) as [rest|] eqn:E; [done|].
  apply IH; [|done]. destruct (decide (m = S n)) as [->|]; [|lia].
  rewrite E in Hk. by destruct Hk.
Qed.

Lemma match_tokens_sound t s caps :
  match_tokens (compile t) s = Some caps ->
  length caps = count_hash t /\ Forall is_capture caps /\
  replace_hashes t caps = s.
Proof.
  revert s caps. induction t as [|c t IH]; intros s caps; cbn [compile count_hash replace_hashes].
  - destruct s; [|done]. by intros [= <-].
  - destruct (Ascii.eqb c "#") eqn:Ec; cbn [match_tokens].
    + intros (m & rest & Hm & Hk & ->)%greedy_inv.
      destruct (IH _ _ Hk) as (Hlen & Hcaps & Hrep).
      split; [simpl; by rewrite Hlen|]. split.
      * constructor; [|done]. split.
        -- by apply take_str_nonempty.
        -- apply take_str_digits. lia.
      * simpl. rewrite Hrep. apply take_drop_str.
    + destruct s as [|c' s]; [done|].
      destruct (Ascii.eqb c c') eqn:Ecc; [|done].
      apply Ascii.eqb_eq in Ecc. subst c'. intros H.
      destruct (IH _ _ H) as (Hlen & Hcaps & Hrep).
      split; [done|]. split; [done|]. by rewrite Hrep.
Qed.

Lemma digit_run_app cap rest :
  all_digits cap = true -> (String.length cap <= digit_run (String.append cap rest))%nat.
Proof.
  induction cap as [|c cap IH]; [simpl; lia|].
  cbn [all_digits]. intros [Hc H]%andb_true_iff. apply IH in H.
  change (String.append (String c cap) rest)
    with (String c (String.append cap rest)).
  cbn [digit_run String.length]. rewrite Hc. lia.
Qed.

Lemma drop_str_app cap rest :
  drop_str (String.length cap) (String.append cap rest) = rest.
Proof. induction cap as [|c cap IH]; simpl; [by destruct rest|done]. Qed.

Lemma match_tokens_complete t caps :
  length caps = count_hash t -> Forall is_capture caps ->
  is_Some (match_tokens (compile t) (replace_hashes t caps)).
Proof.
  revert caps. induction t as [|c t IH]; intros caps; cbn [compile count_hash replace_hashes].
  - done.
  - destruct (Ascii.eqb c "#") eqn:Ec; cbn [match_tokens].
    + destruct caps as [|cap caps]; [done|]. intros [= Hlen] Hall.
      apply Forall_cons in Hall as [[Hne Hdig] Hall]. simpl.
      apply (greedy_some _ _ _ (String.length cap)).
      * split; [destruct cap; [done|simpl; lia]|by apply digit_run_app].
      * rewrite drop_str_app. by apply IH.
    + intros Hlen Hall. rewrite Ascii.eqb_refl. by apply IH.
Qed.

Lemma replace_hashes_literal t caps :
  count_hash t = O -> replace_hashes t caps = t.
Proof.
  induction t as [|c t IH]; simpl; [done|].
  destruct (Ascii.eqb c "#"); [done|]. intros H. by rewrite IH.
Qed.

(** X1: the captures of a match, put back in the template, give the concrete
    tag: [applyCaptures(template, captureNumbers(concrete, template))] is
    [concrete]; there is one capture per placeholder, and each is a
    non-empty string of digits. *)
Theorem capture_round_trip (concrete template : string) (caps : list string) :
  captureNumbers concrete template = Some caps ->
  applyCaptures template caps = concrete /\
  length caps = count_hash template /\
  Forall is_capture caps.
Proof.
  unfold captureNumbers. intros H.
  destruct (match_tokens_sound _ _ _ H) as (Hlen & Hcaps & Hrep).
  split; [|done]. unfold applyCaptures.
  destruct (String.eqb template "" || Nat.eqb (length caps) 0)%bool eqn:E;
    [|done].
  apply orb_true_iff in E as [E|E].
  - apply String.eqb_eq in E. subst template. simpl in Hrep. done.
  - apply Nat.eqb_eq in E. rewrite <- Hrep. symmetry.
    apply replace_hashes_literal. congruence.
Qed.

Lemma capture_round_trip_witness :
  applyCaptures "Feedpoint#_job#" ["12"; "7"]%string = "Feedpoint12_job7"%string.
Proof.
  exact (proj1 (capture_round_trip "Feedpoint12_job7" "Feedpoint#_job#"
                  ["12"; "7"]%string eq_refl)).
Defined.

(** X2: a concrete tag matches a template exactly when it is the template with
    each placeholder replaced by a non-empty string of digits; a template
    without placeholder matches itself and nothing else. *)
Theorem capture_matches_iff (concrete template : string) :
  (is_Some (captureNumbers concrete template) <->
   exists caps, length caps = count_hash template /\ Forall is_capture caps /\
                replace_hashes template caps = concrete) /\
  (count_hash template = O ->
   captureNumbers concrete template
   = if String.eqb concrete template then Some [] else None).
Proof.
  split.
  - split.
    + intros [caps H]. exists caps. by apply match_tokens_sound.
    + intros (caps & Hlen & Hcaps & <-). by apply match_tokens_complete.
  - intros Hlit. destruct (captureNumbers concrete template) as [caps|] eqn:E.
    + destruct (match_tokens_sound _ _ _ E) as (Hlen & _ & Hrep).
      rewrite replace_hashes_literal in Hrep by done. subst concrete.
      rewrite String.eqb_refl. destruct caps; [done|]. simpl in Hlen. congruence.
    + destruct (String.eqb concrete template) eqn:Eq; [|done].
      apply String.eqb_eq in Eq. subst concrete. exfalso.
      assert (is_Some (captureNumbers template template)) as [? Hs];
        [|congruence].
      unfold captureNumbers.
      rewrite <- (replace_hashes_literal template [] Hlit) at 2.
      apply match_tokens_complete; [by rewrite Hlit|constructor].
Qed.

Lemma capture_matches_iff_witness :
  captureNumbers "TOHMI_PE1" "TOHMI_PE1" = Some [] /\
  captureNumbers "TOHMI_PE2" "TOHMI_PE1" = None.
Proof.
  split.
  - exact (proj2 (capture_matches_iff "TOHMI_PE1" "TOHMI_PE1") eq_refl).
  - exact (proj2 (capture_matches_iff "TOHMI_PE2" "TOHMI_PE1") eq_refl).
Defined.

Lemma obj_set_keys {A} (o : list (string * A)) k v :
  is_Some (obj_get o k) -> map fst (obj_set o k v) = map fst o.
Proof.
  induction o as [|[k' v'] o IH]; simpl; [by intros []|].
  destruct (String.eqb k' k) eqn:E; [done|]. intros H. simpl. by rewrite IH.
Qed.

Lemma apply_field_keys meta k caps :
  map fst (apply_field meta k caps) = map fst meta.
Proof.
  unfold apply_field. destruct (obj_get meta k) as [[]|] eqn:E; try done.
  apply obj_set_keys. by rewrite E.
Qed.

Lemma apply_field_not_string meta k caps :
  (forall s, obj_get meta k <> Some (JStr s)) -> apply_field meta k caps = meta.
Proof.
  intros H. unfold apply_field.
  destruct (obj_get meta k) as [[| | |s| |]|] eqn:E; try done.
  by destruct (H s).
Qed.

(** X3: materializing a template neither adds, removes nor reorders a property:
    the metadata has the property names of the template, in the same
    order; a property other than [tagId], [label] and [description] keeps
    its value, and so does a [label] or [description] that is not a
    string. *)
Theorem materialize_keeps_shape (tpl meta : obj) (concreteTag : string) :
  materializeTemplate tpl concreteTag = Some meta ->
  map fst meta = map fst tpl /\
  (forall k, k <> "tagId"%string -> k <> "label"%string ->
             k <> "description"%string ->
             obj_get meta k = obj_get tpl k) /\
  (forall k, k = "label"%string \/ k = "description"%string ->
             (forall s, obj_get tpl k <> Some (JStr s)) ->
             obj_get meta k = obj_get tpl k).
Proof.
  unfold materializeTemplate.
  destruct (obj_get tpl "tagId") as [[| | |tplId| |]|] eqn:Htag; try done.
  intros [= <-]. split; [|split].
  - rewrite !apply_field_keys. apply obj_set_keys. by rewrite Htag.
  - intros k H1 H2 H3.
    rewrite !apply_field_other by done. by apply obj_get_set_ne.
  - intros k [-> | ->] Hns.
    + rewrite apply_field_other by done.
      rewrite apply_field_not_string; [by apply obj_get_set_ne|].
      intros s. by rewrite obj_get_set_ne.
    + rewrite apply_field_not_string.
      * rewrite apply_field_other by done. by apply obj_get_set_ne.
      * intros s. rewrite apply_field_other by done.
        by rewrite obj_get_set_ne.
Qed.

Lemma materialize_keeps_shape_witness :
  exists meta,
    materializeTemplate
      [("widget", JStr "gauge"); ("tagId", JStr "TOHMI_VFD#_Volt");
       ("label", JStr "VFD # voltage"); ("unit", JStr "V")]
      "TOHMI_VFD2_Volt" = Some meta /\
    map fst meta = ["widget"; "tagId"; "label"; "unit"]%string /\
    obj_get meta "unit" = Some (JStr "V").
Proof.
  eexists. split; [reflexivity|].
  destruct (materialize_keeps_shape
              [("widget", JStr "gauge"); ("tagId", JStr "TOHMI_VFD#_Volt");
               ("label", JStr "VFD # voltage"); ("unit", JStr "V")]
              _ "TOHMI_VFD2_Volt" eq_refl) as (Hkeys & Hother & _).
  split; [exact Hkeys|]. by rewrite Hother.
Defined.

(* ===================================================================== *)
(** * More on the registry builder                                        *)
(* ===================================================================== *)

Lemma add_ok t ov a : collector_ok a -> collector_ok (add t ov a).
Proof.
  intros (Hnd & Hseen & Hall). unfold add.
  destruct (String.eqb t ""); [done|].
  destruct (String.eqb (trim t) "") eqn:Ee; [done|]. cbn [orb].
  destruct (TAG_REGEX_test (trim t)) eqn:Er; [|done]. cbn [negb orb].
  case_bool_decide as Hin; [done|].
  unfold collector_ok. cbn [found seen]. rewrite map_app. cbn [map e_tagId].
  split; [|split].
  - apply NoDup_app. split; [done|]. split; [|apply NoDup_singleton].
    intros id Hid ->%list_elem_of_singleton. by apply Hin, Hseen.
  - intros id. rewrite elem_of_union, elem_of_singleton, elem_of_app,
      list_elem_of_singleton, Hseen. tauto.
  - apply Forall_app. split; [done|]. constructor; [|constructor].
    split; [|done]. cbn [e_tagId]. intros E. by rewrite E in Ee.
Qed.

Lemma fold_left_ok {A} (f : collector -> A -> collector) (l : list A) :
  Forall (fun x => forall a, collector_ok a -> collector_ok (f a x)) l ->
  forall a, collector_ok a -> collector_ok (fold_left f l a).
Proof.
  induction 1 as [|x l Hx Hl IH]; intros a Ha; [done|].
  simpl. by apply IH, Hx.
Qed.

Lemma scan_ok val : forall a, collector_ok a -> collector_ok (scan val a).
Proof.
  induction val as [|b|n|s|items IH|fields IH] using json_induction;
    intros a Ha.
  - done.
  - by destruct b.
  - simpl. by destruct (negb _).
  - simpl. destruct (negb _); [done|].
    destruct (startsWith s "key_"); [done|]. by apply add_ok.
  - cbn [scan json_truthy negb]. by apply fold_left_ok.
  - cbn [scan json_truthy negb]. apply fold_left_ok.
    + eapply Forall_impl; [exact IH|]. intros [k v] Hv a' Ha'. cbn [fst snd].
      destruct (skipped_key k); [done|]. by apply Hv.
    + destruct (obj_get fields "tagId") as [[]|]; try done. by apply add_ok.
Qed.

Lemma for_each_ok {A} (body : A -> collector -> option collector) l :
  (forall x a a', body x a = Some a' -> collector_ok a -> collector_ok a') ->
  forall a a', for_each body l a = Some a' -> collector_ok a -> collector_ok a'.
Proof.
  intros Hbody. induction l as [|x l IH]; intros a a'; simpl.
  - by intros [= <-].
  - destruct (body x a) as [a1|] eqn:E; [|done]. intros H Ha.
    eapply IH; [exact H|]. by eapply Hbody.
Qed.

Lemma scan_section_ok s a a' :
  scan_section s a = Some a' -> collector_ok a -> collector_ok a'.
Proof.
  unfold scan_section.
  destruct (member s "items"); [|done]. destruct (member s "widgets"); [|done].
  intros [= <-] Ha. apply fold_left_ok; [|done].
  apply Forall_forall. intros x _ a0. apply scan_ok.
Qed.

Lemma scan_page_ok p a a' :
  scan_page p a = Some a' -> collector_ok a -> collector_ok a'.
Proof.
  unfold scan_page. destruct (member p "sections"); [|done].
  apply for_each_ok. apply scan_section_ok.
Qed.

Lemma collector_empty_ok : collector_ok (Collector [] ∅).
Proof.
  split; [constructor|]. split; [|constructor].
  intros id. simpl. split; [by intros ?%not_elem_of_empty|by intros ?%not_elem_of_nil].
Qed.

Lemma collect_found_ok layout entries :
  collectConcreteTags layout = Some entries ->
  NoDup (map e_tagId entries) /\
  Forall (fun e => collectable (e_tagId e)) entries.
Proof.
  unfold collectConcreteTags. destruct (member layout "pages"); [|done].
  destruct (for_each scan_page _ _) as [a|] eqn:E; [|done].
  intros [= <-].
  assert (collector_ok a) as (Hnd & _ & Hall).
  { eapply for_each_ok; [apply scan_page_ok|exact E|apply collector_empty_ok]. }
  done.
Qed.

(** X4: the tags collected from a layout are pairwise distinct, and each is a
    non-empty name that starts with one of the recognized prefixes. *)
Theorem collected_tags_distinct (layout : json) (entries : list entry) :
  collectConcreteTags layout = Some entries ->
  NoDup (map e_tagId entries) /\
  Forall (fun e => e_tagId e <> EmptyString /\
                   TAG_REGEX_test (e_tagId e) = true) entries.
Proof. apply collect_found_ok. Qed.

Lemma collected_tags_distinct_witness :
  NoDup (map e_tagId
           [Entry "TOHMI_a" None; Entry "ALARM_2" None]).
Proof.
  refine (proj1 (collected_tags_distinct
            (JObj [("pages", JArr [JObj [("sections", JArr [JObj [("items",
               JArr [JStr "TOHMI_a"; JStr " TOHMI_a "; JStr "ALARM_2";
                     JStr "other"; JStr "TOHMI_a"])]])]])])
            _ _)).
  vm_compute. reflexivity.
Defined.

Lemma register_entry_new wm e r r' :
  register_entry wm e r = Some r' ->
  metaByTag r !! e_tagId e = None ->
  tags r' = tags r ++ [e_tagId e] /\
  exists meta,
    materializeTemplate (default (fallback (e_tagId e)) (choose wm (e_tagId e)))
      (e_tagId e) = Some meta /\
    metaByTag r' = <[e_tagId e := merge_override meta (e_override e)]>
                     (metaByTag r).
Proof.
  unfold register_entry. cbv zeta.
  destruct (materializeTemplate _ _) as [meta|]; [|done].
  intros H Hnew. rewrite Hnew in H. injection H as <-. eauto.
Qed.

Lemma registry_loop_tags wm entries r r' :
  for_each (register_entry wm) entries r = Some r' ->
  NoDup (map e_tagId entries) ->
  (forall e, e ∈ entries -> metaByTag r !! e_tagId e = None) ->
  tags r' = tags r ++ map e_tagId entries /\
  (forall t, is_Some (metaByTag r' !! t) <->
             is_Some (metaByTag r !! t) \/ t ∈ map e_tagId entries).
Proof.
  revert r. induction entries as [|e entries IH]; intros r; simpl.
  - intros [= <-] _ _. rewrite app_nil_r. split; [done|].
    intros t. split; [by left|]. by intros [?|?%not_elem_of_nil].
  - destruct (register_entry wm e r) as [r1|] eqn:E; [|done].
    intros Hloop [Hnotin Hnd]%NoDup_cons Hnew.
    destruct (register_entry_new _ _ _ _ E) as (Htags & meta & _ & Hmeta).
    { apply Hnew. by left. }
    destruct (IH r1 Hloop Hnd) as (Htags' & Hdom).
    { intros e' He'. rewrite Hmeta, lookup_insert_ne.
      - apply Hnew. by right.
      - intros Heq. apply Hnotin. rewrite Heq.
        apply list_elem_of_fmap. eauto. }
    split.
    + by rewrite Htags', Htags, <- app_assoc.
    + intros t. rewrite Hdom, Hmeta, elem_of_cons.
      destruct (decide (e_tagId e = t)) as [->|Hne].
      * rewrite lookup_insert_eq. split; [tauto|]. intros _. left. eauto.
      * rewrite lookup_insert_ne by done. split; [tauto|].
        intros [?|[?|?]]; [tauto|congruence|tauto].
Qed.

(** X5: the registry lists the collected tags in the order of their first
    reference, each once, and holds metadata for these tags and for no
    other name. *)
Theorem registry_tags_and_meta (layout : json) (wm : list (string * obj))
  (entries : list entry) (reg : registry) :
  collectConcreteTags layout = Some entries ->
  buildRegistry layout wm = Some reg ->
  tags reg = map e_tagId entries /\
  NoDup (tags reg) /\
  (forall t, is_Some (metaByTag reg !! t) <-> t ∈ tags reg).
Proof.
  intros Hcollect Hbuild. unfold buildRegistry in Hbuild.
  rewrite Hcollect in Hbuild.
  destruct (collect_found_ok _ _ Hcollect) as [Hnd _].
  destruct (registry_loop_tags _ _ _ _ Hbuild Hnd) as (Htags & Hdom).
  { intros e _. apply lookup_empty. }
  cbn [tags metaByTag] in Htags, Hdom.
  split; [done|]. split; [by rewrite Htags|].
  intros t. rewrite Hdom, Htags, lookup_empty. split; [|tauto].
  intros [[? [=]]|?]; done.
Qed.

Lemma registry_tags_and_meta_witness :
  exists reg,
    buildRegistry example_layout example_templates = Some reg /\
    tags reg = ["TOHMI_Feedpoint2_currentJob"%string] /\
    is_Some (metaByTag reg !! "TOHMI_Feedpoint2_currentJob"%string).
Proof.
  destruct (buildRegistry example_layout example_templates) as [reg|] eqn:E;
    [|vm_compute in E; discriminate].
  exists reg. split; [reflexivity|].
  destruct (registry_tags_and_meta example_layout example_templates
              [Entry "TOHMI_Feedpoint2_currentJob" None] reg eq_refl E)
    as (Htags & _ & Hdom).
  split; [exact Htags|]. apply Hdom. rewrite Htags. left.
Defined.


Lemma choose_first pre tplId tpl post t :
  (forall id x, (id, x) ∈ pre -> captureNumbers t id = None) ->
  is_Some (captureNumbers t tplId) ->
  choose (pre ++ (tplId, tpl) :: post) t = Some tpl.
Proof.
  intros Hpre [caps Hm]. induction pre as [|[id x] pre IH]; simpl.
  - by rewrite Hm.
  - rewrite (Hpre id x) by constructor. apply IH.
    intros id' x' Hin. apply (Hpre id' x'). by constructor.
Qed.

Lemma registry_loop_chosen wm pre e post r r' :
  for_each (register_entry wm) (pre ++ e :: post) r = Some r' ->
  e_tagId e ∉ map e_tagId pre ->
  metaByTag r !! e_tagId e = None ->
  exists meta,
    materializeTemplate (default (fallback (e_tagId e)) (choose wm (e_tagId e)))
      (e_tagId e) = Some meta /\
    metaByTag r' !! e_tagId e = Some (merge_override meta (e_override e)).
Proof.
  revert r. induction pre as [|a pre IH]; intros r; simpl.
  - intros Hloop _ Hnew.
    destruct (register_entry wm e r) as [r1|] eqn:E; [|done].
    destruct (register_entry_new _ _ _ _ E Hnew) as (_ & meta & Hmat & Hmeta).
    exists meta. split; [done|].
    apply (registry_loop_keeps _ _ _ _ _ _ Hloop).
    rewrite Hmeta. apply lookup_insert_eq.
  - intros Hloop Hnotin Hnew.
    destruct (register_entry wm a r) as [r1|] eqn:E; [|done].
    apply not_elem_of_cons in Hnotin as [Hne Hnotin].
    apply (IH r1 Hloop Hnotin).
    rewrite (register_entry_other _ _ _ _ _ E); [done|]. congruence.
Qed.

(** X6: the first matching template wins: a collected tag whose first matching
    template, in the order of the table, is [tpl] is bound to [tpl]
    materialized for the tag, merged with the override of the first
    reference. *)
Theorem first_matching_template_wins (layout : json)
  (wpre wpost : list (string * obj)) (tplId : string) (tpl : obj)
  (pre post : list entry) (e : entry) (reg : registry) :
  collectConcreteTags layout = Some (pre ++ e :: post) ->
  e_tagId e ∉ map e_tagId pre ->
  (forall id x, (id, x) ∈ wpre -> captureNumbers (e_tagId e) id = None) ->
  is_Some (captureNumbers (e_tagId e) tplId) ->
  buildRegistry layout (wpre ++ (tplId, tpl) :: wpost) = Some reg ->
  exists meta,
    materializeTemplate tpl (e_tagId e) = Some meta /\
    metaByTag reg !! e_tagId e = Some (merge_override meta (e_override e)).
Proof.
  intros Hcollect Hfirst Hpre Hmatch Hbuild.
  unfold buildRegistry in Hbuild. rewrite Hcollect in Hbuild.
  destruct (registry_loop_chosen _ _ _ _ _ _ Hbuild Hfirst (lookup_empty _))
    as (meta & Hmat & Hmeta).
  rewrite (choose_first _ _ _ _ _ Hpre Hmatch) in Hmat. eauto.
Qed.

Lemma first_matching_template_wins_witness :
  exists reg meta,
    buildRegistry
      (JObj [("pages", JArr [JObj [("sections", JArr [JObj [("items",
         JArr [JStr "Feedpoint3_speed"])]])]])])
      [("TOHMI_#", [("tagId", JStr "TOHMI_#")]);
       ("Feedpoint#_speed", [("tagId", JStr "Feedpoint#_speed");
                             ("label", JStr "Speed of feedpoint #")]);
       ("Feedpoint#_#peed", [("tagId", JStr "Feedpoint#_#peed");
                             ("label", JStr "other")])] = Some reg /\
    metaByTag reg !! "Feedpoint3_speed"%string = Some meta /\
    obj_get meta "label" = Some (JStr "Speed of feedpoint 3").
Proof.
  destruct (buildRegistry _ _) as [reg|] eqn:E at 1;
    [|vm_compute in E; discriminate].
  destruct (first_matching_template_wins
              (JObj [("pages", JArr [JObj [("sections", JArr [JObj [("items",
                 JArr [JStr "Feedpoint3_speed"])]])]])])
              [("TOHMI_#"%string, [("tagId"%string, JStr "TOHMI_#")])]
              [("Feedpoint#_#peed"%string,
                [("tagId"%string, JStr "Feedpoint#_#peed");
                 ("label"%string, JStr "other")])]
              "Feedpoint#_speed"
              [("tagId"%string, JStr "Feedpoint#_speed");
               ("label"%string, JStr "Speed of feedpoint #")]
              [] [] (Entry "Feedpoint3_speed" None) reg) as (meta & Hmat & Hm).
  - vm_compute. reflexivity.
  - simpl. apply not_elem_of_nil.
  - intros id x Hin. apply list_elem_of_singleton in Hin.
    injection Hin as -> ->. vm_compute. reflexivity.
  - vm_compute. eauto.
  - exact E.
  - exists reg, meta. split; [reflexivity|]. split; [exact Hm|].
    vm_compute in Hmat. injection Hmat as <-. reflexivity.
Defined.

Lemma for_each_is_Some {A S} (body : A -> S -> option S) (Q : A -> Prop) l :
  (forall x s, is_Some (body x s) <-> Q x) ->
  forall s, is_Some (for_each body l s) <-> Forall Q l.
Proof.
  intros Hbody. induction l as [|x l IH]; intros s; simpl.
  - split; [constructor|eauto].
  - rewrite Forall_cons. destruct (body x s) as [s'|] eqn:E.
    + rewrite IH. split; [|tauto]. intros H. split; [|done].
      apply (Hbody x s). by rewrite E.
    + split; [by intros []|]. intros [Hq _]. apply (Hbody x s) in Hq.
      rewrite E in Hq. by destruct Hq.
Qed.

Lemma member_is_Some j k : is_Some (member j k) <-> j <> JNull.
Proof.
  destruct j; simpl; split; try done; eauto; try (by intros []).
Qed.

Lemma scan_section_is_Some s a : is_Some (scan_section s a) <-> s <> JNull.
Proof.
  unfold scan_section.
  destruct s; simpl; split; try done; eauto; try (by intros []).
Qed.

Lemma scan_page_is_Some p a :
  is_Some (scan_page p a) <->
  p <> JNull /\ Forall (fun s => s <> JNull) (sections_of p).
Proof.
  unfold scan_page, sections_of.
  destruct (member p "sections") as [sections|] eqn:E.
  - rewrite (for_each_is_Some _ (fun s => s <> JNull))
      by apply scan_section_is_Some.
    split; [|tauto]. intros H. split; [|done].
    apply (member_is_Some p "sections"). by rewrite E.
  - split; [by intros []|]. intros [Hp _].
    apply (member_is_Some p "sections") in Hp. rewrite E in Hp.
    by destruct Hp.
Qed.

Lemma collect_is_Some layout :
  is_Some (collectConcreteTags layout) <-> layout_walkable layout.
Proof.
  unfold collectConcreteTags, layout_walkable, pages_of.
  destruct (member layout "pages") as [pages|] eqn:E.
  - rewrite fmap_is_Some.
    rewrite (for_each_is_Some _
               (fun p => p <> JNull /\
                         Forall (fun s => s <> JNull) (sections_of p)))
      by apply scan_page_is_Some.
    split; [|tauto]. intros H. split; [|done].
    apply (member_is_Some layout "pages"). by rewrite E.
  - split; [by intros []|]. intros [Hp _].
    apply (member_is_Some layout "pages") in Hp. rewrite E in Hp.
    by destruct Hp.
Qed.

Lemma choose_in wm t tpl :
  choose wm t = Some tpl -> exists id, (id, tpl) ∈ wm.
Proof.
  induction wm as [|[id x] wm IH]; simpl; [done|].
  destruct (captureNumbers t id).
  - intros [= ->]. exists id. by left.
  - intros H. destruct (IH H) as [id' ?]. exists id'. by right.
Qed.

Lemma materialize_is_Some tpl t :
  is_Some (materializeTemplate tpl t) <->
  exists s, obj_get tpl "tagId" = Some (JStr s).
Proof.
  unfold materializeTemplate.
  destruct (obj_get tpl "tagId") as [[| | |s| |]|]; split;
    try (by intros []); try (by intros [? [=]]); eauto.
Qed.

Lemma register_entry_is_Some wm e r :
  templates_ok wm -> is_Some (register_entry wm e r).
Proof.
  intros Hwm. unfold register_entry. cbv zeta.
  destruct (materializeTemplate _ _) as [meta|] eqn:E.
  - by destruct (metaByTag r !! e_tagId e).
  - exfalso.
    assert (is_Some (materializeTemplate
              (default (fallback (e_tagId e)) (choose wm (e_tagId e)))
              (e_tagId e))) as [? H]; [|congruence].
    apply materialize_is_Some.
    destruct (choose wm (e_tagId e)) as [tpl|] eqn:Ec; simpl; [|eauto].
    destruct (choose_in _ _ _ Ec) as [id Hin].
    unfold templates_ok in Hwm. rewrite Forall_forall in Hwm.
    apply (Hwm _ Hin).
Qed.

(** X7: when every template of the table has a string [tagId], building the
    registry returns a registry exactly for the layouts that are not null
    and have no null page and no null section; on any other layout it
    throws. *)
Theorem registry_built_iff_walkable (layout : json)
  (wm : list (string * obj)) :
  templates_ok wm ->
  (is_Some (buildRegistry layout wm) <-> layout_walkable layout).
Proof.
  intros Hwm. rewrite <- collect_is_Some. unfold buildRegistry.
  destruct (collectConcreteTags layout) as [entries|]; [|done].
  split; [eauto|]. intros _.
  apply (for_each_is_Some _ (fun _ => True)); [|by apply Forall_true].
  intros e r. split; [done|]. intros _. by apply register_entry_is_Some.
Qed.

Lemma registry_built_iff_walkable_witness :
  is_Some (buildRegistry example_layout example_templates) /\
  buildRegistry (JObj [("pages", JArr [JNull])]) example_templates = None.
Proof.
  assert (templates_ok example_templates) as Hwm.
  { constructor; [|constructor]. simpl. eauto. }
  split.
  - apply (registry_built_iff_walkable example_layout _ Hwm).
    split; [done|]. repeat constructor; done.
  - destruct (buildRegistry (JObj [("pages", JArr [JNull])]) example_templates)
      eqn:E; [|done].
    exfalso.
    assert (layout_walkable (JObj [("pages", JArr [JNull])])) as [_ Hp].
    { apply (registry_built_iff_walkable _ _ Hwm). by rewrite E. }
    apply Forall_cons in Hp as [[Hn _] _]. by apply Hn.
Defined.

Lemma obj_get_absent {A} (o : list (string * A)) k :
  k ∉ map fst o -> obj_get o k = None.
Proof.
  induction o as [|[k' v] o IH]; simpl; [done|].
  intros [Hne Hnot]%not_elem_of_cons.
  destruct (String.eqb k' k) eqn:E; [|by apply IH].
  apply String.eqb_eq in E. congruence.
Qed.

Lemma spread_lookup (target source : obj) k :
  NoDup (map fst source) ->
  obj_get (spread target source) k
  = match obj_get source k with
    | Some v => Some v
    | None => obj_get target k
    end.
Proof.
  unfold spread. revert target.
  induction source as [|[k0 v0] source IH]; intros target; simpl; [done|].
  intros [Hnotin Hnd]%NoDup_cons. rewrite IH by done.
  destruct (String.eqb k0 k) eqn:E.
  - apply String.eqb_eq in E. subst k0.
    rewrite obj_get_absent by done. apply obj_get_set_eq.
  - destruct (obj_get source k); [done|]. apply obj_get_set_ne.
    intros ->. by rewrite String.eqb_refl in E.
Qed.

(** X8: the override wins: in metadata merged with an override object, a
    property of the override has the value the override gives it, and every
    other property has the value of the resolved metadata; without override
    the metadata is unchanged. *)
Theorem override_wins (concreteMeta ov : obj) (k : string) :
  NoDup (map fst ov) ->
  obj_get (merge_override concreteMeta (Some (JObj ov))) k
  = match obj_get ov k with
    | Some v => Some v
    | None => obj_get concreteMeta k
    end
  /\ merge_override concreteMeta None = concreteMeta.
Proof. intros Hnd. split; [by apply spread_lookup|done]. Qed.

Lemma override_wins_witness :
  obj_get (merge_override (fallback "TOHMI_PE1")
             (Some (JObj [("label", JStr "Photo eye"); ("unit", JStr "-")])))
          "label" = Some (JStr "Photo eye").
Proof.
  refine (proj1 (override_wins (fallback "TOHMI_PE1")
                   [("label"%string, JStr "Photo eye");
                    ("unit"%string, JStr "-")] "label" _)).
  simpl. apply NoDup_cons. split; [|apply NoDup_singleton].
  intros H%list_elem_of_singleton. discriminate.
Defined.

(* ===================================================================== *)
(** * More on data access                                                 *)
(* ===================================================================== *)

Lemma readOne_as_map ref l t :
  readOne (as_map ref l) t
  = match first_sample t l with
    | Some s => Reading (nullish (sm_value s) VNull) (nullish (sm_ts s) VNull)
    | None => Reading VNull VNull
    end.
Proof.
  unfold as_map, readOne.
  induction l as [|s l IH]; [done|]. cbn [map obj_get first_sample].
  destruct (String.eqb (sm_tag s) t); [done|]. exact IH.
Qed.

Lemma readOne_as_rows ka va ta ref l t :
  key_alias ka -> value_alias va -> ts_alias ta ->
  readOne (as_rows ka va ta ref l) t
  = match first_sample t l with
    | Some s => Reading (nullish (sm_value s) VNull) (nullish (sm_ts s) VNull)
    | None => Reading VNull VNull
    end.
Proof.
  intros Hk Hv Ht. unfold as_rows, readOne.
  induction l as [|s l IH]; [done|]. cbn [map readRows first_sample is_object negb].
  rewrite IH. clear IH.
  destruct Hk as [->|[->|[->| ->]]], Hv as [->|[->| ->]], Ht as [->| ->];
    cbn; destruct (String.eqb (sm_tag s) t); try reflexivity;
    destruct (sm_value s), (sm_ts s); reflexivity.
Qed.

(** X9: the two shapes of a data source read alike: for a list of samples, the
    array of rows, whichever of the accepted property names the rows use
    ([tagId], [name], [tag] or [id]; [value], [val] or [v]; [ts] or
    [timestamp]), and the object of [{ value, ts }] records give the same
    reading for every tag: the value and timestamp of the first sample of that name,
    [undefined] read as [null], and [{ null, null }] for a name that is
    not there. *)
Theorem source_shapes_agree (ka va ta : string) (r1 r2 : N)
  (l : list sample) (t : string) :
  key_alias ka -> value_alias va -> ts_alias ta ->
  readOne (as_rows ka va ta r1 l) t = readOne (as_map r2 l) t /\
  (first_sample t l = None ->
   readOne (as_rows ka va ta r1 l) t = Reading VNull VNull) /\
  (forall s, first_sample t l = Some s ->
   readOne (as_map r2 l) t
   = Reading (nullish (sm_value s) VNull) (nullish (sm_ts s) VNull)).
Proof.
  intros Hk Hv Ht.
  rewrite (readOne_as_rows _ _ _ _ _ _ Hk Hv Ht), readOne_as_map.
  split; [done|]. split; [by intros ->|by intros s ->].
Qed.

Lemma source_shapes_agree_witness :
  readOne (as_rows "name" "val" "timestamp" 1
             [Sample "TOHMI_PE1" (VNum (Fin 1)) VUndef;
              Sample "TOHMI_PE2" VNull (VNum (Fin 50))]) "TOHMI_PE2"
  = readOne (as_map 2
               [Sample "TOHMI_PE1" (VNum (Fin 1)) VUndef;
                Sample "TOHMI_PE2" VNull (VNum (Fin 50))]) "TOHMI_PE2".
Proof.
  refine (proj1 (source_shapes_agree "name" "val" "timestamp" 1 2 _ _ _ _ _));
    unfold key_alias, value_alias, ts_alias; auto.
Defined.

(* ===================================================================== *)
(** * More on the poll tick                                               *)
(* ===================================================================== *)

Lemma received_writes_other c (e : event) (l : list Client) :
  c ∉ l -> received c (map (fun c' => Wrote c' e) l) = [].
Proof.
  induction l as [|c' l IH]; [done|]. intros [Hne Hl]%not_elem_of_cons.
  simpl. destruct (Nat.eqb c' c) eqn:E; [|by apply IH].
  apply Nat.eqb_eq in E. congruence.
Qed.

Lemma received_writes_once c (e : event) (l : list Client) :
  NoDup l -> c ∈ l -> received c (map (fun c' => Wrote c' e) l) = [e].
Proof.
  induction 1 as [|c' l Hnotin Hnd IH]; [by intros ?%not_elem_of_nil|].
  intros [->|Hin]%elem_of_cons; simpl.
  - rewrite Nat.eqb_refl. by rewrite received_writes_other.
  - destruct (Nat.eqb c' c) eqn:E; [|by apply IH].
    apply Nat.eqb_eq in E. congruence.
Qed.

Lemma healthy_prefix_NoDup w cs : NoDup cs -> NoDup (healthy_prefix w cs).
Proof.
  induction 1 as [|c cs Hnotin Hnd IH]; simpl; [constructor|].
  destruct (write_fails w c); constructor; [|done].
  intros Hin. by apply healthy_prefix_elem in Hin as [? _].
Qed.

Lemma patch_write_in_kind w cs ups c p :
  Wrote c (EvPlcComms p) ∉ patch_writes w cs ups.
Proof.
  unfold patch_writes. destruct (nonempty ups); [|apply not_elem_of_nil].
  by intros (c' & [=] & _)%list_elem_of_fmap.
Qed.

Lemma received_beat_effects c beat now hbVal :
  received c (beat_effects beat now hbVal) = [].
Proof. by destruct beat. Qed.

Section EngineMore.

Variable StringToNumber : string -> number.
Variable cfg : config.

(** The liveness half of a tick, as a tail of the history. *)
Lemma tick_liveness_tail w st2 :
  tick_liveness StringToNumber cfg w st2 = st2 \/
  exists p beat hbVal,
    history (tick_liveness StringToNumber cfg w st2)
    = history st2 ++ beat_effects beat (now_plc w) hbVal ++
      (if comms_changed (lastCommsOk st2) (plc_ok p)
       then comms_writes w (sseClients st2) p else []) /\
    lastCommsOk (tick_liveness StringToNumber cfg w st2) = Some (plc_ok p) /\
    plc_ok p
    = commsOk cfg (lastBeatTs (tick_liveness StringToNumber cfg w st2))
        (now_plc w).
Proof.
  unfold tick_liveness.
  destruct (compute_cases StringToNumber cfg w true st2)
    as [-> | (p & hbTag & hbVal & beat & -> & Hok)]; [by left|].
  right. exists p, beat, hbVal.
  destruct (evaluated_frame true hbTag hbVal (now_plc w) beat st2)
    as (Hc & _ & _ & Hl).
  pose proof (evaluated_history true hbTag hbVal (now_plc w) beat st2) as Hh.
  rewrite Hl, Hc.
  destruct (comms_changed (lastCommsOk st2) (plc_ok p)) eqn:Hch.
  - cbn [history emit set_lastCommsOk lastCommsOk lastBeatTs].
    rewrite Hh, <- app_assoc. done.
  - rewrite Hh, app_nil_r. split; [done|]. split; [|done].
    rewrite Hl. unfold comms_changed in Hch.
    destruct (lastCommsOk st2) as [b|]; [|done].
    apply negb_false_iff, eqb_prop in Hch. by rewrite Hch.
Qed.

(** A tick whose snapshot read returned, as a tail of the history. *)
Lemma tick_tail w st d :
  pollTimer st = true -> allData w = Returns d ->
  let ups := (diff StringToNumber w d (registry_tags cfg) (lastSent st)).2 in
  let st' := poll_tick StringToNumber cfg w st in
  (emitted st st' = patch_writes w (sseClients st) ups /\
   lastCommsOk st' = lastCommsOk st) \/
  exists p beat hbVal,
    emitted st st'
    = patch_writes w (sseClients st) ups ++
      beat_effects beat (now_plc w) hbVal ++
      (if comms_changed (lastCommsOk st) (plc_ok p)
       then comms_writes w (sseClients st) p else []) /\
    lastCommsOk st' = Some (plc_ok p) /\
    plc_ok p = commsOk cfg (lastBeatTs st') (now_plc w).
Proof.
  intros Ht Hd ups st'. subst st'.
  rewrite (poll_tick_closed _ _ _ _ _ Ht Hd). unfold tick_after_diff.
  fold ups.
  set (st2 := emit (patch_writes w (sseClients st) ups) _).
  assert (emitted st st2 = patch_writes w (sseClients st) ups) as Hem2.
  { unfold emitted. subst st2. simpl. by rewrite drop_app_length. }
  destruct (negb (nonempty ups) || all_healthy w (sseClients st));
    [|by left].
  destruct (tick_liveness_tail w st2) as [-> | (p & beat & hbVal & Hh & Hl & Hok)];
    [by left|].
  right. exists p, beat, hbVal. split; [|done].
  unfold emitted. rewrite Hh. subst st2. cbn [history emit set_lastSent
    lastCommsOk sseClients].
  by rewrite <- app_assoc, drop_app_length.
Qed.

(** X10: a comms event is announced on a change only: a poll tick writes a comms
    event only when its [ok] differs from the one announced last, or when
    none was announced yet; the tick then records that [ok] as announced,
    so that the next tick does not repeat it; and the event goes to
    registered clients. *)
Theorem comms_on_change_only (w : world) (st : state) (c : Client) (p : plc) :
  Wrote c (EvPlcComms p) ∈ emitted st (poll_tick StringToNumber cfg w st) ->
  lastCommsOk st <> Some (plc_ok p) /\
  lastCommsOk (poll_tick StringToNumber cfg w st) = Some (plc_ok p) /\
  c ∈ sseClients st /\
  forall w' c' p',
    Wrote c' (EvPlcComms p')
    ∈ emitted (poll_tick StringToNumber cfg w st)
        (poll_tick StringToNumber cfg w'
           (poll_tick StringToNumber cfg w st)) ->
    plc_ok p' <> plc_ok p.
Proof.
  assert (forall w0 st0 c0 p0,
            Wrote c0 (EvPlcComms p0)
            ∈ emitted st0 (poll_tick StringToNumber cfg w0 st0) ->
            lastCommsOk st0 <> Some (plc_ok p0) /\
            lastCommsOk (poll_tick StringToNumber cfg w0 st0)
            = Some (plc_ok p0) /\ c0 ∈ sseClients st0) as Hone.
  { intros w0 st0 c0 p0 Hin.
    destruct (pollTimer st0) eqn:Ht.
    2:{ rewrite poll_tick_off in Hin by done. unfold emitted in Hin.
        rewrite drop_all in Hin. by apply not_elem_of_nil in Hin. }
    destruct (allData w0) as [d|] eqn:Hd.
    2:{ rewrite poll_tick_raises in Hin by done. unfold emitted in Hin.
        rewrite drop_all in Hin. by apply not_elem_of_nil in Hin. }
    destruct (tick_tail w0 st0 d Ht Hd)
      as [[Hem _] | (q & beat & hbVal & Hem & Hl & _)];
      rewrite Hem in Hin.
    - by apply patch_write_in_kind in Hin.
    - apply elem_of_app in Hin as [Hin|Hin];
        [by apply patch_write_in_kind in Hin|].
      apply elem_of_app in Hin as [Hin|Hin].
      { unfold beat_effects in Hin. destruct beat; simpl in Hin;
          repeat (apply elem_of_cons in Hin as [Hin|Hin]; [done|]);
          by apply not_elem_of_nil in Hin. }
      destruct (comms_changed (lastCommsOk st0) (plc_ok q)) eqn:Hch;
        [|by apply not_elem_of_nil in Hin].
      unfold comms_writes in Hin.
      apply list_elem_of_fmap in Hin as (c1 & [= -> ->] & Hc1).
      apply healthy_prefix_elem in Hc1 as [Hc1 _].
      split; [|done]. intros Heq. rewrite Heq in Hch. simpl in Hch.
      by rewrite eqb_reflx in Hch. }
  intros Hin. destruct (Hone _ _ _ _ Hin) as (H1 & H2 & H3).
  split; [done|]. split; [done|]. split; [done|].
  intros w' c' p' Hin'. destruct (Hone _ _ _ _ Hin') as (H1' & _).
  rewrite H2 in H1'. congruence.
Qed.

End EngineMore.

Lemma comms_on_change_only_witness :
  let st := hmi_data decimal demo_cfg 1%nat
              (calm (pe1 (VNum (Fin 7))) None 1000) initial_state in
  lastCommsOk st <> Some true /\
  lastCommsOk (poll_tick decimal demo_cfg
                 (calm (pe1 (VNum (Fin 7))) None 1250) st) = Some true.
Proof.
  cbv zeta.
  destruct (comms_on_change_only decimal demo_cfg
              (calm (pe1 (VNum (Fin 7))) None 1250)
              (hmi_data decimal demo_cfg 1%nat
                 (calm (pe1 (VNum (Fin 7))) None 1000) initial_state)
              1%nat (Plc true 1250 "TOHMI_CRC_Handshake" VNull 1500))
    as (H1 & H2 & _).
  - vm_compute. do 2 right. left.
  - split; [exact H1|exact H2].
Defined.

Section Clients.

Variable StringToNumber : string -> number.
Variable cfg : config.

Lemma received_patch_writes_other w cs ups c :
  c ∉ cs -> received c (patch_writes w cs ups) = [].
Proof.
  intros Hc. unfold patch_writes. destruct (nonempty ups); [|done].
  apply received_writes_other. intros Hin.
  by apply healthy_prefix_elem in Hin as [? _].
Qed.

Lemma received_comms_writes_other w cs p c :
  c ∉ cs -> received c (comms_writes w cs p) = [].
Proof.
  intros Hc. apply received_writes_other. intros Hin.
  by apply healthy_prefix_elem in Hin as [? _].
Qed.

Lemma tick_skips_unregistered w st c :
  c ∉ sseClients st ->
  received c (history (poll_tick StringToNumber cfg w st))
  = received c (history st).
Proof.
  intros Hc.
  destruct (pollTimer st) eqn:Ht; [|by rewrite poll_tick_off].
  destruct (allData w) as [d|] eqn:Hd; [|by rewrite poll_tick_raises].
  destruct (tick_emitted StringToNumber cfg w st d Ht Hd) as (es & _).
  assert (history (poll_tick StringToNumber cfg w st)
          = history st ++ emitted st (poll_tick StringToNumber cfg w st))
    as ->.
  { rewrite (poll_tick_closed _ _ _ _ _ Ht Hd).
    destruct (tick_after_diff_frame StringToNumber cfg w st
                (diff StringToNumber w d (registry_tags cfg) (lastSent st)))
      as (_ & _ & _ & es' & Hh & _).
    unfold emitted. rewrite Hh. by rewrite drop_app_length. }
  rewrite received_app.
  destruct (tick_tail StringToNumber cfg w st d Ht Hd)
    as [[-> _] | (p & beat & hbVal & -> & _)].
  - by rewrite received_patch_writes_other, app_nil_r.
  - rewrite !received_app, received_patch_writes_other,
      received_beat_effects by done.
    destruct (comms_changed _ _);
      by rewrite ?received_comms_writes_other, app_nil_r.
Qed.

Lemma greeted_skips_others c c' w s st :
  c' <> c ->
  received c (history (greeted StringToNumber cfg c' w s st))
  = received c (history st).
Proof.
  intros Hne.
  assert (forall l, received c (map (Wrote c') l) = []) as Hmap.
  { induction l as [|e l IH]; [done|]. simpl.
    destruct (Nat.eqb c' c) eqn:E; [|done].
    apply Nat.eqb_eq in E. congruence. }
  assert (forall e, received c [Wrote c' e] = []) as Hone
    by (intros e; apply (Hmap [e])).
  unfold greeted. destruct (allData w) as [d|].
  2:{ cbn [history record]. by rewrite received_app, Hone, app_nil_r. }
  unfold greet_data.
  set (st2 := emit _ (record _ st)).
  assert (received c (history st2) = received c (history st)) as H2.
  { subst st2. cbn [history emit record].
    by rewrite !received_app, Hmap, Hone, !app_nil_r. }
  destruct (compute_cases StringToNumber cfg w true st2)
    as [-> | (p & hbTag & hbVal & beat & -> & _)]; [done|].
  cbn [history record].
  rewrite received_app, evaluated_history, received_app, Hone, H2.
  rewrite (received_liveness c hbVal (now_plc w) beat). by rewrite !app_nil_r.
Qed.

Lemma step_skips_unregistered st o c :
  c ∉ sseClients st -> not_connect c o ->
  received c (history (step StringToNumber cfg st o)) = received c (history st)
  /\ c ∉ sseClients (step StringToNumber cfg st o).
Proof.
  intros Hc Ho. destruct o as [w|c' w|c'|w]; cbn [step].
  - split; [by apply tick_skips_unregistered|].
    by rewrite (proj2 (tick_keeps_timer_and_clients StringToNumber cfg w st)).
  - simpl in Ho.
    destruct (opcuaState w) as [s|] eqn:Hs;
      [|by rewrite hmi_data_aborts by auto].
    destruct (write_fails w c') eqn:Hw;
      [by rewrite hmi_data_aborts by auto|].
    rewrite (hmi_data_closed _ _ _ _ _ _ Hs Hw).
    cbn [registered history sseClients set_pollTimer set_sseClients].
    split; [by apply greeted_skips_others|].
    destruct (greeted_history StringToNumber cfg c' w s st)
      as (es & _ & _ & _ & _ & -> & _).
    unfold add_client. case_bool_decide; [done|].
    apply not_elem_of_app. split; [done|].
    intros ?%list_elem_of_singleton. congruence.
  - split; [done|]. unfold on_close. cbn [sseClients set_sseClients].
    rewrite list_elem_of_filter. tauto.
  - unfold keepalive. rewrite keepalive_run. cbn [snd emit history sseClients].
    split; [|done]. rewrite received_app.
    assert (received c
              (map (fun c0 => Wrote c0 (EvHeartbeat (now_keepalive w c0)))
                   (filter (fun c0 => write_fails w c0 = false)
                           (sseClients st))) = []) as ->;
      [|by rewrite app_nil_r].
    induction (sseClients st) as [|c0 l IH]; [done|].
    apply not_elem_of_cons in Hc as [Hne Hl].
    destruct (write_fails w c0) eqn:E.
    + rewrite filter_cons_False; [by apply IH | by rewrite E].
    + rewrite filter_cons_True by done. simpl.
      destruct (Nat.eqb c0 c) eqn:E0; [|by apply IH].
      apply Nat.eqb_eq in E0. congruence.
Qed.

(** X11: a client that is not registered receives nothing: an operation other
    than its own connection writes nothing to it and does not register it.
    So after the close of its connection, whatever the ticks, keepalives,
    and connections and closes of others that follow, a client has received
    exactly what it had received when it closed. *)
Theorem closed_client_receives_nothing (st : state) (c : Client)
  (ops : list op) :
  Forall (not_connect c) ops ->
  (c ∉ sseClients st ->
   received c (history (run StringToNumber cfg ops st))
   = received c (history st) /\
   c ∉ sseClients (run StringToNumber cfg ops st)) /\
  received c (history (run StringToNumber cfg ops
                         (step StringToNumber cfg st (Close c))))
  = received c (history st).
Proof.
  intros Hops.
  assert (forall st0, c ∉ sseClients st0 ->
            received c (history (run StringToNumber cfg ops st0))
            = received c (history st0) /\
            c ∉ sseClients (run StringToNumber cfg ops st0)) as Hrun.
  { induction Hops as [|o ops Ho Hops IH]; intros st0 Hc; [done|].
    change (run StringToNumber cfg (o :: ops) st0)
      with (run StringToNumber cfg ops (step StringToNumber cfg st0 o)).
    destruct (step_skips_unregistered st0 o c Hc Ho) as [Hr Hc'].
    destruct (IH _ Hc') as [Hr' Hc'']. split; [congruence|done]. }
  split; [apply Hrun|].
  assert (c ∉ sseClients (step StringToNumber cfg st (Close c))) as Hc.
  { cbn [step]. unfold on_close. cbn [sseClients set_sseClients].
    rewrite list_elem_of_filter. tauto. }
  by destruct (Hrun _ Hc) as [-> _].
Qed.

End Clients.

Lemma closed_client_receives_nothing_witness :
  let st := hmi_data decimal demo_cfg 1%nat
              (calm (pe1 (VNum (Fin 7))) None 1000) initial_state in
  received 1%nat
    (history (run decimal demo_cfg
                [Tick (calm (pe1 (VNum (Fin 8))) None 1250);
                 Connect 2 (calm (pe1 (VNum (Fin 8))) None 1300);
                 Keepalive (calm (pe1 (VNum (Fin 8))) None 3000);
                 Tick (calm (pe1 (VNum (Fin 9))) None 3250)]
                (step decimal demo_cfg st (Close 1%nat))))
  = received 1%nat (history st).
Proof.
  cbv zeta.
  refine (proj2 (closed_client_receives_nothing decimal demo_cfg _ 1%nat _ _)).
  repeat constructor. simpl. lia.
Defined.

Section Invariants.

Variable StringToNumber : string -> number.
Variable cfg : config.

Lemma settled_entry w d ls0 t p :
  (forall q, ls0 !! t = Some q -> not_null (s_ts q) = true) ->
  settled StringToNumber w d ls0 t = Some p ->
  not_null (s_ts p) = true /\
  (s_value p = r_value (readOne d t) \/
   strict_eq (s_value p) (r_value (readOne d t)) = true).
Proof.
  intros Hold. unfold settled, newer, sent_ts.
  destruct (valueChanged (ls0 !! t) (readOne d t)) eqn:Hch.
  - intros [= <-]. cbn [s_ts s_value]. split; [|by left].
    by destruct (r_ts (readOne d t)).
  - destruct (ls0 !! t) as [q|] eqn:Hq; [|done]. cbn [valueChanged] in Hch.
    apply negb_false_iff in Hch.
    destruct (not_null (r_ts (readOne d t))) eqn:Hnn; cbn [andb].
    + destruct (js_gt _ _ _); intros [= <-]; cbn [s_ts s_value];
        (split; [|by right]); [done|by apply Hold].
    + intros [= <-]. split; [by apply Hold|by right].
Qed.

(** X12: after a tick that read the data, [lastSent] has an entry for every tag
    of the registry, whose value is the value just read or is strictly
    equal to it, and the entries of all other names are as they were. *)
Theorem lastSent_follows_data (w : world) (st : state) (d : data) :
  pollTimer st = true -> allData w = Returns d ->
  (forall t, t ∈ registry_tags cfg ->
     exists p, lastSent (poll_tick StringToNumber cfg w st) !! t = Some p /\
               (s_value p = r_value (readOne d t) \/
                strict_eq (s_value p) (r_value (readOne d t)) = true)) /\
  (forall t, t ∉ registry_tags cfg ->
     lastSent (poll_tick StringToNumber cfg w st) !! t = lastSent st !! t).
Proof.
  intros Ht Hd. rewrite (tick_lastSent _ _ _ _ _ Ht Hd).
  pose proof (diff_invariant StringToNumber w d (lastSent st)
                (registry_tags cfg)) as Hinv. cbv zeta in Hinv.
  split.
  - intros t Hin. destruct (Hinv t) as [Hi _]. destruct (Hi Hin) as [Hs _].
    rewrite Hs. unfold settled, newer.
    destruct (valueChanged (lastSent st !! t) (readOne d t)) eqn:Hch.
    + eexists. split; [reflexivity|]. by left.
    + destruct (lastSent st !! t) as [q|] eqn:Hq; [|done].
      cbn [valueChanged] in Hch. apply negb_false_iff in Hch.
      destruct (_ && _); simpl; eexists; (split; [reflexivity|]); by right.
  - intros t Hout. destruct (Hinv t) as [_ Ho]. by destruct (Ho Hout).
Qed.

Lemma step_inv st o :
  engine_inv cfg st -> engine_inv cfg (step StringToNumber cfg st o).
Proof.
  intros (Hnd & Htimer & Hls). destruct o as [w|c w|c|w]; cbn [step].
  - destruct (tick_keeps_timer_and_clients StringToNumber cfg w st)
      as [Hp Hc].
    split; [by rewrite Hc|]. split; [by rewrite Hc, Hp|].
    destruct (pollTimer st) eqn:Ht; [|by rewrite poll_tick_off].
    destruct (allData w) as [d|] eqn:Hd; [|by rewrite poll_tick_raises].
    rewrite (tick_lastSent _ _ _ _ _ Ht Hd).
    pose proof (diff_invariant StringToNumber w d (lastSent st)
                  (registry_tags cfg)) as Hinv. cbv zeta in Hinv.
    intros t p Hp'.
    destruct (decide (t ∈ registry_tags cfg)) as [Hin|Hout].
    + split; [done|]. destruct (Hinv t) as [Hi _].
      destruct (Hi Hin) as [Hs _]. rewrite Hs in Hp'.
      eapply settled_entry; [|exact Hp']. intros q Hq. by apply (Hls t q).
    + destruct (Hinv t) as [_ Ho]. destruct (Ho Hout) as [Hs _].
      rewrite Hs in Hp'. by apply Hls.
  - destruct (opcuaState w) as [s|] eqn:Hs;
      [|by rewrite hmi_data_aborts by auto].
    destruct (write_fails w c) eqn:Hw;
      [by rewrite hmi_data_aborts by auto|].
    rewrite (hmi_data_closed _ _ _ _ _ _ Hs Hw).
    destruct (greeted_history StringToNumber cfg c w s st)
      as (es & _ & _ & _ & _ & Hc & Hl & _).
    unfold engine_inv.
    cbn [registered sseClients lastSent pollTimer set_pollTimer
         set_sseClients]. rewrite Hc, Hl.
    split; [|done]. unfold add_client. case_bool_decide as Hin; [done|].
    apply NoDup_app. split; [done|]. split; [|apply NoDup_singleton].
    intros x Hx ->%list_elem_of_singleton. done.
  - unfold engine_inv, on_close. cbn [sseClients lastSent pollTimer set_sseClients].
    split; [by apply NoDup_filter|]. split; [|done].
    intros Hne. apply Htimer. intros Hnil. rewrite Hnil in Hne. done.
  - unfold keepalive. rewrite keepalive_run. done.
Qed.

(** X13: in every state that the event loop reaches from the initial state, the
    set of clients has no duplicate, the poll timer is armed as long as a
    client is registered, and [lastSent] has entries for tags of the
    registry only, none with a null timestamp. *)
Theorem reachable_states_invariant (ops : list op) :
  engine_inv cfg (run StringToNumber cfg ops initial_state).
Proof.
  assert (forall st, engine_inv cfg st ->
                     engine_inv cfg (run StringToNumber cfg ops st)) as H.
  { induction ops as [|o ops IH]; intros st Hst; [done|].
    change (run StringToNumber cfg (o :: ops) st)
      with (run StringToNumber cfg ops (step StringToNumber cfg st o)).
    by apply IH, step_inv. }
  apply H. split; [constructor|]. split; [done|].
  intros t p. cbn [initial_state lastSent]. by rewrite lookup_empty.
Qed.

(** X14: what one client receives in one tick: at most one patch, the batch of
    the tick, then at most one comms event, in this order and nothing
    else. *)
Theorem tick_events_of_a_client (w : world) (st : state) (c : Client) :
  NoDup (sseClients st) ->
  exists ps cs,
    received c (emitted st (poll_tick StringToNumber cfg w st)) = ps ++ cs /\
    (ps = [] \/
     exists d, allData w = Returns d /\
       ps = [EvPatch (diff StringToNumber w d (registry_tags cfg)
                           (lastSent st)).2]) /\
    (cs = [] \/ exists p, cs = [EvPlcComms p]).
Proof.
  intros Hnd.
  assert (received c (emitted st st) = []) as Hnone.
  { unfold emitted. by rewrite drop_all. }
  destruct (pollTimer st) eqn:Ht.
  2:{ rewrite poll_tick_off by done. exists [], []. rewrite Hnone. auto. }
  destruct (allData w) as [d|] eqn:Hd.
  2:{ rewrite poll_tick_raises by done. exists [], []. rewrite Hnone. auto. }
  set (ups := (diff StringToNumber w d (registry_tags cfg) (lastSent st)).2).
  assert (received c (patch_writes w (sseClients st) ups) = [] \/
          received c (patch_writes w (sseClients st) ups) = [EvPatch ups])
    as Hpatch.
  { unfold patch_writes. destruct (nonempty ups); [|by left].
    destruct (decide (c ∈ healthy_prefix w (sseClients st))) as [Hin|Hout].
    - right. apply received_writes_once; [|done].
      by apply healthy_prefix_NoDup.
    - left. by apply received_writes_other. }
  assert (forall p,
            received c (comms_writes w (sseClients st) p) = [] \/
            received c (comms_writes w (sseClients st) p) = [EvPlcComms p])
    as Hcomms.
  { intros p. unfold comms_writes.
    destruct (decide (c ∈ healthy_prefix w (sseClients st))) as [Hin|Hout].
    - right. apply received_writes_once; [|done].
      by apply healthy_prefix_NoDup.
    - left. by apply received_writes_other. }
  destruct (tick_tail StringToNumber cfg w st d Ht Hd)
    as [[-> _] | (p & beat & hbVal & -> & _)]; fold ups.
  - exists (received c (patch_writes w (sseClients st) ups)), [].
    rewrite app_nil_r. split; [done|]. split; [|by left].
    destruct Hpatch as [-> | ->]; [by left|right; eauto].
  - rewrite !received_app, received_beat_effects. cbn [app].
    eexists _, _. split; [reflexivity|]. split.
    + destruct Hpatch as [-> | ->]; [by left|right; eauto].
    + destruct (comms_changed _ _); [|by left].
      destruct (Hcomms p) as [-> | ->]; [by left|right; eauto].
Qed.

End Invariants.

Lemma lastSent_follows_data_witness :
  exists p,
    lastSent (poll_tick decimal demo_cfg
                (calm (pe1 (VNum (Fin 7))) None 1250)
                (hmi_data decimal demo_cfg 1%nat
                   (calm (pe1 (VNum (Fin 6))) None 1000) initial_state))
      !! "TOHMI_PE1"%string = Some p /\
    (s_value p = VNum (Fin 7) \/ strict_eq (s_value p) (VNum (Fin 7)) = true).
Proof.
  refine (proj1 (lastSent_follows_data decimal demo_cfg
            (calm (pe1 (VNum (Fin 7))) None 1250)
            (hmi_data decimal demo_cfg 1%nat
               (calm (pe1 (VNum (Fin 6))) None 1000) initial_state)
            (pe1 (VNum (Fin 7))) eq_refl eq_refl) "TOHMI_PE1"%string _).
  simpl. left.
Defined.

Lemma tick_events_of_a_client_witness :
  exists ps cs,
    received 1%nat
      (emitted (hmi_data decimal demo_cfg 1%nat
                  (calm (pe1 (VNum (Fin 6))) None 1000) initial_state)
         (poll_tick decimal demo_cfg (calm (pe1 (VNum (Fin 7))) None 1250)
            (hmi_data decimal demo_cfg 1%nat
               (calm (pe1 (VNum (Fin 6))) None 1000) initial_state)))
    = ps ++ cs /\
    (cs = [] \/ exists p, cs = [EvPlcComms p]).
Proof.
  destruct (tick_events_of_a_client decimal demo_cfg
              (calm (pe1 (VNum (Fin 7))) None 1250)
              (hmi_data decimal demo_cfg 1%nat
                 (calm (pe1 (VNum (Fin 6))) None 1000) initial_state) 1%nat)
    as (ps & cs & H & _ & Hcs).
  - vm_compute. apply NoDup_singleton.
  - exists ps, cs. split; [exact H|exact Hcs].
Defined.

(** X15: the batch lists the changed tags in the order of the registry: for a
    list of tags without duplicate, [updates] holds exactly the tags whose
    value differs from the stored one, in the order of the list, each with
    the value read and the timestamp of the source, or the clock reading
    when the source gives none. *)
Theorem batch_in_registry_order (StringToNumber : string -> number)
  (w : world) (d : data) (ls0 : gmap string sent) (tagIds : list string) :
  NoDup tagIds ->
  (diff StringToNumber w d tagIds ls0).2
  = map (fun t => Update t (r_value (readOne d t))
                    (nullish (r_ts (readOne d t)) (VNum (Fin (now_tag w t)))))
        (filter (fun t => valueChanged (ls0 !! t) (readOne d t) = true)
                tagIds).
Proof.
  induction tagIds as [|x l IH] using rev_ind; [done|].
  intros [Hnd [Hx _]]%NoDup_app. rewrite diff_snoc.
  pose proof (diff_invariant StringToNumber w d ls0 l) as Hinv.
  cbv zeta in Hinv.
  destruct (diff StringToNumber w d l ls0) as [ls ups] eqn:Hr.
  cbn [fst snd] in IH, Hinv. rewrite diff_tag_updates, (IH Hnd).
  destruct (Hinv x) as [_ Hout].
  assert (x ∉ l) as Hxl.
  { intros Hin. apply (Hx x Hin). by left. }
  destruct (Hout Hxl) as [-> _].
  rewrite filter_app, map_app. f_equal.
  destruct (valueChanged (ls0 !! x) (readOne d x)) eqn:Hch.
  - by rewrite filter_cons_True by done.
  - rewrite filter_cons_False; [done|]. by rewrite Hch.
Qed.

Lemma batch_in_registry_order_witness :
  (diff decimal (calm DFalsy None 9)
        (DMap [("b"%string, VNum (Fin 2)); ("a"%string, VNum (Fin 1));
               ("c"%string, VNum (Fin 3))])
        ["c"; "a"; "b"]%string
        {["a"%string := Sent (VNum (Fin 1)) (VNum (Fin 5))]}).2
  = [Update "c" (VNum (Fin 3)) (VNum (Fin 9));
     Update "b" (VNum (Fin 2)) (VNum (Fin 9))].
Proof.
  rewrite (batch_in_registry_order decimal (calm DFalsy None 9) _ _
             ["c"; "a"; "b"]%string).
  - vm_compute. reflexivity.
  - apply (bool_decide_unpack _). vm_compute. reflexivity.
Defined.

(* ===================================================================== *)
(** * More on the liveness detector                                       *)
(* ===================================================================== *)

Section Counter.

Variable StringToNumber : string -> number.
Variable cfg : config.

Lemma handshake_beat hbTag prev v :
  includes (toLowerCase hbTag) "heartbeat" = false ->
  includes (toLowerCase hbTag) "handshake" = true ->
  0 <= v ->
  beatDetected StringToNumber hbTag (VNum (Fin prev)) (VNum (Fin v))
  = negb (Z.eqb v prev).
Proof.
  intros Hhb Hhs Hv. unfold beatDetected. rewrite Hhb, Hhs. cbn.
  assert (Z.ltb v 0 = false) as -> by by apply Z.ltb_ge. done.
Qed.

Lemma handshake_first hbTag v :
  includes (toLowerCase hbTag) "heartbeat" = false ->
  includes (toLowerCase hbTag) "handshake" = true ->
  0 <= v ->
  beatDetected StringToNumber hbTag VUndef (VNum (Fin v)) = true.
Proof.
  intros Hhb Hhs Hv. unfold beatDetected. rewrite Hhb, Hhs. cbn.
  assert (Z.ltb v 0 = false) as -> by by apply Z.ltb_ge. done.
Qed.

Lemma evaluated_stamps hbTag hbVal now beat st :
  stamps (history (evaluated true hbTag hbVal now beat st))
  = (stamps (history st) + if beat then 1 else 0)%nat.
Proof.
  rewrite evaluated_history, stamps_app. by destruct beat.
Qed.

Lemma evaluated_lastBeatVal hbTag hbVal now beat st :
  lastBeatVal (evaluated true hbTag hbVal now beat st) = hbVal.
Proof. unfold evaluated. by destruct beat. Qed.

Lemma last_cons_default (v prev : Z) (vs : list Z) :
  List.last (v :: vs) prev = List.last vs v.
Proof.
  revert v prev. induction vs as [|u vs IH]; intros v prev; [done|].
  change (List.last (v :: u :: vs) prev) with (List.last (u :: vs) prev).
  by rewrite !IH.
Qed.

Lemma counter_run hbTag vs ws :
  includes (toLowerCase hbTag) "heartbeat" = false ->
  includes (toLowerCase hbTag) "handshake" = true ->
  Forall2 (fun v w => 0 <= v /\ feeds hbTag (VNum (Fin v)) w) vs ws ->
  forall st prev,
    lastBeatVal st = VNum (Fin prev) ->
    stamps (history (evaluations StringToNumber cfg ws st))
    = (stamps (history st) + changes prev vs)%nat /\
    lastBeatVal (evaluations StringToNumber cfg ws st)
    = VNum (Fin (List.last vs prev)).
Proof.
  intros Hhb Hhs. assert ("handshake"%string <> ""%string) as Hne by done.
  induction 1 as [|v w vs ws [Hv Hf] Hrest IH]; intros st prev Hst.
  - simpl. split; [lia|done].
  - change (evaluations StringToNumber cfg (w :: ws) st)
      with (evaluations StringToNumber cfg ws
              (evaluate StringToNumber cfg w st)).
    rewrite (evaluate_feeds _ _ _ _ _ _ _ Hne Hhs Hf).
    rewrite Hst, handshake_beat by done.
    destruct (IH (evaluated true hbTag (VNum (Fin v)) (now_plc w)
                    (negb (Z.eqb v prev)) st) v) as [Hs Hl].
    { apply evaluated_lastBeatVal. }
    rewrite Hs, Hl, evaluated_stamps. cbn [changes]. split.
    + destruct (Z.eqb v prev); simpl; lia.
    + by rewrite last_cons_default.
Qed.

(** X16: counter semantics over a whole run: for a handshake tag fed the
    non-negative numbers [v0, v1, ...] in consecutive advancing evaluations,
    starting without previous raw value, the number of beats recorded is
    one, for the first value, plus the number of values that differ from
    the one before; and the raw value kept at the end is the last one
    fed. *)
Theorem handshake_counts_changes (hbTag : string) (st : state)
  (v0 : Z) (w0 : world) (vs : list Z) (ws : list world) :
  includes (toLowerCase hbTag) "heartbeat" = false ->
  includes (toLowerCase hbTag) "handshake" = true ->
  lastBeatVal st = VUndef ->
  Forall2 (fun v w => 0 <= v /\ feeds hbTag (VNum (Fin v)) w)
          (v0 :: vs) (w0 :: ws) ->
  stamps (history (evaluations StringToNumber cfg (w0 :: ws) st))
  = (stamps (history st) + 1 + changes v0 vs)%nat /\
  lastBeatVal (evaluations StringToNumber cfg (w0 :: ws) st)
  = VNum (Fin (List.last vs v0)).
Proof.
  intros Hhb Hhs Hst Hall. assert ("handshake"%string <> ""%string) as Hne by done.
  apply Forall2_cons in Hall as [[Hv Hf] Hrest].
  change (evaluations StringToNumber cfg (w0 :: ws) st)
    with (evaluations StringToNumber cfg ws
            (evaluate StringToNumber cfg w0 st)).
  rewrite (evaluate_feeds _ _ _ _ _ _ _ Hne Hhs Hf).
  rewrite Hst, handshake_first by done.
  destruct (counter_run hbTag vs ws Hhb Hhs Hrest
              (evaluated true hbTag (VNum (Fin v0)) (now_plc w0) true st) v0)
    as [Hs Hl].
  { apply evaluated_lastBeatVal. }
  rewrite Hs, Hl, evaluated_stamps. split; [lia|done].
Qed.

End Counter.

Lemma handshake_counts_changes_witness :
  let feed v now :=
    calm (handshake (VNum (Fin v))) (Some "TOHMI_CRC_Handshake"%string) now in
  stamps (history (evaluations decimal demo_cfg
                     [feed 299 10; feed 300 20; feed 300 30; feed 300 40;
                      feed 1 50; feed 2 60] initial_state))
  = 4%nat.
Proof.
  cbv zeta.
  assert (forall v now, 0 <= v ->
            0 <= v /\ feeds "TOHMI_CRC_Handshake" (VNum (Fin v))
                       (calm (handshake (VNum (Fin v)))
                             (Some "TOHMI_CRC_Handshake"%string) now)) as Hfeed.
  { intros v now Hv. split; [done|]. by eexists. }
  pose (feed := fun v now =>
    calm (handshake (VNum (Fin v))) (Some "TOHMI_CRC_Handshake"%string) now).
  assert (Forall2 (fun v w => 0 <= v /\
                     feeds "TOHMI_CRC_Handshake" (VNum (Fin v)) w)
            [299; 300; 300; 300; 1; 2]
            [feed 299 10; feed 300 20; feed 300 30; feed 300 40;
             feed 1 50; feed 2 60]) as Hall.
  { repeat (apply List.Forall2_cons; [apply Hfeed; lia|]).
    apply List.Forall2_nil. }
  exact (proj1 (handshake_counts_changes decimal demo_cfg
           "TOHMI_CRC_Handshake" initial_state 299 _ [300; 300; 300; 1; 2]
           _ eq_refl eq_refl eq_refl Hall)).
Defined.

(* ===================================================================== *)
(** * Properties of the translation                                       *)
(* ===================================================================== *)

Lemma obj_set_fresh {A} (o : list (string * A)) k v :
  k ∉ map fst o -> obj_set o k v = o ++ [(k, v)].
Proof.
  induction o as [|[k' v'] o IH]; [done|].
  cbn [map fst obj_set]. intros [Hne Hin]%not_elem_of_cons.
  destruct (String.eqb k' k) eqn:E.
  - apply String.eqb_eq in E. congruence.
  - cbn [app]. by rewrite IH.
Qed.

Lemma fold_assign_map (f : json -> json) (fields acc : obj) :
  NoDup (map fst fields) ->
  "__proto__"%string ∉ map fst fields ->
  (forall k, k ∈ map fst fields -> k ∉ map fst acc) ->
  fold_left (fun out kv => assign out (fst kv) (f (snd kv))) fields acc
  = acc ++ map (fun kv => (fst kv, f (snd kv))) fields.
Proof.
  revert acc. induction fields as [|[k v] fields IH]; intros acc Hnd Hp Hfresh.
  - simpl. by rewrite app_nil_r.
  - cbn [map fst] in Hnd, Hp, Hfresh.
    apply NoDup_cons in Hnd as [Hk Hnd].
    apply not_elem_of_cons in Hp as [Hpk Hp].
    cbn [fold_left fst snd map]. unfold assign at 2.
    assert (String.eqb k "__proto__" = false) as ->.
    { apply String.eqb_neq. congruence. }
    rewrite obj_set_fresh by (apply Hfresh; left).
    rewrite IH; [by rewrite <- app_assoc|done|done|].
    intros k' Hk'. rewrite map_app, elem_of_app. cbn [map fst].
    rewrite list_elem_of_singleton. intros [Hin | ->].
    + revert Hin. apply Hfresh. by right.
    + done.
Qed.

Lemma translateDeep_obj fields dict :
  NoDup (map fst fields) ->
  "__proto__"%string ∉ map fst fields ->
  translateDeep (JObj fields) dict
  = JObj (map (fun kv => (fst kv, translateDeep (snd kv) dict)) fields).
Proof.
  intros Hnd Hp. cbn [translateDeep].
  rewrite (fold_assign_map (fun v => translateDeep v dict)); try done.
  intros k _. apply not_elem_of_nil.
Qed.

Lemma plain_arr items : plain (JArr items) <-> Forall plain items.
Proof.
  cbn [plain]. induction items as [|x l IH].
  - split; [constructor|done].
  - rewrite Forall_cons. by rewrite IH.
Qed.

Lemma plain_obj fields :
  plain (JObj fields) <->
  NoDup (map fst fields) /\ ("__proto__"%string ∉ map fst fields) /\
  Forall (fun kv => plain (snd kv)) fields.
Proof.
  cbn [plain].
  assert ((fix all (l : list (string * json)) : Prop :=
             match l with
             | [] => True
             | kv :: rest => plain (snd kv) /\ all rest
             end) fields <-> Forall (fun kv => plain (snd kv)) fields) as ->.
  { induction fields as [|x l IH].
    - split; [constructor|done].
    - rewrite Forall_cons. by rewrite IH. }
  done.
Qed.

Lemma translateKey_cases s dict :
  translateKey (JStr s) dict = JStr s \/
  startsWith s "key_" = true /\ exists t, translateKey (JStr s) dict = JStr t.
Proof.
  unfold translateKey. destruct (startsWith s "key_"); [|by left].
  destruct (lookup_nullish _ _ _) as [[| | |str| |]|]; try by left.
  right. split; [done|]. by eexists.
Qed.

(** X17: the translation touches nothing but the strings that start with
    [key_]: the translated layout has the arrays and the objects of the
    layout, with the same lengths, the same property names in the same
    order, and the same numbers, booleans and nulls; a string that does not
    start with [key_] is kept. *)
Theorem translation_keeps_structure (value : json) (dict : obj) :
  plain value -> translation_of value (translateDeep value dict).
Proof.
  induction value as [| b | n | s | items IH | fields IH] using json_induction;
    intros Hpl; try apply tr_same.
  - cbn [translateDeep].
    destruct (translateKey_cases s dict) as [-> | [Hk [t ->]]];
      [apply tr_same | by apply tr_key].
  - cbn [translateDeep]. apply tr_arr. apply plain_arr in Hpl.
    induction IH as [|x l Hx Hl IHl]; [constructor|].
    apply Forall_cons in Hpl as [Hpx Hpl]. cbn [map].
    constructor; [by apply Hx | by apply IHl].
  - apply plain_obj in Hpl as (Hnd & Hp & Hpl).
    rewrite translateDeep_obj by done. apply tr_obj. clear Hnd Hp.
    induction IH as [|x l Hx Hl IHl]; [constructor|].
    apply Forall_cons in Hpl as [Hpx Hpl]. cbn [map].
    constructor; [split; [done | by apply Hx] | by apply IHl].
Qed.

Lemma translation_keeps_structure_witness :
  translation_of
    (JObj [("version"%string, JNum 2);
           ("pages"%string,
            JArr [JObj [("title"%string, JStr "key_page_1");
                        ("tag"%string, JStr "TOHMI_PE1")]])])
    (translateDeep
       (JObj [("version"%string, JNum 2);
              ("pages"%string,
               JArr [JObj [("title"%string, JStr "key_page_1");
                           ("tag"%string, JStr "TOHMI_PE1")]])])
       [("page_#"%string, JStr "Page #1")]).
Proof.
  apply translation_keeps_structure.
  repeat split; try (apply (bool_decide_unpack _); vm_compute; reflexivity).
Defined.

Lemma translateKey_no_text s dict :
  (forall k t, obj_get dict k <> Some (JStr t)) ->
  translateKey (JStr s) dict = JStr s.
Proof.
  intros Hd. unfold translateKey. destruct (startsWith s "key_"); [|done].
  unfold lookup_nullish.
  destruct (obj_get dict (toLowerCase (drop_str 4 s))) as [[| | |t| |]|] eqn:E;
    try done.
  - destruct (obj_get dict (generic_from 0 _)) as [[| | |t| |]|] eqn:E';
      try done. by apply Hd in E'.
  - by apply Hd in E.
  - destruct (obj_get dict (generic_from 0 _)) as [[| | |t| |]|] eqn:E';
      try done. by apply Hd in E'.
Qed.

(** X18: without a translation file the layout is served as it is: with the
    empty dictionary, and with any dictionary that holds no string, the
    translation of a layout whose objects have distinct property names,
    none of them [__proto__], is the layout. *)
Theorem translation_without_text (layout : json) (dict : obj) :
  plain layout ->
  (forall k t, obj_get dict k <> Some (JStr t)) ->
  translateLayout layout dict = layout.
Proof.
  intros Hpl Hd. unfold translateLayout.
  induction layout as [| b | n | s | items IH | fields IH] using json_induction;
    try done.
  - cbn [translateDeep]. by apply translateKey_no_text.
  - cbn [translateDeep]. f_equal. apply plain_arr in Hpl.
    induction IH as [|x l Hx Hl IHl]; [done|].
    apply Forall_cons in Hpl as [Hpx Hpl]. cbn [map].
    by rewrite Hx, IHl.
  - apply plain_obj in Hpl as (Hnd & Hp & Hpl).
    rewrite translateDeep_obj by done. f_equal. clear Hnd Hp.
    induction IH as [|[k v] l Hx Hl IHl]; [done|].
    apply Forall_cons in Hpl as [Hpx Hpl]. cbn [map fst snd] in *.
    by rewrite Hx, IHl.
Qed.

Lemma translation_without_text_witness :
  translateLayout
    (JObj [("pages"%string,
            JArr [JObj [("title"%string, JStr "key_page_1")]])]) []
  = JObj [("pages"%string,
           JArr [JObj [("title"%string, JStr "key_page_1")]])].
Proof.
  apply translation_without_text.
  - repeat split; try (apply (bool_decide_unpack _); vm_compute; reflexivity).
  - intros k t. discriminate.
Defined.

(** X19: the translated metadata has an entry for each tag of the metadata, and
    the entry of a tag is the translation of its metadata. *)
Theorem translated_meta_lookup (metaObj dict : obj) (tagId : string) :
  NoDup (map fst metaObj) ->
  "__proto__"%string ∉ map fst metaObj ->
  map fst (translateMeta metaObj dict) = map fst metaObj /\
  obj_get (translateMeta metaObj dict) tagId
  = (fun meta => translateDeep meta dict) <$> obj_get metaObj tagId.
Proof.
  intros Hnd Hp. unfold translateMeta.
  rewrite (fold_assign_map (fun v => translateDeep v dict)); try done.
  2: { intros k _. apply not_elem_of_nil. }
  cbn [app]. clear. split.
  - induction metaObj as [|[k v] l IH]; [done|]. cbn [map fst]. by rewrite IH.
  - induction metaObj as [|[k v] l IH]; [done|]. cbn [map fst snd obj_get].
    by destruct (String.eqb k tagId).
Qed.

Lemma translated_meta_lookup_witness :
  obj_get (translateMeta
             [("TOHMI_PE1"%string, JObj [("label"%string, JStr "key_pe_1")])]
             [("pe_#"%string, JStr "Photoeye #1")]) "TOHMI_PE1"
  = Some (JObj [("label"%string, JStr "Photoeye 1")]).
Proof.
  rewrite (proj2 (translated_meta_lookup
             [("TOHMI_PE1"%string, JObj [("label"%string, JStr "key_pe_1")])]
             [("pe_#"%string, JStr "Photoeye #1")] "TOHMI_PE1"
             ltac:(apply (bool_decide_unpack _); vm_compute; reflexivity)
             ltac:(apply (bool_decide_unpack _); vm_compute; reflexivity))).
  vm_compute. reflexivity.
Defined.

Lemma append_cons c s t :
  String.append (String c s) t = String c (String.append s t).
Proof. reflexivity. Qed.

Lemma append_empty_l s : String.append EmptyString s = s.
Proof. reflexivity. Qed.

Lemma append_empty_r s : String.append s EmptyString = s.
Proof. induction s as [|c s IH]; [done|]. by rewrite append_cons, IH. Qed.

Lemma count_hash_append s t :
  count_hash (String.append s t) = (count_hash s + count_hash t)%nat.
Proof.
  induction s as [|c s IH]; [done|]. rewrite append_cons. cbn [count_hash].
  rewrite IH. by destruct (Ascii.eqb c "#").
Qed.

Lemma all_digits_no_hash s : all_digits s = true -> count_hash s = O.
Proof.
  induction s as [|c s IH]; [done|]. cbn [all_digits count_hash].
  intros [Hc Hs]%andb_prop. destruct (Ascii.eqb c "#") eqn:E; [|by apply IH].
  apply Ascii.eqb_eq in E. by subst c.
Qed.

Lemma replace_keep p n s t :
  count_hash s = O ->
  replace_from (String "#" p) n O (String.append s t)
  = String.append s (replace_from (String "#" p) n O t).
Proof.
  induction s as [|c s IH]; [done|]. cbn [count_hash].
  destruct (Ascii.eqb c "#") eqn:E; [done|]. intros Hs.
  rewrite !append_cons. cbn [replace_from String.prefix].
  destruct (ascii_dec "#" c) as [<-|_]; [done|]. by rewrite IH.
Qed.

Lemma replace_no_hash p n s :
  count_hash s = O -> replace_from (String "#" p) n O s = s.
Proof.
  intros Hs. rewrite <- (append_empty_r s) at 1.
  rewrite replace_keep by done. cbn [replace_from]. apply append_empty_r.
Qed.

Lemma replace_hit d n t :
  replace_from (String "#" (String d EmptyString)) n O
    (String "#" (String d t))
  = String.append n (replace_from (String "#" (String d EmptyString)) n O t).
Proof.
  cbn [replace_from String.prefix String.length Nat.sub].
  destruct (ascii_dec "#" "#") as [_|]; [|done].
  destruct (ascii_dec d d) as [_|]; [|done].
  by destruct t.
Qed.

Lemma replace_miss d d' n t :
  d <> d' -> is_digit d' = true ->
  replace_from (String "#" (String d EmptyString)) n O
    (String "#" (String d' t))
  = String "#" (String d'
      (replace_from (String "#" (String d EmptyString)) n O t)).
Proof.
  intros Hne Hd'. cbn [replace_from String.prefix].
  destruct (ascii_dec "#" "#") as [_|]; [|done].
  destruct (ascii_dec d d') as [|_]; [done|].
  destruct (ascii_dec "#" d') as [<-|_]; [done|]. done.
Qed.

Lemma pretty_digit (i : nat) :
  (1 <= i <= 9)%nat ->
  exists d, pretty i = String d EmptyString /\ is_digit d = true.
Proof.
  intros [Hlo Hhi].
  do 10 (destruct i as [|i]; [try lia; by eexists|]). lia.
Qed.

Lemma join_written_step (j : nat) (n : string) (ps : list piece) :
  (1 <= j <= 9)%nat ->
  Forall piece_ok ps ->
  replace_all (String "#" (pretty j)) n (join (map written ps))
  = join (map written (map (replaced j n) ps)).
Proof.
  intros Hj Hps. unfold replace_all.
  destruct (pretty_digit j Hj) as (d & Hd & Hdd).
  induction Hps as [|[s|k] ps Hp Hps IH]; [done| |].
  - cbn [map written join replaced]. rewrite replace_keep by done.
    by rewrite IH.
  - cbn [map join replaced]. cbn [piece_ok] in Hp.
    destruct (pretty_digit k Hp) as (d' & Hd' & Hdd').
    destruct (Nat.eqb k j) eqn:E.
    + apply Nat.eqb_eq in E. subst k. cbn [written].
      rewrite Hd in *. rewrite !append_cons, append_empty_l.
      rewrite replace_hit. by rewrite IH.
    + apply Nat.eqb_neq in E. cbn [written].
      rewrite Hd', Hd in *. rewrite !append_cons, append_empty_l.
      rewrite replace_miss; [by rewrite IH | | done].
      intros ->. apply E. apply (inj pretty). by rewrite Hd, Hd'.
Qed.

Lemma join_no_slot ps :
  Forall (fun p => match p with Text s => count_hash s = O | Slot _ => False end)
         ps ->
  count_hash (join (map written ps)) = O.
Proof.
  induction 1 as [|[s|k] ps Hp Hps IH]; [done| |done].
  cbn [map written join]. rewrite count_hash_append. lia.
Qed.

Lemma fill_numbers_pieces (numbers : list string) :
  Forall (fun n => count_hash n = O) numbers ->
  forall (i : nat) (ps : list piece),
    Forall (fun p => match p with
                     | Text s => count_hash s = O
                     | Slot k => (i < k <= 9)%nat
                     end) ps ->
    fill_numbers i numbers (join (map written ps))
    = join (map (filled_from i numbers) ps).
Proof.
  induction 1 as [|n numbers Hn Hns IH]; intros i ps Hps.
  - cbn [fill_numbers]. f_equal. apply map_ext_Forall.
    eapply Forall_impl; [exact Hps|]. intros [s|k] _; [done|].
    cbn [filled_from]. by rewrite lookup_nil.
  - cbn [fill_numbers]. destruct (decide (i < 9)%nat) as [Hi|Hi].
    + rewrite join_written_step.
      2: lia.
      2: { eapply Forall_impl; [exact Hps|]. intros [s|k]; cbn; [done|lia]. }
      rewrite IH.
      * rewrite map_map. f_equal. apply map_ext_Forall.
        eapply Forall_impl; [exact Hps|]. intros [s|k] Hk; [done|].
        cbn [replaced]. destruct (Nat.eqb k (S i)) eqn:E.
        -- apply Nat.eqb_eq in E. subst k. cbn [filled_from].
           by replace (S i - 1 - i)%nat with O by lia.
        -- apply Nat.eqb_neq in E. cbn [filled_from].
           replace (k - 1 - i)%nat with (S (k - 1 - S i)) by lia. done.
      * apply Forall_map. eapply Forall_impl; [exact Hps|].
        intros [s|k] Hk; [done|]. cbn [replaced].
        destruct (Nat.eqb k (S i)) eqn:E; [done|].
        apply Nat.eqb_neq in E. lia.
    + assert (Forall (fun p => match p with
                               | Text s => count_hash s = O
                               | Slot _ => False
                               end) ps) as Hno.
      { eapply Forall_impl; [exact Hps|]. intros [s|k]; [done|lia]. }
      unfold replace_all. rewrite replace_no_hash by by apply join_no_slot.
      rewrite IH.
      * f_equal. apply map_ext_Forall.
        eapply Forall_impl; [exact Hno|]. by intros [s|k].
      * eapply Forall_impl; [exact Hno|]. by intros [s|k].
Qed.

Lemma numbers_from_digits s :
  forall skip, Forall (fun n => count_hash n = O) (numbers_from skip s).
Proof.
  induction s as [|c s IH]; intros skip; [constructor|].
  cbn [numbers_from]. destruct skip as [|skip]; [|apply IH].
  destruct (is_digit c) eqn:E; [|apply IH].
  constructor; [|apply IH].
  apply all_digits_no_hash, take_str_digits. lia.
Qed.

(** X20: the placeholders of a dictionary entry are filled by position: where
    the text of the entry found for a key is made of stretches without '#'
    and of placeholders [#1] to [#9], the translation is that text with each
    [#i] replaced by the [i]-th number of the key, a placeholder beyond the
    numbers of the key staying as it is. *)
Theorem placeholders_filled (raw : string) (dict : obj) (ps : list piece) :
  startsWith raw "key_" = true ->
  lookup_nullish dict (toLowerCase (drop_str 4 raw))
    (generic_from O (toLowerCase (drop_str 4 raw)))
  = Some (JStr (join (map written ps))) ->
  Forall piece_ok ps ->
  translateKey (JStr raw) dict
  = JStr (join (map (filled (numbers_from O (toLowerCase (drop_str 4 raw))))
                    ps)).
Proof.
  intros Hk Hfound Hps. unfold translateKey. rewrite Hk. cbv zeta.
  rewrite Hfound. f_equal. apply fill_numbers_pieces.
  - apply numbers_from_digits.
  - eapply Forall_impl; [exact Hps|]. intros [s|k]; cbn; [done|lia].
Qed.

Lemma placeholders_filled_witness :
  translateKey (JStr "key_Alarm_12_Zone_3")
    [("alarm_#_zone_#"%string, JStr "Zone #2: alarm #1 (#3)")]
  = JStr "Zone 3: alarm 12 (#3)".
Proof.
  exact (placeholders_filled "key_Alarm_12_Zone_3"
           [("alarm_#_zone_#"%string, JStr "Zone #2: alarm #1 (#3)")]
           [Text "Zone "; Slot 2; Text ": alarm "; Slot 1; Text " (";
            Slot 3; Text ")"]
           eq_refl eq_refl
           ltac:(repeat constructor; cbn; lia)).
Defined.

(* ===================================================================== *)
(** * The simulator's handshake, as the engine reads it                   *)
(* ===================================================================== *)

Lemma fire_inv t g g' :
  generator_inv g -> fire t g = Some g' -> generator_inv g'.
Proof.
  unfold generator_inv. destruct g as [hb [] n v]; cbn [gen_active gen_hb
    gen_scheduled gen_value]; destruct t; cbn.
  - intros (Hhb & -> & Hv) [= <-]. destruct (Z.gtb_spec (hb + 1) 300); cbn; lia.
  - intros (Hhb & -> & Hv). done.
  - intros H [= <-]. done.
  - intros (-> & -> & ->) [= <-]. cbn. lia.
Qed.

Lemma fires_inv ts : forall g g',
  generator_inv g -> fires ts g = Some g' -> generator_inv g'.
Proof.
  induction ts as [|t ts IH]; intros g g' Hg; cbn [fires].
  - by intros [= <-].
  - destruct (fire t g) as [g1|] eqn:E; [|done].
    apply IH. by apply (fire_inv t g).
Qed.

(** X21: the handshake of the simulator, whatever the order in which its timers
    run: the value of the tag is always between 1 and 300; a timer leaves
    it, adds one to it, or takes it from 300 to 2; and the engine counts a
    beat exactly when the value has moved. *)
Theorem simulator_handshake (StringToNumber : string -> number)
  (ts : list timer) (t : timer) (g g' : generator) :
  fires ts startHandshake = Some g ->
  fire t g = Some g' ->
  1 <= gen_value g' <= 300 /\
  (gen_value g' = gen_value g \/ gen_value g' = gen_value g + 1 \/
   gen_value g = 300 /\ gen_value g' = 2) /\
  beatDetected StringToNumber "TOHMI_CRC_Handshake"
    (VNum (Fin (gen_value g))) (VNum (Fin (gen_value g')))
  = negb (Z.eqb (gen_value g') (gen_value g)).
Proof.
  intros Hrun Hfire.
  assert (generator_inv g) as Hg.
  { apply (fires_inv ts startHandshake); [|done].
    unfold generator_inv. cbn. lia. }
  pose proof (fire_inv t g g' Hg Hfire) as Hg'.
  assert (1 <= gen_value g' <= 300) as Hrange.
  { unfold generator_inv in Hg'. destruct (gen_active g'); lia. }
  split; [done|]. split; [|by apply handshake_beat; [| |lia]].
  unfold generator_inv in Hg. destruct g as [hb [] n v];
    cbn [gen_active gen_hb gen_scheduled gen_value] in *; destruct t;
    cbn in Hfire.
  - destruct Hg as (Hhb & -> & Hv). injection Hfire as <-.
    destruct (Z.gtb_spec (hb + 1) 300); cbn; lia.
  - destruct Hg as (Hhb & -> & Hv). done.
  - injection Hfire as <-. by left.
  - destruct Hg as (-> & -> & ->). injection Hfire as <-. by left.
Qed.

Lemma simulator_handshake_witness :
  1 <= gen_value (on_interval (on_restart
         (Generator 301 false 1 300))) <= 300.
Proof.
  exact (proj1 (simulator_handshake decimal
           (repeat Interval 300 ++ [Restart]) Interval
           (on_restart (Generator 301 false 1 300)) _
           ltac:(vm_compute; reflexivity) eq_refl)).
Defined.
